(** * Themifier: colour model, colour transform, registries, contrast repair
      and the loop guard of the dynamic theme engine.

    A shallow embedding of the TypeScript sources.  JavaScript numbers are
    IEEE-754 binary64 values, so they are modelled by Rocq's primitive
    [float]; the host functions the sources call ([Math.max], [Math.round],
    the [%] operator, number printing, ...) are defined once in module [JS].
    Mutable module-level state (caches, the palette, the registry, the
    loop-guard tables) is threaded explicitly. *)

From Stdlib Require Import ZArith Bool List String Ascii Lia Floats.
From Stdlib Require Uint63.
From stdpp Require Import gmap strings list.

Set Warnings "-inexact-float".

(** ** The JavaScript number layer *)

Module JS.
Local Open Scope bool_scope.
Local Open Scope float_scope.

Abbreviation number := float.

(** [isNaN(x)] for a value that already is a number. *)
Definition isNaN (x : number) : bool := is_nan x.

(** [Math.max(a, b)]: NaN if either is NaN, and +0 is larger than -0. *)
Definition Math_max (a b : number) : number :=
  if is_nan a || is_nan b then nan
  else if a <? b then b
  else if b <? a then a
  else if get_sign a then b else a.

(** [Math.min(a, b)]: NaN if either is NaN, and -0 is smaller than +0. *)
Definition Math_min (a b : number) : number :=
  if is_nan a || is_nan b then nan
  else if a <? b then a
  else if b <? a then b
  else if get_sign a then a else b.

Definition Math_max3 (a b c : number) : number := Math_max (Math_max a b) c.
Definition Math_min3 (a b c : number) : number := Math_min (Math_min a b) c.

Definition Math_abs (x : number) : number := abs x.

(** Every double of magnitude at least 2^52 is an integer; below it, adding
    and subtracting 2^52 rounds to an integer exactly. *)
Definition two52 : number := 4503599627370496.

(** [Math.floor(x)]. *)
Definition Math_floor (x : number) : number :=
  if abs x <? two52 then
    let t := if x <? 0 then (x - two52) + two52 else (x + two52) - two52 in
    let f := if x <? t then t - 1 else t in
    if f =? x then x else f
  else x.

(** [Math.round(x)]: the integer nearest to [x], ties towards +Infinity;
    the sign of a zero result follows [x]. *)
Definition Math_round (x : number) : number :=
  let f := Math_floor x in
  if f =? x then x
  else
    let n := if x - f <? 0.5 then f else f + 1 in
    if (n =? 0) && (x <? 0) then neg_zero else n.

(** Exact conversions between integers and doubles. *)
Definition number_of_Z (z : Z) : number :=
  if ((0 <=? z) && (z <? 9007199254740992))%Z then of_uint63 (Uint63.of_Z z)
  else SF2Prim (binary_normalize prec emax z 0 false).

(** The integer part of a finite number (truncation towards zero). *)
Definition Z_of_number (x : number) : option Z :=
  match Prim2SF x with
  | S754_zero _ => Some 0%Z
  | S754_finite s m e =>
      let v := if (0 <=? e)%Z then (Z.pos m * 2 ^ e)%Z else (Z.pos m / 2 ^ (- e))%Z in
      Some (if s then (- v)%Z else v)
  | _ => None
  end.

(** The [%] operator on numbers: the remainder has the sign of the dividend
    and is exact.  For [|x| >= |y|] it is computed by binary long division:
    each step subtracts from the running remainder [r] the multiple
    [|y| * 2^k] lying in [(r/2, r]], a subtraction that is exact in binary64,
    and lowers the exponent of [r]; 2100 steps cover every exponent gap. *)
Fixpoint rem_loop (fuel : nat) (r y fy : number) : number :=
  match fuel with
  | O => r
  | S fuel' =>
      if r <? y then r
      else
        let '(_, er) := frshiftexp r in
        let t0 := ldshiftexp fy er in
        let t := if t0 <=? r then t0 else t0 / 2 in
        rem_loop fuel' (r - t) y fy
  end.

Definition rem (x y : number) : number :=
  if is_nan x || is_nan y || PrimFloat.is_infinity x || PrimFloat.is_zero y then nan
  else if PrimFloat.is_infinity y || PrimFloat.is_zero x then x
  else if abs x <? abs y then x
  else
    let '(fy, _) := frshiftexp (abs y) in
    let q := rem_loop 2100 (abs x) (abs y) fy in
    if x <? 0 then - q else q.


(** *** Strings

    JavaScript strings are modelled by [string], a sequence of 8-bit code
    units read as Latin-1. *)

Definition code (c : ascii) : Z := Z.of_N (N_of_ascii c).
Definition char_of_code (z : Z) : ascii := ascii_of_N (Z.to_N z).

(** White space as [trim] and the regular expression class [\s] see it. *)
Definition is_space (c : ascii) : bool :=
  let n := code c in
  ((9 <=? n) && (n <=? 13) || (n =? 32) || (n =? 160))%Z.

Definition is_digit (c : ascii) : bool :=
  let n := code c in ((48 <=? n) && (n <=? 57))%Z.

Definition lower_char (c : ascii) : ascii :=
  let n := code c in
  if ((65 <=? n) && (n <=? 90) || (192 <=? n) && (n <=? 222) && negb (n =? 215))%Z
  then char_of_code (n + 32) else c.

Fixpoint toLowerCase (s : string) : string :=
  match s with
  | EmptyString => EmptyString
  | String c r => String (lower_char c) (toLowerCase r)
  end.

Fixpoint trimStart (s : string) : string :=
  match s with
  | String c r => if is_space c then trimStart r else s
  | EmptyString => EmptyString
  end.

Fixpoint trimEnd (s : string) : string :=
  match s with
  | EmptyString => EmptyString
  | String c r =>
      match trimEnd r with
      | EmptyString => if is_space c then EmptyString else String c EmptyString
      | r' => String c r'
      end
  end.

Definition trim (s : string) : string := trimEnd (trimStart s).

(** [s.startsWith(p)], [s.endsWith(p)], [s.includes(p)]. *)
Definition startsWith (s p : string) : bool := String.prefix p s.

Fixpoint includes (s p : string) : bool :=
  String.prefix p s ||
  match s with
  | EmptyString => false
  | String _ r => includes r p
  end.

Fixpoint endsWith (s p : string) : bool :=
  String.eqb s p ||
  match s with
  | EmptyString => false
  | String _ r => endsWith r p
  end.

(** [s.substring(i, j)] for [0 <= i <= j]. *)
Definition substring (s : string) (i j : nat) : string := String.substring i (j - i) s.

(** [s[i]] inside a template literal: a missing index prints as
    [undefined]. *)
Definition char_at (s : string) (i : nat) : string :=
  match String.get i s with
  | Some c => String c EmptyString
  | None => "undefined"
  end.

(** *** Reading numbers *)

(** The double nearest to [p / q] (ties to even) for [0 < p], [0 < q]:
    the quotient is taken with at least 64 significant bits plus a sticky
    bit and handed to the rounding of [SpecFloat]. *)
Definition round_ratio (p q : Z) : number :=
  let k := Z.max 0 (64 + Z.log2 q - Z.log2 p) in
  let n := (p * 2 ^ k)%Z in
  let m := (n / q)%Z in
  let sticky := if (n mod q =? 0)%Z then 0%Z else 1%Z in
  SF2Prim (binary_normalize prec emax (2 * m + sticky) (- k - 1) false).

(** The value of a digit in a radix up to 36. *)
Definition digit_value (c : ascii) : option Z :=
  let n := code c in
  if ((48 <=? n) && (n <=? 57))%Z then Some (n - 48)%Z
  else if ((97 <=? n) && (n <=? 122))%Z then Some (n - 87)%Z
  else if ((65 <=? n) && (n <=? 90))%Z then Some (n - 55)%Z
  else None.

(** The longest prefix of radix-[radix] digits: its value, how many digits
    it has, and the rest of the string. *)
Fixpoint read_digits (radix : Z) (s : string) (acc : Z) (count : nat) : Z * nat * string :=
  match s with
  | String c r =>
      match digit_value c with
      | Some d => if (d <? radix)%Z then read_digits radix r (acc * radix + d)%Z (S count)
                  else (acc, count, s)
      | None => (acc, count, s)
      end
  | EmptyString => (acc, count, s)
  end.

Definition read_sign (s : string) : bool * string :=
  match s with
  | String "-" r => (true, r)
  | String "+" r => (false, r)
  | _ => (false, s)
  end.

(** [parseInt(s, 16)]. *)
Definition parseInt16 (s : string) : number :=
  let '(neg, s) := read_sign (trimStart s) in
  let s := if String.prefix "0x" s || String.prefix "0X" s then String.substring 2 (String.length s - 2) s else s in
  let '(v, count, _) := read_digits 16 s 0 0 in
  match count with
  | O => nan
  | _ => if neg then - number_of_Z v else number_of_Z v
  end.

(** Decimal scaling with rounding to the nearest double: [m * 10^e]. *)
Definition decimal_to_number (m e : Z) (ndigits : nat) : number :=
  if (m =? 0)%Z then 0
  else if (400 <? e)%Z then infinity
  else if (e + Z.of_nat ndigits <? -400)%Z then 0
  else if (0 <=? e)%Z then round_ratio (m * 10 ^ e) 1
  else round_ratio m (10 ^ (- e)).

(** The optional exponent part of a decimal literal; a malformed one is not
    part of the literal. *)
Definition read_exponent (s : string) : Z :=
  match s with
  | String c r =>
      if (code c =? 101)%Z || (code c =? 69)%Z then
        let '(neg, r') := read_sign r in
        let '(v, count, _) := read_digits 10 r' 0 0 in
        match count with
        | O => 0%Z
        | _ => if neg then (- v)%Z else v
        end
      else 0%Z
  | EmptyString => 0%Z
  end.

(** [parseFloat(s)]: the longest prefix that is a decimal literal. *)
Definition parseFloat (s : string) : number :=
  let '(neg, s) := read_sign (trimStart s) in
  let sign := fun x : number => if neg then - x else x in
  if String.prefix "Infinity" s then sign infinity
  else
    let '(ip, ni, s1) := read_digits 10 s 0 0 in
    let '(fp, nf, s2) :=
      match s1 with
      | String "." r => let '(v, n, r') := read_digits 10 r ip 0 in (v, n, r')
      | _ => (ip, O, s1)
      end in
    match (ni + nf)%nat with
    | O => nan
    | nd => sign (decimal_to_number fp (read_exponent s2 - Z.of_nat nf) nd)
    end.

Definition Math_PI : number := 3.141592653589793.


(** *** Printing numbers *)

Definition digit_char (d : Z) : ascii :=
  if (d <? 10)%Z then char_of_code (48 + d) else char_of_code (87 + d).

Fixpoint digits_loop (fuel : nat) (radix z : Z) (acc : string) : string :=
  match fuel with
  | O => acc
  | S fuel' =>
      let acc' := String (digit_char (z mod radix)) acc in
      if (z / radix =? 0)%Z then acc' else digits_loop fuel' radix (z / radix) acc'
  end.

(** The digits of a natural number in a radix, most significant first. *)
Definition Z_to_string (radix z : Z) : string :=
  digits_loop (S (Z.to_nat (Z.log2 z))) radix z EmptyString.

Fixpoint zeros (n : nat) : string :=
  match n with O => EmptyString | S n' => String "0" (zeros n') end.

(** The shortest decimal that reads back as the positive double [m * 2^e]
    (Number::toString, step 5): digits [s], their count [k] and the decimal
    exponent [n], with [s * 10^(n-k)] inside the rounding interval of the
    double, [k] minimal and [s] closest to the value.  All comparisons are
    between integers: a value [N * 2^(e-2)] is [N * up / down]. *)
Section Shortest.
Variables (m e : Z).

Let up : Z := (2 ^ Z.max (e - 2) 0)%Z.
Let down : Z := (2 ^ Z.max (2 - e) 0)%Z.
Let X : Z := (4 * m)%Z.
Let HI : Z := (4 * m + 2)%Z.
Let LO : Z := if ((m =? 2 ^ 52) && (-1074 <? e))%Z then (4 * m - 1)%Z else (4 * m - 2)%Z.

(** [x < 10^n] *)
Definition below_pow10 (n : Z) : bool :=
  (X * up * 10 ^ Z.max (- n) 0 <? down * 10 ^ Z.max n 0)%Z.

Fixpoint find_n (fuel : nat) (n : Z) : Z :=
  match fuel with
  | O => n
  | S fuel' => if below_pow10 n then n else find_n fuel' (n + 1)%Z
  end.

Definition decimal_exponent : Z :=
  find_n 6 ((Z.log2 (X * up) - Z.log2 down) * 30103 / 100000 - 2)%Z.

Definition candidate (n : Z) (k : nat) : option Z :=
  let p10 := (10 ^ Z.max (n - Z.of_nat k) 0)%Z in
  let q10 := (10 ^ Z.max (Z.of_nat k - n) 0)%Z in
  let val := fun c : Z => (c * p10 * down)%Z in
  let ref := fun N : Z => (N * up * q10)%Z in
  let inside := fun c : Z =>
    if Z.even m then ((ref LO <=? val c) && (val c <=? ref HI))%Z
    else ((ref LO <? val c) && (val c <? ref HI))%Z in
  let lo := (ref X / (p10 * down))%Z in
  let hi := (lo + 1)%Z in
  match inside lo, inside hi with
  | true, false => Some lo
  | false, true => Some hi
  | false, false => None
  | true, true =>
      let dlo := (ref X - val lo)%Z in
      let dhi := (val hi - ref X)%Z in
      if (dlo <? dhi)%Z then Some lo
      else if (dhi <? dlo)%Z then Some hi
      else if Z.even lo then Some lo else Some hi
  end.

Fixpoint shortest_from (fuel k : nat) (n : Z) : Z * Z * nat :=
  match fuel with
  | O => (X * up / down, n, k)%Z
  | S fuel' =>
      match candidate n k with
      | Some c =>
          if (c =? 10 ^ Z.of_nat k)%Z then ((10 ^ (Z.of_nat k - 1))%Z, (n + 1)%Z, k)
          else (c, n, k)
      | None => shortest_from fuel' (S k) n
      end
  end.

Definition shortest_decimal : Z * Z * nat := shortest_from 17 1 decimal_exponent.

End Shortest.

(** Number::toString in radix 10, as template literals apply it. *)
Definition Number_toString (x : number) : string :=
  match Prim2SF x with
  | S754_nan => "NaN"
  | S754_zero _ => "0"
  | S754_infinity sg => if sg then "-Infinity" else "Infinity"
  | S754_finite sg m e =>
      let '(s, n, k) := shortest_decimal (Z.pos m) e in
      let ds := Z_to_string 10 s in
      let kz := Z.of_nat k in
      let body :=
        if ((kz <=? n) && (n <=? 21))%Z then ds +:+ zeros (Z.to_nat (n - kz))
        else if ((0 <? n) && (n <=? 21))%Z then
          String.substring 0 (Z.to_nat n) ds +:+ "." +:+ String.substring (Z.to_nat n) (k - Z.to_nat n) ds
        else if ((-6 <? n) && (n <=? 0))%Z then "0." +:+ zeros (Z.to_nat (- n)) +:+ ds
        else
          let ex := (n - 1)%Z in
          let es := (if (ex <? 0)%Z then "-" else "+") +:+ Z_to_string 10 (Z.abs ex) in
          match k with
          | 1%nat => ds +:+ "e" +:+ es
          | _ => String.substring 0 1 ds +:+ "." +:+ String.substring 1 (k - 1) ds +:+ "e" +:+ es
          end in
      if sg then "-" +:+ body else body
  end.

(** [x.toString(16)] for an integral [x]; the sources apply it only to the
    results of [Math.round]. *)
Definition toString16 (x : number) : string :=
  match Prim2SF x with
  | S754_nan => "NaN"
  | S754_zero _ => "0"
  | S754_infinity sg => if sg then "-Infinity" else "Infinity"
  | S754_finite sg _ _ =>
      match Z_of_number x with
      | Some z => (if sg then "-" else "") +:+ Z_to_string 16 (Z.abs z)
      | None => "NaN"
      end
  end.

(** [x.toFixed(f)]: for [|x| < 1e21] the integer nearest to [x * 10^f]
    (the larger one on a tie), printed with [f] decimals. *)
Definition toFixed (x : number) (f : nat) : string :=
  match Prim2SF x with
  | S754_finite sg m e =>
      if 1e21 <=? abs x then Number_toString x
      else
        let t := (Z.pos m * 10 ^ Z.of_nat f)%Z in
        let n := if (0 <=? e)%Z then (t * 2 ^ e)%Z
                 else ((2 * t + 2 ^ (- e)) / 2 ^ (1 - e))%Z in
        let ds := Z_to_string 10 n in
        let ds := zeros (S f - String.length ds) +:+ ds in
        let ip := String.substring 0 (String.length ds - f) ds in
        let body := match f with
                    | O => ip
                    | _ => ip +:+ "." +:+ String.substring (String.length ds - f) f ds
                    end in
        if sg then "-" +:+ body else body
  | S754_zero _ => match f with O => "0" | _ => "0." +:+ zeros f end
  | _ => Number_toString x
  end.

(** *** [Math.pow]

    ECMAScript fixes the special cases and leaves the general case to an
    implementation-approximated value.  Here [x^y = exp (y * ln x)] is
    evaluated in 200-bit fixed point and rounded to the nearest double, an
    error far below the half unit in the last place engines stay within. *)
Section Pow.

Let P : Z := 200%Z.
Let fx_mul (u v : Z) : Z := Z.shiftr (u * v) P.

(** [atanh z = z + z^3/3 + z^5/5 + ...] for [|z| <= 1/3]. *)
Fixpoint atanh_loop (fuel : nat) (z2 pw : Z) (d : Z) (acc : Z) : Z :=
  match fuel with
  | O => acc
  | S fuel' => atanh_loop fuel' z2 (fx_mul pw z2) (d + 2)%Z (acc + pw / d)%Z
  end.
Definition fx_atanh (z : Z) : Z := atanh_loop 70 (fx_mul z z) z 1 0.

Definition fx_ln2 : Z := (2 * fx_atanh (2 ^ P / 3))%Z.

(** [ln (m * 2^e)] for a positive integer [m]. *)
Definition fx_ln (m e : Z) : Z :=
  let b := Z.log2 m in
  let z := (((m - 2 ^ b) * 2 ^ P) / (m + 2 ^ b))%Z in
  ((e + b) * fx_ln2 + 2 * fx_atanh z)%Z.

(** [exp r = 1 + r + r^2/2! + ...] for [|r| <= ln 2 / 2]. *)
Fixpoint exp_loop (fuel : nat) (r term : Z) (i : Z) (acc : Z) : Z :=
  match fuel with
  | O => acc
  | S fuel' =>
      let term' := (fx_mul term r / i)%Z in
      exp_loop fuel' r term' (i + 1)%Z (acc + term')%Z
  end.
Definition fx_exp (r : Z) : Z := exp_loop 60 r (2 ^ P) 1 (2 ^ P).

(** [x^y] for finite [x > 0] and finite [y <> 0]. *)
Definition pow_pos (x y : number) : number :=
  match Prim2SF x, Prim2SF y with
  | S754_finite _ mx ex, S754_finite sy my ey =>
      let l := fx_ln (Z.pos mx) ex in
      let t := if (0 <=? ey)%Z then (l * Z.pos my * 2 ^ ey)%Z
               else Z.shiftr (l * Z.pos my) (- ey) in
      let t := if sy then (- t)%Z else t in
      if (1100 * 2 ^ P <? t)%Z then infinity
      else if (t <? -1100 * 2 ^ P)%Z then 0
      else
        let k := ((2 * t + fx_ln2) / (2 * fx_ln2))%Z in
        let r := (t - k * fx_ln2)%Z in
        SF2Prim (binary_normalize prec emax (fx_exp r) (k - P) false)
  | _, _ => nan
  end.

Definition is_integer (y : number) : bool := Math_floor y =? y.
Definition is_odd_integer (y : number) : bool := is_integer y && (rem (abs y) 2 =? 1).

(** [Math.pow(base, exponent)] (Number::exponentiate). *)
Definition Math_pow (base exponent : number) : number :=
  if is_nan exponent then nan
  else if PrimFloat.is_zero exponent then 1
  else if is_nan base then nan
  else if PrimFloat.is_infinity base then
    if 0 <? base then (if 0 <? exponent then infinity else 0)
    else if 0 <? exponent then (if is_odd_integer exponent then neg_infinity else infinity)
    else (if is_odd_integer exponent then neg_zero else 0)
  else if PrimFloat.is_zero base then
    if get_sign base then
      if 0 <? exponent then (if is_odd_integer exponent then neg_zero else 0)
      else (if is_odd_integer exponent then neg_infinity else infinity)
    else (if 0 <? exponent then 0 else infinity)
  else if PrimFloat.is_infinity exponent then
    if abs base =? 1 then nan
    else if (1 <? abs base) then (if 0 <? exponent then infinity else 0)
    else (if 0 <? exponent then 0 else infinity)
  else if base <? 0 then
    if is_integer exponent then
      let v := pow_pos (abs base) exponent in
      if is_odd_integer exponent then - v else v
    else nan
  else pow_pos base exponent.

End Pow.


(** *** Bit operations: operands go through ToInt32 *)

Definition ToInt32 (x : number) : Z :=
  match Z_of_number x with
  | Some z =>
      let w := (z mod 2 ^ 32)%Z in
      if (2 ^ 31 <=? w)%Z then (w - 2 ^ 32)%Z else w
  | None => 0%Z
  end.

(** [x >> k] and [x & y]. *)
Definition shr (x : number) (k : Z) : number :=
  let v := Z.shiftr (ToInt32 x) (k mod 32) in
  if (v <? 0)%Z then - number_of_Z (- v) else number_of_Z v.

Definition band (x y : number) : number :=
  let v := Z.land (ToInt32 x) (ToInt32 y) in
  if (v <? 0)%Z then - number_of_Z (- v) else number_of_Z v.

(** *** The two regular expressions of the colour parser *)

Definition string_of_rev (cs : list ascii) : string :=
  string_of_list_ascii (List.rev cs).

(** The text before the first [")"] and whether there is one. *)
Fixpoint until_close (s : string) (acc : list ascii) : option string :=
  match s with
  | EmptyString => None
  | String c r =>
      if (code c =? 41)%Z then Some (string_of_rev acc) else until_close r (c :: acc)
  end.

Definition last_char (s : string) : option ascii :=
  match List.rev (list_ascii_of_string s) with
  | c :: _ => Some c
  | nil => None
  end.

(** [/name a? \s* \( \s* ([^)]+) \)/] tried at the start of [s], for [name]
    one of [rgb] and [hsl]: the captured group.  The group is the text up to
    the first closing parenthesis without its leading white space; when
    that text is white space only, backtracking leaves its last character
    to the group. *)
Definition match_call_here (name s : string) : option string :=
  if String.prefix name s then
    let r := String.substring (String.length name) (String.length s - String.length name) s in
    let r := match r with String "a" r' => r' | _ => r end in
    match trimStart r with
    | String "(" body =>
        match until_close body nil with
        | Some content =>
            match trimStart content with
            | EmptyString =>
                match last_char content with
                | Some c => Some (String c EmptyString)
                | None => None
                end
            | group => Some group
            end
        | None => None
        end
    | _ => None
    end
  else None.

(** [s.match(/name a?\s*\(\s*([^)]+)\)/)]: the first position that matches. *)
Fixpoint match_call (name s : string) : option string :=
  match match_call_here name s with
  | Some group => Some group
  | None =>
      match s with
      | EmptyString => None
      | String _ r => match_call name r
      end
  end.

(** [/\s*[,\s]\s*/] tried at the start of [s]: the text after the
    separator.  A separator is a run of white space holding at most one
    comma, and is never empty. *)
Definition separator_here (s : string) : option string :=
  let r := trimStart s in
  match r with
  | String "," r' => Some (trimStart r')
  | _ =>
      match s with
      | String c _ => if is_space c then Some r else None
      | EmptyString => None
      end
  end.

Fixpoint split_loop (fuel : nat) (s : string) (cur : list ascii) : list string :=
  match fuel with
  | O => [string_of_rev cur]
  | S fuel' =>
      match s with
      | EmptyString => [string_of_rev cur]
      | String c r =>
          match separator_here s with
          | Some rest => string_of_rev cur :: split_loop fuel' rest nil
          | None => split_loop fuel' r (c :: cur)
          end
      end
  end.

(** [s.split(/\s*[,\s]\s*/)]. *)
Definition split_separators (s : string) : list string :=
  split_loop (S (String.length s)) s nil.

End JS.

(** ** Colour utilities (utils/color.ts) *)

Module RGBA.
Record t := mk { r : JS.number; g : JS.number; b : JS.number; a : JS.number }.
End RGBA.

Module HSLA.
Record t := mk { h : JS.number; s : JS.number; l : JS.number; a : JS.number }.
End HSLA.

Section ColorUtils.
Local Open Scope bool_scope.
Local Open Scope float_scope.
Import JS.

(** Clamp value between min and max. *)
Definition clamp (value min max : number) : number :=
  Math_min (Math_max value min) max.

(** Linear scale utility. *)
Definition scale (value inMin inMax outMin outMax : number) : number :=
  clamp
    (outMin + ((value - inMin) * (outMax - outMin)) / (inMax - inMin))
    (Math_min outMin outMax)
    (Math_max outMin outMax).

(** Convert RGB to HSL colour space. *)
Definition rgbToHSL (rgb : RGBA.t) : HSLA.t :=
  let '(RGBA.mk r255 g255 b255 a) := rgb in
  let r := r255 / 255 in
  let g := g255 / 255 in
  let b := b255 / 255 in
  let max := Math_max3 r g b in
  let min := Math_min3 r g b in
  let c := max - min in
  let l := (max + min) / 2 in
  if c =? 0 then HSLA.mk 0 0 l a
  else
    let h :=
      if max =? r then rem ((g - b) / c) 6
      else if max =? g then (b - r) / c + 2
      else (r - g) / c + 4 in
    let h := h * 60 in
    let h := if h <? 0 then h + 360 else h in
    let s := c / (1 - Math_abs (2 * l - 1)) in
    HSLA.mk h s l a.

(** Convert HSL to RGB colour space. *)
Definition hslToRGB (hsl : HSLA.t) : RGBA.t :=
  let '(HSLA.mk h s l a) := hsl in
  if s =? 0 then
    let gray := Math_round (l * 255) in
    RGBA.mk gray gray gray a
  else
    let c := (1 - Math_abs (2 * l - 1)) * s in
    let x := c * (1 - Math_abs (rem (h / 60) 2 - 1)) in
    let m := l - c / 2 in
    let '(r, g, b) :=
      if h <? 60 then (c, x, 0)
      else if h <? 120 then (x, c, 0)
      else if h <? 180 then (0, c, x)
      else if h <? 240 then (0, x, c)
      else if h <? 300 then (x, 0, c)
      else (c, 0, x) in
    let f := fun n => Math_round ((n + m) * 255) in
    RGBA.mk (f r) (f g) (f b) a.

(** Parse hex colour string to RGBA. *)
Definition parseHex (hex : string) : option RGBA.t :=
  let h := if startsWith hex "#" then String.substring 1 (String.length hex - 1) hex else hex in
  let len := String.length h in
  if (len =? 3)%nat || (len =? 4)%nat then
    let f := fun i => parseInt16 (char_at h i +:+ char_at h i) in
    let a := if (len =? 3)%nat then 1 else f 3%nat / 255 in
    Some (RGBA.mk (f 0%nat) (f 1%nat) (f 2%nat) a)
  else if (len =? 6)%nat || (len =? 8)%nat then
    let f := fun i => parseInt16 (substring h i (i + 2)) in
    let a := if (len =? 6)%nat then 1 else parseInt16 (substring h 6 8) / 255 in
    Some (RGBA.mk (f 0%nat) (f 2%nat) (f 4%nat) a)
  else None.

(** [parts[i]] read where a string is expected: a missing part is
    [undefined], which [parseFloat] turns into NaN. *)
Definition part (parts : list string) (i : nat) : string :=
  List.nth i parts "undefined".

(** Parse rgb/rgba colour string to RGBA. *)
Definition parseRGB (rgb : string) : option RGBA.t :=
  match match_call "rgb" rgb with
  | None => None
  | Some group =>
      let parts := List.map trim (split_separators group) in
      if (List.length parts <? 3)%nat then None
      else
        let f := fun p => if endsWith p "%" then (parseFloat p / 100) * 255 else parseFloat p in
        let r := f (part parts 0) in
        let g := f (part parts 1) in
        let b := f (part parts 2) in
        let a := if (4 <=? List.length parts)%nat then parseFloat (part parts 3) else 1 in
        if isNaN r || isNaN g || isNaN b || isNaN a then None
        else Some (RGBA.mk r g b a)
  end.

(** Parse hsl/hsla colour string to RGBA. *)
Definition parseHSL (hsl : string) : option RGBA.t :=
  match match_call "hsl" hsl with
  | None => None
  | Some group =>
      let parts := List.map trim (split_separators group) in
      if (List.length parts <? 3)%nat then None
      else
        let p0 := part parts 0 in
        let p1 := part parts 1 in
        let p2 := part parts 2 in
        let h :=
          if includes p0 "deg" then parseFloat p0
          else if includes p0 "rad" then (parseFloat p0 * 180) / Math_PI
          else if includes p0 "turn" then parseFloat p0 * 360
          else parseFloat p0 in
        let s := parseFloat p1 / (if includes p1 "%" then 100 else 1) in
        let l := parseFloat p2 / (if includes p2 "%" then 100 else 1) in
        let a := if (4 <=? List.length parts)%nat then parseFloat (part parts 3) else 1 in
        if isNaN h || isNaN s || isNaN l || isNaN a then None
        else Some (hslToRGB (HSLA.mk h s l a))
  end.

(** Known CSS colour names. *)
Definition knownColors : list (string * Z) :=
  [
    ("aliceblue", 0xf0f8ff%Z); ("antiquewhite", 0xfaebd7%Z); ("aqua", 0x00ffff%Z);
    ("aquamarine", 0x7fffd4%Z); ("azure", 0xf0ffff%Z); ("beige", 0xf5f5dc%Z);
    ("bisque", 0xffe4c4%Z); ("black", 0x000000%Z); ("blanchedalmond", 0xffebcd%Z);
    ("blue", 0x0000ff%Z); ("blueviolet", 0x8a2be2%Z); ("brown", 0xa52a2a%Z);
    ("burlywood", 0xdeb887%Z); ("cadetblue", 0x5f9ea0%Z); ("chartreuse", 0x7fff00%Z);
    ("chocolate", 0xd2691e%Z); ("coral", 0xff7f50%Z); ("cornflowerblue", 0x6495ed%Z);
    ("cornsilk", 0xfff8dc%Z); ("crimson", 0xdc143c%Z); ("cyan", 0x00ffff%Z);
    ("darkblue", 0x00008b%Z); ("darkcyan", 0x008b8b%Z); ("darkgoldenrod", 0xb8860b%Z);
    ("darkgray", 0xa9a9a9%Z); ("darkgrey", 0xa9a9a9%Z); ("darkgreen", 0x006400%Z);
    ("darkkhaki", 0xbdb76b%Z); ("darkmagenta", 0x8b008b%Z); ("darkolivegreen", 0x556b2f%Z);
    ("darkorange", 0xff8c00%Z); ("darkorchid", 0x9932cc%Z); ("darkred", 0x8b0000%Z);
    ("darksalmon", 0xe9967a%Z); ("darkseagreen", 0x8fbc8f%Z); ("darkslateblue", 0x483d8b%Z);
    ("darkslategray", 0x2f4f4f%Z); ("darkslategrey", 0x2f4f4f%Z); ("darkturquoise", 0x00ced1%Z);
    ("darkviolet", 0x9400d3%Z); ("deeppink", 0xff1493%Z); ("deepskyblue", 0x00bfff%Z);
    ("dimgray", 0x696969%Z); ("dimgrey", 0x696969%Z); ("dodgerblue", 0x1e90ff%Z);
    ("firebrick", 0xb22222%Z); ("floralwhite", 0xfffaf0%Z); ("forestgreen", 0x228b22%Z);
    ("fuchsia", 0xff00ff%Z); ("gainsboro", 0xdcdcdc%Z); ("ghostwhite", 0xf8f8ff%Z);
    ("gold", 0xffd700%Z); ("goldenrod", 0xdaa520%Z); ("gray", 0x808080%Z);
    ("grey", 0x808080%Z); ("green", 0x008000%Z); ("greenyellow", 0xadff2f%Z);
    ("honeydew", 0xf0fff0%Z); ("hotpink", 0xff69b4%Z); ("indianred", 0xcd5c5c%Z);
    ("indigo", 0x4b0082%Z); ("ivory", 0xfffff0%Z); ("khaki", 0xf0e68c%Z);
    ("lavender", 0xe6e6fa%Z); ("lavenderblush", 0xfff0f5%Z); ("lawngreen", 0x7cfc00%Z);
    ("lemonchiffon", 0xfffacd%Z); ("lightblue", 0xadd8e6%Z); ("lightcoral", 0xf08080%Z);
    ("lightcyan", 0xe0ffff%Z); ("lightgoldenrodyellow", 0xfafad2%Z); ("lightgray", 0xd3d3d3%Z);
    ("lightgrey", 0xd3d3d3%Z); ("lightgreen", 0x90ee90%Z); ("lightpink", 0xffb6c1%Z);
    ("lightsalmon", 0xffa07a%Z); ("lightseagreen", 0x20b2aa%Z); ("lightskyblue", 0x87cefa%Z);
    ("lightslategray", 0x778899%Z); ("lightslategrey", 0x778899%Z); ("lightsteelblue", 0xb0c4de%Z);
    ("lightyellow", 0xffffe0%Z); ("lime", 0x00ff00%Z); ("limegreen", 0x32cd32%Z);
    ("linen", 0xfaf0e6%Z); ("magenta", 0xff00ff%Z); ("maroon", 0x800000%Z);
    ("mediumaquamarine", 0x66cdaa%Z); ("mediumblue", 0x0000cd%Z); ("mediumorchid", 0xba55d3%Z);
    ("mediumpurple", 0x9370db%Z); ("mediumseagreen", 0x3cb371%Z); ("mediumslateblue", 0x7b68ee%Z);
    ("mediumspringgreen", 0x00fa9a%Z); ("mediumturquoise", 0x48d1cc%Z); ("mediumvioletred", 0xc71585%Z);
    ("midnightblue", 0x191970%Z); ("mintcream", 0xf5fffa%Z); ("mistyrose", 0xffe4e1%Z);
    ("moccasin", 0xffe4b5%Z); ("navajowhite", 0xffdead%Z); ("navy", 0x000080%Z);
    ("oldlace", 0xfdf5e6%Z); ("olive", 0x808000%Z); ("olivedrab", 0x6b8e23%Z);
    ("orange", 0xffa500%Z); ("orangered", 0xff4500%Z); ("orchid", 0xda70d6%Z);
    ("palegoldenrod", 0xeee8aa%Z); ("palegreen", 0x98fb98%Z); ("paleturquoise", 0xafeeee%Z);
    ("palevioletred", 0xdb7093%Z); ("papayawhip", 0xffefd5%Z); ("peachpuff", 0xffdab9%Z);
    ("peru", 0xcd853f%Z); ("pink", 0xffc0cb%Z); ("plum", 0xdda0dd%Z);
    ("powderblue", 0xb0e0e6%Z); ("purple", 0x800080%Z); ("rebeccapurple", 0x663399%Z);
    ("red", 0xff0000%Z); ("rosybrown", 0xbc8f8f%Z); ("royalblue", 0x4169e1%Z);
    ("saddlebrown", 0x8b4513%Z); ("salmon", 0xfa8072%Z); ("sandybrown", 0xf4a460%Z);
    ("seagreen", 0x2e8b57%Z); ("seashell", 0xfff5ee%Z); ("sienna", 0xa0522d%Z);
    ("silver", 0xc0c0c0%Z); ("skyblue", 0x87ceeb%Z); ("slateblue", 0x6a5acd%Z);
    ("slategray", 0x708090%Z); ("slategrey", 0x708090%Z); ("snow", 0xfffafa%Z);
    ("springgreen", 0x00ff7f%Z); ("steelblue", 0x4682b4%Z); ("tan", 0xd2b48c%Z);
    ("teal", 0x008080%Z); ("thistle", 0xd8bfd8%Z); ("tomato", 0xff6347%Z);
    ("turquoise", 0x40e0d0%Z); ("violet", 0xee82ee%Z); ("wheat", 0xf5deb3%Z);
    ("white", 0xffffff%Z); ("whitesmoke", 0xf5f5f5%Z); ("yellow", 0xffff00%Z);
    ("yellowgreen", 0x9acd32%Z)
  ].

(** What the property read [knownColors[name]] finds: a number of the
    table, or, the table being a plain object, a member inherited from
    [Object.prototype]; of those only [constructor] and [__proto__] are
    spelled in lower case.  A missing property is [undefined]. *)
Inductive property := Own (n : Z) | Inherited.

Fixpoint assoc (name : string) (table : list (string * Z)) : option Z :=
  match table with
  | nil => None
  | (k, v) :: rest => if String.eqb k name then Some v else assoc name rest
  end.

Definition knownColors_get (name : string) : option property :=
  match assoc name knownColors with
  | Some n => Some (Own n)
  | None =>
      if String.eqb name "constructor" || String.eqb name "__proto__" then Some Inherited
      else None
  end.

(** An inherited member is a function or an object, which the bit
    operators read as NaN. *)
Definition property_number (p : property) : number :=
  match p with
  | Own n => number_of_Z n
  | Inherited => nan
  end.

(** Parse named colour to RGBA. *)
Definition parseNamedColor (name : string) : option RGBA.t :=
  match knownColors_get (toLowerCase name) with
  | None => None
  | Some p =>
      let n := property_number p in
      Some (RGBA.mk (band (shr n 16) 255) (band (shr n 8) 255) (band (shr n 0) 255) 1)
  end.

Definition is_keyword (normalized : string) : bool :=
  String.eqb normalized "inherit" ||
  String.eqb normalized "transparent" ||
  String.eqb normalized "initial" ||
  String.eqb normalized "currentcolor" ||
  String.eqb normalized "none" ||
  String.eqb normalized "unset" ||
  String.eqb normalized "auto".

(** The body of [parseColor] below the cache look-up, on the normalized
    string. *)
Definition parseColor_normalized (normalized : string) : option RGBA.t :=
  if is_keyword normalized then None
  else if String.eqb normalized "transparent" then Some (RGBA.mk 0 0 0 0)
  else if startsWith normalized "#" then parseHex normalized
  else if startsWith normalized "rgb" then parseRGB normalized
  else if startsWith normalized "hsl" then parseHSL normalized
  else parseNamedColor normalized.

(** Parse any colour format to RGBA with caching; the state is
    [rgbaParseCache]. *)
Definition parseColor (color : string) (rgbaParseCache : gmap string RGBA.t)
  : option RGBA.t * gmap string RGBA.t :=
  let normalized := toLowerCase (trim color) in
  match rgbaParseCache !! normalized with
  | Some cached => (Some cached, rgbaParseCache)
  | None =>
      match parseColor_normalized normalized with
      | Some result => (Some result, <[normalized := result]> rgbaParseCache)
      | None => (None, rgbaParseCache)
      end
  end.

(** Convert RGBA to hex string. *)
Definition toHex (n : number) : string :=
  let hex := toString16 (Math_round n) in
  if (String.length hex =? 1)%nat then "0" +:+ hex else hex.

Definition rgbToHex (rgb : RGBA.t) : string :=
  let '(RGBA.mk r g b a) := rgb in
  if a <? 1 then "#" +:+ toHex r +:+ toHex g +:+ toHex b +:+ toHex (a * 255)
  else "#" +:+ toHex r +:+ toHex g +:+ toHex b.


End ColorUtils.

(** ** Theme profiles (types/theme.ts) *)

Inductive ThemeId :=
  | light | dark | high_contrast | night_warm
  | colorblind_protanopia | colorblind_deuteranopia | colorblind_tritanopia
  | reduced_motion.

(** The string a [ThemeId] is at run time. *)
Definition ThemeId_string (id : ThemeId) : string :=
  match id with
  | light => "light"
  | dark => "dark"
  | high_contrast => "high-contrast"
  | night_warm => "night-warm"
  | colorblind_protanopia => "colorblind-protanopia"
  | colorblind_deuteranopia => "colorblind-deuteranopia"
  | colorblind_tritanopia => "colorblind-tritanopia"
  | reduced_motion => "reduced-motion"
  end.

Record ThemeFilters := {
  brightness : option JS.number;
  contrast : option JS.number;
  hueRotate : option JS.number;
  saturate : option JS.number;
  sepia : option JS.number;
  grayscale : option JS.number;
  invert : option JS.number
}.

Record ThemePalette := {
  background : string;
  text : string;
  surface : string;
  accent : string
}.

Record ThemeProfile := {
  id : ThemeId;
  label : string;
  description : string;
  palette : ThemePalette;
  filters : option ThemeFilters;
  reducedMotion : option bool;
  minimumContrast : option JS.number
}.

(** [theme.filters?.f]: the field [f] of the filters, [undefined] when the
    theme has no filters. *)
Definition filter_of (theme : ThemeProfile) (f : ThemeFilters -> option JS.number) : option JS.number :=
  match filters theme with
  | Some fs => f fs
  | None => None
  end.

(** A number in a condition: zero and NaN are false; [undefined] is false
    too. *)
Definition truthy_number (v : JS.number) : bool :=
  negb (PrimFloat.eqb v 0) && negb (JS.isNaN v).

Definition truthy (x : option JS.number) : bool :=
  match x with
  | Some v => truthy_number v
  | None => false
  end.

(** A number or [undefined] in a template literal. *)
Definition show_optional (x : option JS.number) : string :=
  match x with
  | Some v => JS.Number_toString v
  | None => "undefined"
  end.

(** ** Colour matrix filter engine (colorMatrix.ts) *)

Inductive MatrixType := gamma_t | contrast_t | brightness_t | combined_t.

Record ColorMatrix := {
  values : list JS.number;
  type : MatrixType;
  matrix_description : string
}.

Section ColorMatrixEngine.
Local Open Scope bool_scope.
Local Open Scope float_scope.
Import JS.

(** [m[i]] in arithmetic: a missing element is [undefined], hence NaN. *)
Definition at_ (m : list number) (i : nat) : number := List.nth i m nan.

(** Identity matrix (no transformation). *)
Definition IDENTITY_MATRIX : ColorMatrix :=
  {| values := [1; 0; 0; 0; 1; 0; 0; 0; 1];
     type := combined_t;
     matrix_description := "Identity (no transformation)" |}.

(** Apply colour matrix transformation to RGB channels. *)
Definition applyColorMatrix (rgb : RGBA.t) (matrix : ColorMatrix) : RGBA.t :=
  let '(RGBA.mk r255 g255 b255 a) := rgb in
  let r := r255 / 255 in
  let g := g255 / 255 in
  let b := b255 / 255 in
  let m := values matrix in
  let rNew := at_ m 0 * r + at_ m 1 * g + at_ m 2 * b in
  let gNew := at_ m 3 * r + at_ m 4 * g + at_ m 5 * b in
  let bNew := at_ m 6 * r + at_ m 7 * g + at_ m 8 * b in
  let clamp := fun v => Math_max 0 (Math_min 1 v) in
  RGBA.mk (Math_round (clamp rNew * 255))
          (Math_round (clamp gNew * 255))
          (Math_round (clamp bNew * 255))
          a.

(** Create a gamma correction matrix. *)
Definition createGammaMatrix (gamma : number) : ColorMatrix :=
  let exponent := 1 / gamma in
  let v := Math_pow 2 (exponent - 1) in
  {| values := [v; 0; 0; 0; v; 0; 0; 0; v];
     type := gamma_t;
     matrix_description := "Gamma " +:+ toFixed gamma 2 +:+ " correction" |}.

(** Create contrast adjustment matrix. *)
Definition createContrastMatrix (contrast : number) : ColorMatrix :=
  if contrast =? 1 then IDENTITY_MATRIX
  else
    {| values := [contrast; 0; 0; 0; contrast; 0; 0; 0; contrast];
       type := contrast_t;
       matrix_description := "Contrast " +:+ toFixed (contrast * 100) 0 +:+ "%" |}.

(** Create brightness adjustment matrix. *)
Definition createBrightnessMatrix (brightness : number) : ColorMatrix :=
  if brightness =? 1 then IDENTITY_MATRIX
  else
    {| values := [brightness; 0; 0; 0; brightness; 0; 0; 0; brightness];
       type := brightness_t;
       matrix_description := "Brightness " +:+ toFixed (brightness * 100) 0 +:+ "%" |}.

(** Compose two colour matrices together: the 3x3 product. *)
Definition composeMatrices (matrixA matrixB : ColorMatrix) : ColorMatrix :=
  let a := values matrixA in
  let b := values matrixB in
  let cell := fun i j : nat =>
    at_ a (i * 3 + 0) * at_ b (0 * 3 + j) +
    at_ a (i * 3 + 1) * at_ b (1 * 3 + j) +
    at_ a (i * 3 + 2) * at_ b (2 * 3 + j) in
  {| values := [cell 0 0; cell 0 1; cell 0 2;
                cell 1 0; cell 1 1; cell 1 2;
                cell 2 0; cell 2 1; cell 2 2]%nat;
     type := combined_t;
     matrix_description := matrix_description matrixA +:+ " + " +:+ matrix_description matrixB |}.

(** Create filter matrix for a theme. *)
Definition createFilterMatrix (theme : ThemeProfile) (isDarkMode : bool) : ColorMatrix :=
  let matrix := IDENTITY_MATRIX in
  let matrix :=
    match filter_of theme brightness with
    | Some v =>
        if truthy_number v && negb (v =? 1)
        then composeMatrices matrix (createBrightnessMatrix v) else matrix
    | None => matrix
    end in
  let matrix :=
    match filter_of theme contrast with
    | Some v =>
        if truthy_number v && negb (v =? 1)
        then composeMatrices matrix (createContrastMatrix v) else matrix
    | None => matrix
    end in
  if isDarkMode then composeMatrices matrix (createGammaMatrix 2.0)
  else composeMatrices matrix (createGammaMatrix 2.2).

Definition show_bool (b : bool) : string := if b then "true" else "false".

Definition matrixKey (theme : ThemeProfile) (isDarkMode : bool) : string :=
  ThemeId_string (id theme) +:+ "-" +:+ show_bool isDarkMode.

(** Get or create cached filter matrix; the state is [matrixCache]. *)
Definition getCachedFilterMatrix (theme : ThemeProfile) (isDarkMode : bool)
    (matrixCache : gmap string ColorMatrix) : ColorMatrix * gmap string ColorMatrix :=
  let key := matrixKey theme isDarkMode in
  match matrixCache !! key with
  | Some cached => (cached, matrixCache)
  | None =>
      let matrix := createFilterMatrix theme isDarkMode in
      (matrix, <[key := matrix]> matrixCache)
  end.

End ColorMatrixEngine.

(** ** Palette registration (palette.ts) *)

Inductive ColorType := background_t | text_t | border_t.

Definition ColorType_code (t : ColorType) : nat :=
  match t with background_t => 0 | text_t => 1 | border_t => 2 end.

Definition ColorType_of_code (n : nat) : ColorType :=
  match n with 0 => background_t | 1 => text_t | _ => border_t end.

#[export] Instance ColorType_eq_dec : EqDecision ColorType.
Proof. solve_decision. Defined.

#[export] Instance ColorType_countable : Countable ColorType.
Proof.
  apply (inj_countable' ColorType_code ColorType_of_code).
  intros []; reflexivity.
Defined.

Section Palette.
Import JS.

(** Generate unique key from RGB values: ["r,g,b,a"]. *)
Definition getRGBKey (rgb : RGBA.t) : string :=
  Number_toString (RGBA.r rgb) +:+ "," +:+ Number_toString (RGBA.g rgb) +:+ "," +:+
  Number_toString (RGBA.b rgb) +:+ "," +:+ Number_toString (RGBA.a rgb).

(** Check if a colour has already been transformed and registered. *)
Definition getRegisteredColor (type : ColorType) (rgb : RGBA.t)
    (colorPalettes : gmap ColorType (gmap string string)) : option string :=
  match colorPalettes !! type with
  | None => None
  | Some palette => palette !! getRGBKey rgb
  end.

(** Register a transformed colour in the palette. *)
Definition registerColor (type : ColorType) (rgb : RGBA.t) (value : string)
    (colorPalettes : gmap ColorType (gmap string string)) : gmap ColorType (gmap string string) :=
  let palette := default ∅ (colorPalettes !! type) in
  <[type := <[getRGBKey rgb := value]> palette]> colorPalettes.

(** Clear all registered colours (all types): every palette is emptied and
    stays in place. *)
Definition clearColorPalette (colorPalettes : gmap ColorType (gmap string string))
    : gmap ColorType (gmap string string) :=
  (fun _ => ∅) <$> colorPalettes.

(** Remove all palettes. *)
Definition disposePalette (colorPalettes : gmap ColorType (gmap string string))
    : gmap ColorType (gmap string string) := ∅.

End Palette.

(** ** Colour transformation engine (colorTransform.ts) *)

Inductive ThemeMode :=
  | mode_light | mode_dark | mode_high_contrast | mode_night_warm
  | mode_colorblind_protanopia | mode_colorblind_deuteranopia | mode_colorblind_tritanopia.

(** Colour poles extracted from theme palette. *)
Record ColorPoles := {
  pole_background : HSLA.t;
  pole_text : HSLA.t;
  pole_surface : HSLA.t
}.

(** The identity of a modifier function, the key of
    [colorModificationCache]: the four named functions, or the closure a
    border call allocates, numbered in order of allocation. *)
Inductive ModifierId :=
  | BackgroundDark | BackgroundLight | ForegroundDark | ForegroundLight
  | BorderClosure (n : nat).

#[export] Instance ModifierId_eq_dec : EqDecision ModifierId.
Proof. solve_decision. Defined.

Definition ModifierId_code (f : ModifierId) : nat + nat :=
  match f with
  | BackgroundDark => inl 0
  | BackgroundLight => inl 1
  | ForegroundDark => inl 2
  | ForegroundLight => inl 3
  | BorderClosure n => inr n
  end.

Definition ModifierId_of_code (c : nat + nat) : ModifierId :=
  match c with
  | inl 0 => BackgroundDark
  | inl 1 => BackgroundLight
  | inl 2 => ForegroundDark
  | inl _ => ForegroundLight
  | inr n => BorderClosure n
  end.

#[export] Instance ModifierId_countable : Countable ModifierId.
Proof.
  apply (inj_countable' ModifierId_code ModifierId_of_code).
  intros []; reflexivity.
Defined.

(** A modifier: its identity and what it computes. *)
Record HSLModifier := {
  fn_id : ModifierId;
  fn_body : HSLA.t -> ColorPoles -> ThemeProfile -> HSLA.t
}.

(** The module-level state of utils/color.ts, colorMatrix.ts,
    colorTransform.ts and palette.ts. *)
Record Caches := {
  rgbaParseCache : gmap string RGBA.t;
  matrixCache : gmap string ColorMatrix;
  colorModificationCache : gmap ModifierId (gmap string string);
  parseCache : gmap string (option RGBA.t);
  transformCache : gmap string string;
  colorPalettes : gmap ColorType (gmap string string);
  closures : nat
}.

Definition initial_caches : Caches :=
  {| rgbaParseCache := ∅; matrixCache := ∅; colorModificationCache := ∅;
     parseCache := ∅; transformCache := ∅; colorPalettes := ∅; closures := 0 |}.

Section ColorTransform.
Local Open Scope bool_scope.
Local Open Scope float_scope.
Import JS.

Definition MAX_BG_LIGHTNESS : number := 0.4.
Definition MIN_FG_LIGHTNESS : number := 0.55.

(** Detect theme mode from profile; an id the map lacks is [dark]. *)
Definition detectThemeMode (theme : ThemeProfile) : ThemeMode :=
  match id theme with
  | light => mode_light
  | dark => mode_dark
  | high_contrast => mode_high_contrast
  | night_warm => mode_night_warm
  | colorblind_protanopia => mode_colorblind_protanopia
  | colorblind_deuteranopia => mode_colorblind_deuteranopia
  | colorblind_tritanopia => mode_colorblind_tritanopia
  | reduced_motion => mode_dark
  end.

(** Get colour poles from theme palette; the state is [rgbaParseCache]. *)
Definition getColorPoles (theme : ThemeProfile) (cache : gmap string RGBA.t)
    : ColorPoles * gmap string RGBA.t :=
  let '(bgRgb, cache) := parseColor (background (palette theme)) cache in
  let '(textRgb, cache) := parseColor (text (palette theme)) cache in
  let '(surfaceRgb, cache) := parseColor (surface (palette theme)) cache in
  ({| pole_background := match bgRgb with Some c => rgbToHSL c | None => HSLA.mk 0 0 0.1 1 end;
      pole_text := match textRgb with Some c => rgbToHSL c | None => HSLA.mk 0 0 0.9 1 end;
      pole_surface := match surfaceRgb with Some c => rgbToHSL c | None => HSLA.mk 0 0 0.2 1 end |},
   cache).

(** Check if colour is neutral (grayscale-like). *)
Definition isNeutralColor (h s l : number) (isDarkColor : bool) : bool :=
  if isDarkColor then (l <? 0.2) || (s <? 0.12)
  else
    let isBlue := (200 <? h) && (h <? 280) in
    (s <? 0.24) || ((0.8 <? l) && isBlue).

(** Check if hue is in yellow/orange range. *)
Definition isYellowHue (h : number) : bool := (60 <? h) && (h <? 180).

(** Adjust yellow hues to prevent muddiness. *)
Definition adjustYellowHue (h l : number) : number * number :=
  let h :=
    if 120 <? h then scale h 120 180 135 180
    else if 60 <? h then scale h 60 120 60 105
    else h in
  let lNew := if (40 <? h) && (h <? 80) then l * 0.75 else l in
  (h, lNew).

(** Check if hue is in blue range. *)
Definition isBlueHue (h : number) (isBackground : bool) : bool :=
  if isBackground then (200 <? h) && (h <? 280)
  else (205 <? h) && (h <? 245).

(** Adjust blue hues to prevent oversaturation. *)
Definition adjustBlueHue (h : number) : number :=
  if (205 <? h) && (h <? 245) then scale h 205 245 205 220 else h.

(** Apply theme-level filters (hue rotation, saturation tweaks, grayscale,
    sepia). *)
Definition applyThemeFilters (hsl : HSLA.t) (filters : option ThemeFilters) : HSLA.t :=
  match filters with
  | None => hsl
  | Some filters =>
      let '(HSLA.mk h s l a) := hsl in
      let h :=
        match hueRotate filters with
        | Some rot =>
            if negb (rot =? 0) then
              let h := rem (h + rot) 360 in
              if h <? 0 then h + 360 else h
            else h
        | None => h
        end in
      let s :=
        match saturate filters with
        | Some sat => if negb (sat =? 1) then clamp (s * sat) 0 1 else s
        | None => s
        end in
      let s :=
        match grayscale filters with
        | Some gs => if truthy_number gs && (0 <? gs) then s * (1 - gs) else s
        | None => s
        end in
      match sepia filters with
      | Some sp =>
          if truthy_number sp && (0 <? sp) then
            let sepiaH := 38 in
            let sepiaS := 0.5 in
            HSLA.mk (h + (sepiaH - h) * sp) (s + (sepiaS - s) * sp) l a
          else HSLA.mk h s l a
      | None => HSLA.mk h s l a
      end
  end.

(** Transform background colour for dark mode. *)
Definition transformBackgroundDarkMode (hsl : HSLA.t) (poles : ColorPoles) (theme : ThemeProfile) : HSLA.t :=
  let '(HSLA.mk h s l a) := hsl in
  let maxBgLightness :=
    match filter_of theme brightness with
    | Some v => if truthy_number v then Math_min MAX_BG_LIGHTNESS (v * 0.4) else MAX_BG_LIGHTNESS
    | None => MAX_BG_LIGHTNESS
    end in
  let isDark := l <? 0.5 in
  let isNeutral := isNeutralColor h s l isDark in
  if isDark then
    let l := scale l 0 0.5 0 maxBgLightness in
    if isNeutral then HSLA.mk (HSLA.h (pole_background poles)) (HSLA.s (pole_background poles)) l a
    else if isBlueHue h true then HSLA.mk (adjustBlueHue h) s l a
    else HSLA.mk h s l a
  else
    let l := scale l 0.5 1 maxBgLightness (HSLA.l (pole_background poles)) in
    if isNeutral then HSLA.mk (HSLA.h (pole_background poles)) (HSLA.s (pole_background poles)) l a
    else if isYellowHue h then
      let '(h, l) := adjustYellowHue h l in HSLA.mk h s l a
    else if isBlueHue h true then HSLA.mk (adjustBlueHue h) s l a
    else HSLA.mk h s l a.

(** Transform background colour for light mode. *)
Definition transformBackgroundLightMode (hsl : HSLA.t) (poles : ColorPoles) (theme : ThemeProfile) : HSLA.t :=
  let '(HSLA.mk h s l a) := hsl in
  let isDark := l <? 0.5 in
  let isNeutral := isNeutralColor h s l isDark in
  if isDark then
    let l := scale l 0 0.5 (HSLA.l (pole_text poles)) 0.3 in
    if isNeutral then HSLA.mk (HSLA.h (pole_text poles)) (HSLA.s (pole_text poles)) l a
    else HSLA.mk h s l a
  else
    let l := scale l 0.5 1 0.5 (HSLA.l (pole_background poles)) in
    if isNeutral then HSLA.mk (HSLA.h (pole_background poles)) (HSLA.s (pole_background poles)) l a
    else HSLA.mk h s l a.

(** Transform foreground (text) colour for dark mode. *)
Definition transformForegroundDarkMode (hsl : HSLA.t) (poles : ColorPoles) (theme : ThemeProfile) : HSLA.t :=
  let '(HSLA.mk h s l a) := hsl in
  let minFgLightness :=
    match minimumContrast theme with
    | Some v => if truthy_number v then Math_max MIN_FG_LIGHTNESS (v / 10) else MIN_FG_LIGHTNESS
    | None => MIN_FG_LIGHTNESS
    end in
  let isLight := 0.5 <? l in
  let isNeutral := isNeutralColor h s l (negb isLight) in
  if isLight then
    let l := scale l 0.5 1 minFgLightness (HSLA.l (pole_text poles)) in
    if isNeutral then HSLA.mk (HSLA.h (pole_text poles)) (HSLA.s (pole_text poles)) l a
    else if isBlueHue h false then HSLA.mk (adjustBlueHue h) s l a
    else HSLA.mk h s l a
  else
    let l := scale l 0 0.5 (HSLA.l (pole_text poles)) minFgLightness in
    if isNeutral then HSLA.mk (HSLA.h (pole_text poles)) (HSLA.s (pole_text poles)) l a
    else if isBlueHue h false then HSLA.mk (adjustBlueHue h) s (Math_min 1 (l + 0.05)) a
    else HSLA.mk h s l a.

(** Transform foreground (text) colour for light mode. *)
Definition transformForegroundLightMode (hsl : HSLA.t) (poles : ColorPoles) (theme : ThemeProfile) : HSLA.t :=
  let '(HSLA.mk h s l a) := hsl in
  let isLight := 0.5 <? l in
  let isNeutral := isNeutralColor h s l (negb isLight) in
  if isLight then
    let l := scale l 0.5 1 0.4 (HSLA.l (pole_text poles)) in
    if isNeutral then HSLA.mk (HSLA.h (pole_text poles)) (HSLA.s (pole_text poles)) l a
    else HSLA.mk h s l a
  else
    let l := scale l 0 0.5 0.2 (HSLA.l (pole_text poles)) in
    if isNeutral then HSLA.mk (HSLA.h (pole_text poles)) (HSLA.s (pole_text poles)) l a
    else HSLA.mk h s l a.

(** Transform border colour. *)
Definition transformBorderColor (hsl : HSLA.t) (poles : ColorPoles) (isDarkMode : bool) : HSLA.t :=
  let '(HSLA.mk h s l a) := hsl in
  let isDark := l <? 0.5 in
  let isNeutral := isNeutralColor h s l isDark in
  let '(h, s) :=
    if isNeutral then
      if isDarkMode then (HSLA.h (pole_text poles), HSLA.s (pole_text poles))
      else (HSLA.h (pole_background poles), HSLA.s (pole_background poles))
    else (h, s) in
  let l := scale l 0 1 (if isDarkMode then 0.2 else 0.4) (if isDarkMode then 0.5 else 0.7) in
  HSLA.mk h s l a.

(** Helper: generate cache id from RGB and theme. *)
Definition getCacheId (rgb : RGBA.t) (theme : ThemeProfile) : string :=
  Number_toString (RGBA.r rgb) +:+ "," +:+ Number_toString (RGBA.g rgb) +:+ "," +:+
  Number_toString (RGBA.b rgb) +:+ "," +:+ Number_toString (RGBA.a rgb) +:+ "," +:+
  ThemeId_string (id theme) +:+ "," +:+
  show_optional (filter_of theme brightness) +:+ "," +:+
  show_optional (filter_of theme contrast).

(** The work of [modifyColorWithCache] on a cache miss, given the poles and
    the matrix it fetched. *)
Definition modifyColor (rgb : RGBA.t) (theme : ThemeProfile)
    (body : HSLA.t -> ColorPoles -> ThemeProfile -> HSLA.t)
    (poles : ColorPoles) (matrix : ColorMatrix) : string :=
  let hsl := rgbToHSL rgb in
  let modifiedHSL := applyThemeFilters (body hsl poles theme) (filters theme) in
  let modifiedRGB := hslToRGB modifiedHSL in
  let filteredRGB := applyColorMatrix modifiedRGB matrix in
  rgbToHex filteredRGB.

(** Provides function-scoped caching.  The matrix is always requested with
    [isDarkMode = false]. *)
Definition modifyColorWithCache (rgb : RGBA.t) (theme : ThemeProfile) (modifier : HSLModifier)
    (st : Caches) : string * Caches :=
  let fnCache := default ∅ (colorModificationCache st !! fn_id modifier) in
  let cacheId := getCacheId rgb theme in
  match fnCache !! cacheId with
  | Some cached =>
      (cached,
       {| rgbaParseCache := rgbaParseCache st;
          matrixCache := matrixCache st;
          colorModificationCache := <[fn_id modifier := fnCache]> (colorModificationCache st);
          parseCache := parseCache st;
          transformCache := transformCache st;
          colorPalettes := colorPalettes st;
          closures := closures st |})
  | None =>
      let '(poles, rgbaCache) := getColorPoles theme (rgbaParseCache st) in
      let '(matrix, mCache) := getCachedFilterMatrix theme false (matrixCache st) in
      let result := modifyColor rgb theme (fn_body modifier) poles matrix in
      (result,
       {| rgbaParseCache := rgbaCache;
          matrixCache := mCache;
          colorModificationCache :=
            <[fn_id modifier := <[cacheId := result]> fnCache]> (colorModificationCache st);
          parseCache := parseCache st;
          transformCache := transformCache st;
          colorPalettes := colorPalettes st;
          closures := closures st |})
  end.

Definition isDarkModeOf (mode : ThemeMode) : bool :=
  match mode with
  | mode_dark | mode_night_warm => true
  | _ => false
  end.

(** The modifier [transformColor] selects; a border call allocates a new
    closure. *)
Definition selectModifier (colorType : ColorType) (isDarkMode : bool) (fresh : nat) : HSLModifier :=
  match colorType with
  | background_t =>
      if isDarkMode then {| fn_id := BackgroundDark; fn_body := transformBackgroundDarkMode |}
      else {| fn_id := BackgroundLight; fn_body := transformBackgroundLightMode |}
  | text_t =>
      if isDarkMode then {| fn_id := ForegroundDark; fn_body := transformForegroundDarkMode |}
      else {| fn_id := ForegroundLight; fn_body := transformForegroundLightMode |}
  | border_t =>
      {| fn_id := BorderClosure fresh;
         fn_body := fun hsl poles _ => transformBorderColor hsl poles isDarkMode |}
  end.

Definition allocates (colorType : ColorType) : nat :=
  match colorType with border_t => 1%nat | _ => 0%nat end.

(** Main colour transformation with palette registration.  [mode] and
    [shouldRegister] are the two optional fields of the [options]
    argument.  A registered value is used when it is a non-empty string. *)
Definition transformColor (rgb : RGBA.t) (colorType : ColorType) (theme : ThemeProfile)
    (mode : option ThemeMode) (shouldRegister : option bool) (st : Caches) : string * Caches :=
  let shouldRegister := default true shouldRegister in
  let registered :=
    if shouldRegister then
      match getRegisteredColor colorType rgb (colorPalettes st) with
      | Some value => if String.eqb value "" then None else Some value
      | None => None
      end
    else None in
  match registered with
  | Some value => (value, st)
  | None =>
      let mode := default (detectThemeMode theme) mode in
      let isDarkMode := isDarkModeOf mode in
      let modifier := selectModifier colorType isDarkMode (closures st) in
      let '(result, st) := modifyColorWithCache rgb theme modifier st in
      let palettes :=
        if shouldRegister then registerColor colorType rgb result (colorPalettes st)
        else colorPalettes st in
      (result,
       {| rgbaParseCache := rgbaParseCache st;
          matrixCache := matrixCache st;
          colorModificationCache := colorModificationCache st;
          parseCache := parseCache st;
          transformCache := transformCache st;
          colorPalettes := palettes;
          closures := (closures st + allocates colorType)%nat |})
  end.

(** Parse colour with caching ([parseCache], over [rgbaParseCache]). *)
Definition parseColorCached (value : string) (st : Caches) : option RGBA.t * Caches :=
  match parseCache st !! value with
  | Some cached => (cached, st)
  | None =>
      let '(rgb, rgbaCache) := parseColor value (rgbaParseCache st) in
      (rgb,
       {| rgbaParseCache := rgbaCache;
          matrixCache := matrixCache st;
          colorModificationCache := colorModificationCache st;
          parseCache := <[value := rgb]> (parseCache st);
          transformCache := transformCache st;
          colorPalettes := colorPalettes st;
          closures := closures st |})
  end.

(** Transform a CSS colour value (string): [None] when it cannot be
    parsed. *)
Definition transformCSSColor (value : string) (colorType : ColorType) (theme : ThemeProfile)
    (mode : option ThemeMode) (st : Caches) : option string * Caches :=
  let '(rgb, st) := parseColorCached value st in
  match rgb with
  | None => (None, st)
  | Some rgb =>
      let '(result, st) := transformColor rgb colorType theme mode None st in
      (Some result, st)
  end.

(** Clear all transformation and parse caches; [rgbaParseCache] of
    utils/color.ts is not among them. *)
Definition clearColorCache (st : Caches) : Caches :=
  {| rgbaParseCache := rgbaParseCache st;
     matrixCache := ∅;
     colorModificationCache := ∅;
     parseCache := ∅;
     transformCache := ∅;
     colorPalettes := clearColorPalette (colorPalettes st);
     closures := closures st |}.

End ColorTransform.

(** ** The theme catalogue (themeProfiles.ts) *)

Section ThemeProfiles.
Local Open Scope float_scope.

Definition no_filters : ThemeFilters :=
  {| brightness := None; contrast := None; hueRotate := None; saturate := None;
     sepia := None; grayscale := None; invert := None |}.

Definition lightProfile : ThemeProfile :=
  {| id := light; label := "Light";
     description := "Bright background with dark text for well-lit environments.";
     palette := {| background := "#dcdad7"; surface := "#f5f5f5"; text := "#181a1b"; accent := "#2563eb" |};
     filters := None; reducedMotion := None; minimumContrast := Some 4.5 |}.

Definition darkProfile : ThemeProfile :=
  {| id := dark; label := "Dark";
     description := "Dimmed background for low-light readability.";
     palette := {| background := "#181a1b"; surface := "#1c1e1f"; text := "#e8e6e3"; accent := "#60a5fa" |};
     filters := Some {| brightness := Some 1.0; contrast := Some 1.0; hueRotate := None;
                        saturate := None; sepia := None; grayscale := None; invert := None |};
     reducedMotion := None; minimumContrast := Some 4.5 |}.

Definition highContrastProfile : ThemeProfile :=
  {| id := high_contrast; label := "High Contrast";
     description := "Maximum contrast for accessibility and sharp edges.";
     palette := {| background := "#000000"; surface := "#000000"; text := "#ffffff"; accent := "#ffd60a" |};
     filters := Some {| brightness := Some 1; contrast := Some 1.1; hueRotate := None;
                        saturate := None; sepia := None; grayscale := None; invert := None |};
     reducedMotion := None; minimumContrast := Some 7 |}.

Definition nightWarmProfile : ThemeProfile :=
  {| id := night_warm; label := "Night Warm";
     description := "Low blue light mode to reduce eye strain.";
     palette := {| background := "#1b140f"; surface := "#251912"; text := "#f2e8de"; accent := "#d97757" |};
     filters := Some {| brightness := None; contrast := None; hueRotate := None;
                        saturate := None; sepia := Some 0.2; grayscale := None; invert := None |};
     reducedMotion := None; minimumContrast := Some 4.5 |}.

Definition colorblindProfile (i : ThemeId) (l d a : string) (sat : JS.number) : ThemeProfile :=
  {| id := i; label := l; description := d;
     palette := {| background := "#1a1f2e"; surface := "#1f2433"; text := "#e8e6e3"; accent := a |};
     filters := Some {| brightness := None; contrast := Some 1.05; hueRotate := None;
                        saturate := Some sat; sepia := None; grayscale := None; invert := None |};
     reducedMotion := None; minimumContrast := Some 4.5 |}.

Definition reducedMotionProfile : ThemeProfile :=
  {| id := reduced_motion; label := "Reduced Motion";
     description := "Disables motion-heavy effects while retaining neutral colors.";
     palette := {| background := "#0f172a"; surface := "#111827"; text := "#f8fafc"; accent := "#38bdf8" |};
     filters := None; reducedMotion := Some true; minimumContrast := Some 4.5 |}.

Definition themeProfiles : list ThemeProfile :=
  [ lightProfile; darkProfile; highContrastProfile; nightWarmProfile;
    colorblindProfile colorblind_protanopia "Protanopia"
      "Adjusted hues for red-blind accessibility." "#60a5fa" 1.1;
    colorblindProfile colorblind_deuteranopia "Deuteranopia"
      "Adjusted hues for green-blind accessibility." "#fbbf24" 1.1;
    colorblindProfile colorblind_tritanopia "Tritanopia"
      "Adjusted hues for blue-blind accessibility." "#ec4899" 1.0;
    reducedMotionProfile ].

End ThemeProfiles.

(** ** Colour registry (colorRegistry.ts) *)

(** Registered colour entry with transformation metadata. *)
Record RegisteredColor := {
  originalHex : string;
  originalRGB : RGBA.t;
  transformedHex : string;
  colorType : ColorType;
  themeId : string;
  timestamp : Z;
  usageCount : Z
}.

Record RegistryStats := {
  hits : Z;
  misses : Z;
  registrations : Z;
  evictions : Z
}.

(** A [Map] whose iteration order matters is a list of bindings in
    insertion order: [set] overwrites in place or appends. *)
Section OrderedMap.
Context {V : Type}.

Fixpoint omap_get (k : string) (m : list (string * V)) : option V :=
  match m with
  | nil => None
  | (k', v) :: rest => if String.eqb k' k then Some v else omap_get k rest
  end.

Definition omap_has (k : string) (m : list (string * V)) : bool :=
  match omap_get k m with Some _ => true | None => false end.

Fixpoint omap_set (k : string) (v : V) (m : list (string * V)) : list (string * V) :=
  match m with
  | nil => [(k, v)]
  | (k', v') :: rest =>
      if String.eqb k' k then (k', v) :: rest else (k', v') :: omap_set k v rest
  end.

Fixpoint omap_delete (k : string) (m : list (string * V)) : list (string * V) :=
  match m with
  | nil => nil
  | (k', v') :: rest =>
      if String.eqb k' k then rest else (k', v') :: omap_delete k rest
  end.

End OrderedMap.

Record ColorRegistry := {
  registry : list (string * RegisteredColor);
  themeRegistry : gmap string (gset string);
  maxSize : Z;
  stats : RegistryStats
}.

Section Registry.
Import JS.
Local Open Scope Z_scope.

Definition zero_stats : RegistryStats :=
  {| hits := 0; misses := 0; registrations := 0; evictions := 0 |}.

(** [new ColorRegistry(maxSize)] *)
Definition new_ColorRegistry (maxSize : Z) : ColorRegistry :=
  {| registry := nil; themeRegistry := ∅; maxSize := maxSize; stats := zero_stats |}.

(** Generate cache key from RGBA object. *)
Definition getKey (rgb : RGBA.t) : string :=
  Number_toString (RGBA.r rgb) +:+ "," +:+ Number_toString (RGBA.g rgb) +:+ "," +:+
  Number_toString (RGBA.b rgb) +:+ "," +:+ Number_toString (RGBA.a rgb).

(** The scan of [evictLRU]: the first entry, in insertion order, whose
    timestamp is below every earlier one and below [oldestTime]. *)
Fixpoint oldest (entries : list (string * RegisteredColor)) (oldestKey : option string)
    (oldestTime : Z) : option string :=
  match entries with
  | nil => oldestKey
  | (key, entry) :: rest =>
      if timestamp entry <? oldestTime then oldest rest (Some key) (timestamp entry)
      else oldest rest oldestKey oldestTime
  end.

(** Evict least-recently-used entry; [now] is the reading of
    [Date.now()]. *)
Definition evictLRU (now : Z) (reg : ColorRegistry) : ColorRegistry :=
  match oldest (registry reg) None now with
  | Some oldestKey =>
      if String.eqb oldestKey "" then reg
      else
        match omap_get oldestKey (registry reg) with
        | Some entry =>
            {| registry := omap_delete oldestKey (registry reg);
               themeRegistry :=
                 match themeRegistry reg !! themeId entry with
                 | Some keys => <[themeId entry := keys ∖ {[oldestKey]}]> (themeRegistry reg)
                 | None => themeRegistry reg
                 end;
               maxSize := maxSize reg;
               stats := {| hits := hits (stats reg); misses := misses (stats reg);
                           registrations := registrations (stats reg);
                           evictions := evictions (stats reg) + 1 |} |}
        | None => reg
        end
  | None => reg
  end.

(** Register a colour transformation. *)
Definition register (originalRGB : RGBA.t) (originalHex transformedHex : string)
    (colorType : ColorType) (themeId : string) (now : Z) (reg : ColorRegistry) : ColorRegistry :=
  let key := getKey originalRGB in
  let reg :=
    if (maxSize reg <=? Z.of_nat (List.length (registry reg))) && negb (omap_has key (registry reg))
    then evictLRU now reg else reg in
  let entry :=
    {| originalHex := originalHex;
       originalRGB := originalRGB;
       transformedHex := transformedHex;
       colorType := colorType;
       themeId := themeId;
       timestamp := now;
       usageCount := match omap_get key (registry reg) with
                     | Some old => usageCount old + 1
                     | None => 1
                     end |} in
  {| registry := omap_set key entry (registry reg);
     themeRegistry :=
       <[themeId := default ∅ (themeRegistry reg !! themeId) ∪ {[key]}]> (themeRegistry reg);
     maxSize := maxSize reg;
     stats := {| hits := hits (stats reg); misses := misses (stats reg);
                 registrations := registrations (stats reg) + 1;
                 evictions := evictions (stats reg) |} |}.

Definition count_miss (reg : ColorRegistry) : ColorRegistry :=
  {| registry := registry reg; themeRegistry := themeRegistry reg; maxSize := maxSize reg;
     stats := {| hits := hits (stats reg); misses := misses (stats reg) + 1;
                 registrations := registrations (stats reg);
                 evictions := evictions (stats reg) |} |}.

(** Look up a previously registered transformation. *)
Definition getTransformed (originalRGB0 : RGBA.t) (colorType0 : ColorType) (themeId0 : string)
    (now : Z) (reg : ColorRegistry) : option string * ColorRegistry :=
  let key := getKey originalRGB0 in
  match omap_get key (registry reg) with
  | None => (None, count_miss reg)
  | Some registered =>
      if negb (bool_decide (colorType registered = colorType0)) ||
         negb (String.eqb (themeId registered) themeId0)
      then (None, count_miss reg)
      else
        let touched :=
          {| originalHex := originalHex registered;
             originalRGB := originalRGB registered;
             transformedHex := transformedHex registered;
             colorType := colorType registered;
             themeId := themeId registered;
             timestamp := now;
             usageCount := usageCount registered + 1 |} in
        (Some (transformedHex registered),
         {| registry := omap_set key touched (registry reg);
            themeRegistry := themeRegistry reg;
            maxSize := maxSize reg;
            stats := {| hits := hits (stats reg) + 1; misses := misses (stats reg);
                        registrations := registrations (stats reg);
                        evictions := evictions (stats reg) |} |})
  end.

(** Clear all registrations for a specific theme: every key indexed
    under the theme is deleted from the registry. *)
Definition clearTheme (themeId0 : string) (reg : ColorRegistry) : ColorRegistry :=
  match themeRegistry reg !! themeId0 with
  | None => reg
  | Some keys =>
      {| registry := List.filter (fun kv => negb (bool_decide (kv.1 ∈ keys))) (registry reg);
         themeRegistry := delete themeId0 (themeRegistry reg);
         maxSize := maxSize reg;
         stats := stats reg |}
  end.

(** Clear all registrations and reset statistics. *)
Definition registry_clear (reg : ColorRegistry) : ColorRegistry :=
  {| registry := nil; themeRegistry := ∅; maxSize := maxSize reg; stats := zero_stats |}.

(** Get a registered colour entry with full metadata. *)
Definition getEntry (originalRGB : RGBA.t) (reg : ColorRegistry) : option RegisteredColor :=
  omap_get (getKey originalRGB) (registry reg).

(** Global colour registry instance. *)
Definition globalColorRegistry : ColorRegistry := new_ColorRegistry 1000.

End Registry.

(** ** Contrast repair (cssProcessor.ts) *)

Module RGB.
Record t := mk { r : JS.number; g : JS.number; b : JS.number }.
End RGB.

Section Contrast.
Local Open Scope bool_scope.
Local Open Scope float_scope.
Import JS.

Definition is_hex_digit (c : ascii) : bool :=
  match digit_value c with
  | Some d => (d <? 16)%Z
  | None => false
  end.

(** The processor's own [parseColor]: [/^#?([a-f\d]{2})([a-f\d]{2})([a-f\d]{2})$/i]
    on the trimmed text. *)
Definition css_parseColor (color : string) : option RGB.t :=
  let hex := trim color in
  let h := match hex with String "#" r => r | _ => hex end in
  if (String.length h =? 6)%nat && forallb is_hex_digit (list_ascii_of_string h) then
    Some (RGB.mk (parseInt16 (substring h 0 2)) (parseInt16 (substring h 2 4))
                 (parseInt16 (substring h 4 6)))
  else None.

Definition css_rgbToHex (rgb : RGB.t) : string :=
  "#" +:+ toHex (RGB.r rgb) +:+ toHex (RGB.g rgb) +:+ toHex (RGB.b rgb).

Definition linearize (val : number) : number :=
  let v := val / 255 in
  if v <=? 0.03928 then v / 12.92 else Math_pow ((v + 0.055) / 1.055) 2.4.

Definition getRelativeLuminance (rgb : RGB.t) : number :=
  let r := linearize (RGB.r rgb) in
  let g := linearize (RGB.g rgb) in
  let b := linearize (RGB.b rgb) in
  0.2126 * r + 0.7152 * g + 0.0722 * b.

Definition getContrastRatio (rgb1 rgb2 : RGB.t) : number :=
  let lum1 := getRelativeLuminance rgb1 in
  let lum2 := getRelativeLuminance rgb2 in
  let lighter := Math_max lum1 lum2 in
  let darker := Math_min lum1 lum2 in
  (lighter + 0.05) / (darker + 0.05).

(** One pass through the body of the repair loop, up to the test. *)
Definition adjustStep (shouldLighten : bool) (adjusted : RGB.t) : RGB.t :=
  if shouldLighten then
    RGB.mk (Math_min 255 (RGB.r adjusted + 15))
           (Math_min 255 (RGB.g adjusted + 15))
           (Math_min 255 (RGB.b adjusted + 15))
  else
    RGB.mk (Math_max 0 (RGB.r adjusted - 15))
           (Math_max 0 (RGB.g adjusted - 15))
           (Math_max 0 (RGB.b adjusted - 15)).

(** The [for] loop with [n] iterations left. *)
Fixpoint adjustLoop (n : nat) (shouldLighten : bool) (bgRgb : RGB.t) (targetRatio : number)
    (adjusted : RGB.t) : RGB.t :=
  match n with
  | O => adjusted
  | S n' =>
      let adjusted := adjustStep shouldLighten adjusted in
      let ratio := getContrastRatio adjusted bgRgb in
      if targetRatio <=? ratio then adjusted
      else adjustLoop n' shouldLighten bgRgb targetRatio adjusted
  end.

Definition adjustForContrast (textRgb bgRgb : RGB.t) (targetRatio : number) : RGB.t :=
  let ratio := getContrastRatio textRgb bgRgb in
  if targetRatio <=? ratio then textRgb
  else
    let bgLuminance := getRelativeLuminance bgRgb in
    let shouldLighten := bgLuminance <? 0.5 in
    adjustLoop 20 shouldLighten bgRgb targetRatio textRgb.

(** The colours the loop visits, in order: the value of [adjusted] after
    each executed iteration. *)
Fixpoint adjustTrace (n : nat) (shouldLighten : bool) (bgRgb : RGB.t) (targetRatio : number)
    (adjusted : RGB.t) : list RGB.t :=
  match n with
  | O => nil
  | S n' =>
      let adjusted := adjustStep shouldLighten adjusted in
      let ratio := getContrastRatio adjusted bgRgb in
      if targetRatio <=? ratio then [adjusted]
      else adjusted :: adjustTrace n' shouldLighten bgRgb targetRatio adjusted
  end.

End Contrast.

(** ** Dynamic theme engine (dynamicThemeEngine.ts) *)

(** *** Loop detection *)

(** A DOM node, by identity. *)
Abbreviation Node := positive.

(** The three [WeakMap]s of the loop guard. *)
Record LoopGuard := {
  elementsLastChanges : gmap Node Z;
  elementsLoopCycles : gmap Node Z;
  loopWarnedRecently : gmap Node Z
}.

Section LoopDetection.
Local Open Scope Z_scope.

Definition LOOP_DETECTION_THRESHOLD : Z := 500.
Definition MAX_LOOP_CYCLES : Z := 4.

Definition no_mutations : LoopGuard :=
  {| elementsLastChanges := ∅; elementsLoopCycles := ∅; loopWarnedRecently := ∅ |}.

(** Loop detection: whether the mutation of [element] at time [now]
    (milliseconds, [Date.now()]) is to be skipped, and the tables after
    the call. *)
Definition shouldSkipLoopElement (element : Node) (now : Z) (g : LoopGuard) : bool * LoopGuard :=
  match elementsLastChanges g !! element with
  | None =>
      (false,
       {| elementsLastChanges := <[element := now]> (elementsLastChanges g);
          elementsLoopCycles := elementsLoopCycles g;
          loopWarnedRecently := loopWarnedRecently g |})
  | Some lastChange =>
      if now - lastChange <? LOOP_DETECTION_THRESHOLD then
        let cycles := default 0 (elementsLoopCycles g !! element) in
        let loopCycles := <[element := cycles + 1]> (elementsLoopCycles g) in
        if MAX_LOOP_CYCLES <=? cycles then
          let lastWarn := default 0 (loopWarnedRecently g !! element) in
          (true,
           {| elementsLastChanges := elementsLastChanges g;
              elementsLoopCycles := loopCycles;
              loopWarnedRecently :=
                if 5000 <? now - lastWarn then <[element := now]> (loopWarnedRecently g)
                else loopWarnedRecently g |})
        else
          (false,
           {| elementsLastChanges := <[element := now]> (elementsLastChanges g);
              elementsLoopCycles := loopCycles;
              loopWarnedRecently := loopWarnedRecently g |})
      else
        (false,
         {| elementsLastChanges := <[element := now]> (elementsLastChanges g);
            elementsLoopCycles := <[element := 0]> (elementsLoopCycles g);
            loopWarnedRecently := loopWarnedRecently g |})
  end.

(** A node mutated at the given times, oldest first: the verdict of each
    mutation. *)
Fixpoint mutate (element : Node) (times : list Z) (g : LoopGuard) : list bool * LoopGuard :=
  match times with
  | nil => (nil, g)
  | now :: rest =>
      let '(skip, g) := shouldSkipLoopElement element now g in
      let '(skips, g) := mutate element rest g in
      (skip :: skips, g)
  end.

End LoopDetection.

(** *** The engine and the process-wide state it works on *)

Record World := {
  caches : Caches;
  colorRegistry : ColorRegistry
}.

Definition initial_world : World :=
  {| caches := initial_caches; colorRegistry := globalColorRegistry |}.

(** The fields of [DynamicThemeEngine] that are neither DOM handles nor
    counts of DOM nodes. *)
Record Engine := {
  theme : option ThemeProfile;
  isDestroyed : bool;
  observersStarted : bool;
  inlineObservationEnabled : bool
}.

Definition new_Engine : Engine :=
  {| theme := None; isDestroyed := false; observersStarted := false;
     inlineObservationEnabled := false |}.

(** The DOM is not part of the embedding.  What a page contributes to the
    colour state during [updateTheme] is the sequence of colour values its
    style sheets hand to [transformCSSColor] and the sequence of inline
    colour values [processInlineStyle] resolves, each with its role, in
    document order.  [processInlineStyle] reads each value with
    [style.getPropertyValue(prop)] and skips an empty answer; the names it
    asks for are [color] and the camel-case [backgroundColor],
    [borderColor], ..., and the CSSOM answers a camel-case name with the
    empty string, so in a browser the inline values that arrive are those
    of [color], with the role text. *)
Record Page := {
  sheetColors : list (string * ColorType);
  inlineColors : list (string * ColorType)
}.

Definition empty_page : Page := {| sheetColors := nil; inlineColors := nil |}.

Section DynamicThemeEngine.
Import JS.

(** Transform colour using registry look-up and fall-back. *)
Definition transformColorWithRegistry (colorValue : string) (colorType0 : ColorType)
    (theme0 : option ThemeProfile) (now : Z) (w : World) : option string * World :=
  match theme0 with
  | None => (None, w)
  | Some th =>
      let '(rgb, rgbaCache) := parseColor colorValue (rgbaParseCache (caches w)) in
      let st := caches w in
      let st :=
        {| rgbaParseCache := rgbaCache;
           matrixCache := matrixCache st;
           colorModificationCache := colorModificationCache st;
           parseCache := parseCache st;
           transformCache := transformCache st;
           colorPalettes := colorPalettes st;
           closures := closures st |} in
      match rgb with
      | None => (None, {| caches := st; colorRegistry := colorRegistry w |})
      | Some rgb =>
          let '(registered, reg) :=
            getTransformed rgb colorType0 (ThemeId_string (id th)) now (colorRegistry w) in
          let hit := match registered with
                     | Some v => negb (String.eqb v "")
                     | None => false
                     end in
          if hit then (registered, {| caches := st; colorRegistry := reg |})
          else
            let '(transformed, st) := transformColor rgb colorType0 th None None st in
            let reg := register rgb colorValue transformed colorType0 (ThemeId_string (id th)) now reg in
            (Some transformed, {| caches := st; colorRegistry := reg |})
      end
  end.

(** The part of [processInlineStyle] that resolves one inline colour
    value: the registry first, else the transform engine. *)
Definition resolveInlineColor (th : ThemeProfile) (now : Z) (w : World)
    (declaration : string * ColorType) : World :=
  let '(value, colorType0) := declaration in
  let '(transformed, w) := transformColorWithRegistry value colorType0 (Some th) now w in
  match transformed with
  | Some v =>
      if String.eqb v "" then
        {| caches := (transformCSSColor value colorType0 th None (caches w)).2;
           colorRegistry := colorRegistry w |}
      else w
  | None =>
      {| caches := (transformCSSColor value colorType0 th None (caches w)).2;
         colorRegistry := colorRegistry w |}
  end.

(** One colour value of a style sheet going through [transformCSSColor]. *)
Definition resolveSheetColor (th : ThemeProfile) (st : Caches)
    (declaration : string * ColorType) : Caches :=
  (transformCSSColor declaration.1 declaration.2 th None st).2.

(** The reference colours [injectBaseStyles] transforms, in order; nothing
    is injected when the palette background or text does not parse. *)
Definition baseStyleColors (th : ThemeProfile) : list (string * ColorType) :=
  [ (accent (palette th), text_t); ("#4c4c4c", border_t); ("#22c55e", text_t);
    ("#ef4444", text_t); ("#f59e0b", text_t); ("#ffffff", background_t);
    ("#000000", text_t); ("#8b5cf6", text_t); ("#a9a9a9", text_t); ("#6b7280", border_t) ].

Definition injectBaseStyles (th : ThemeProfile) (st : Caches) : Caches :=
  let '(bgRgb, rgbaCache) := parseColor (background (palette th)) (rgbaParseCache st) in
  let '(textRgb, rgbaCache) := parseColor (text (palette th)) rgbaCache in
  let st :=
    {| rgbaParseCache := rgbaCache;
       matrixCache := matrixCache st;
       colorModificationCache := colorModificationCache st;
       parseCache := parseCache st;
       transformCache := transformCache st;
       colorPalettes := colorPalettes st;
       closures := closures st |} in
  match bgRgb, textRgb with
  | Some _, Some _ =>
      let '(_, rgbaCache) := parseColor (surface (palette th)) (rgbaParseCache st) in
      let st :=
        {| rgbaParseCache := rgbaCache;
           matrixCache := matrixCache st;
           colorModificationCache := colorModificationCache st;
           parseCache := parseCache st;
           transformCache := transformCache st;
           colorPalettes := colorPalettes st;
           closures := closures st |} in
      List.fold_left (resolveSheetColor th) (baseStyleColors th) st
  | _, _ => st
  end.

(** Update theme (re-process all style sheets and inline styles).  The
    registry is cleared for [theme.id], the id of the theme passed in. *)
Definition updateTheme (theme0 : ThemeProfile) (enableInlineObservation : option bool)
    (page : Page) (now : Z) (e : Engine) (w : World) : Engine * World :=
  if isDestroyed e then (e, w)
  else
    let st := clearColorCache (caches w) in
    let reg := clearTheme (ThemeId_string (id theme0)) (colorRegistry w) in
    let st := injectBaseStyles theme0 st in
    let st := List.fold_left (resolveSheetColor theme0) (sheetColors page) st in
    let w := List.fold_left (resolveInlineColor theme0 now) (inlineColors page)
               {| caches := st; colorRegistry := reg |} in
    ({| theme := Some theme0;
        isDestroyed := false;
        observersStarted := true;
        inlineObservationEnabled := bool_decide (enableInlineObservation = Some true) |},
     w).

(** [clear] of the engine: clear applied theme artifacts without destroying
    observers.  The registry is cleared for [this.theme.id], the id of the
    theme the engine holds, and the theme is dropped. *)
Definition engine_clear (e : Engine) (w : World) : Engine * World :=
  if isDestroyed e then (e, w)
  else
    let reg :=
      match theme e with
      | Some th => clearTheme (ThemeId_string (id th)) (colorRegistry w)
      | None => colorRegistry w
      end in
    ({| theme := None;
        isDestroyed := false;
        observersStarted := observersStarted e;
        inlineObservationEnabled := false |},
     {| caches := caches w; colorRegistry := reg |}).

End DynamicThemeEngine.

(** * Vocabulary of the statements *)

(** ** Vocabulary for the round trip RGB -> HSL -> RGB *)

Section RoundTrip.
Local Open Scope float_scope.
Import JS.

(** Two channels differ by at most one. *)
Definition near (x y : number) : bool := Math_abs (x - y) <=? 1.

Definition roundtrip (r g b : number) : RGBA.t :=
  hslToRGB (rgbToHSL (RGBA.mk r g b 1)).

Definition roundtrip_within_1 (r g b : number) : bool :=
  let out := roundtrip r g b in
  near (RGBA.r out) r && near (RGBA.g out) g && near (RGBA.b out) b.

(** The 256 values an 8-bit channel takes. *)
Definition channels : list number :=
  List.map (fun n => number_of_Z (Z.of_nat n)) (seq 0 256).

End RoundTrip.

(** ** Vocabulary for [scale] *)

(** The linear remap of [scale] before clamping. *)
Definition interpolate (value inMin inMax outMin outMax : JS.number) : JS.number :=
  (outMin + ((value - inMin) * (outMax - outMin)) / (inMax - inMin))%float.

(** ** Vocabulary for the loop guard *)

(** What the guard knows about one node: the time of its last processed
    mutation and its cycle counter. *)
Definition guard_view (g : LoopGuard) (element : Node) : option Z * option Z :=
  (elementsLastChanges g !! element, elementsLoopCycles g !! element).

(** ** Vocabulary for the registry *)

(** The states the registry reaches through its public methods. *)
Inductive registry_reachable : ColorRegistry -> Prop :=
  | reach_new (size : Z) :
      registry_reachable (new_ColorRegistry size)
  | reach_register reg rgb hex out role theme now :
      registry_reachable reg ->
      registry_reachable (register rgb hex out role theme now reg)
  | reach_getTransformed reg rgb role theme now :
      registry_reachable reg ->
      registry_reachable (getTransformed rgb role theme now reg).2
  | reach_clearTheme reg theme :
      registry_reachable reg ->
      registry_reachable (clearTheme theme reg)
  | reach_clear reg :
      registry_reachable reg ->
      registry_reachable (registry_clear reg).

(** Every entry sits under the key of its own colour, and no key occurs
    twice. *)
Definition keyed (entries : list (string * RegisteredColor)) : Prop :=
  List.Forall (fun kv => kv.1 = getKey (originalRGB kv.2)) entries.

Definition registry_wf (reg : ColorRegistry) : Prop :=
  List.NoDup (map fst (registry reg)) /\ keyed (registry reg).

(** ** Vocabulary for the contrast repair *)

(** Each channel raised by 15. *)
Definition lighter15 (c : RGB.t) : RGB.t :=
  RGB.mk (RGB.r c + 15) (RGB.g c + 15) (RGB.b c + 15).

Fixpoint nondecreasing (xs : list JS.number) : bool :=
  match xs with
  | x :: (y :: _) as rest => PrimFloat.leb x y && nondecreasing rest
  | _ => true
  end.

(** ** Vocabulary for the parser *)

(** The parse cache holds results of the parser only. *)
Definition parse_cache_sound (cache : gmap string RGBA.t) : Prop :=
  forall normalized rgb, cache !! normalized = Some rgb ->
    parseColor_normalized normalized = Some rgb.

(** ** Vocabulary for the determinism of [transformColor] *)

(** The dark/light disposition [transformColor] works with. *)
Definition darkDisposition (theme : ThemeProfile) (mode : option ThemeMode) : bool :=
  isDarkModeOf (default (detectThemeMode theme) mode).

(** What a modifier computes, by its identity, under a disposition. *)
Definition body_of (isDarkMode : bool) (f : ModifierId)
    : HSLA.t -> ColorPoles -> ThemeProfile -> HSLA.t :=
  match f with
  | BackgroundDark => transformBackgroundDarkMode
  | BackgroundLight => transformBackgroundLightMode
  | ForegroundDark => transformForegroundDarkMode
  | ForegroundLight => transformForegroundLightMode
  | BorderClosure _ => fun hsl poles _ => transformBorderColor hsl poles isDarkMode
  end.

(** The pipeline without any cache: poles parsed afresh, the matrix built
    afresh. *)
Definition uncachedModify (theme : ThemeProfile) (mode : option ThemeMode)
    (f : ModifierId) (rgb : RGBA.t) : string :=
  modifyColor rgb theme (body_of (darkDisposition theme mode) f)
    (getColorPoles theme ∅).1 (createFilterMatrix theme false).

Definition uncachedTransform (theme : ThemeProfile) (mode : option ThemeMode)
    (role : ColorType) (rgb : RGBA.t) : string :=
  uncachedModify theme mode (fn_id (selectModifier role (darkDisposition theme mode) 0)) rgb.

(** Every cached value is the value of the uncached pipeline for the
    theme, for each colour of [colours] that the key stands for. *)
Record coherent (theme : ThemeProfile) (mode : option ThemeMode) (colours : RGBA.t -> Prop)
    (st : Caches) : Prop := {
  coherent_parse : parse_cache_sound (rgbaParseCache st);
  coherent_matrix : forall m,
    matrixCache st !! matrixKey theme false = Some m -> m = createFilterMatrix theme false;
  coherent_modification : forall f fnCache key value,
    colorModificationCache st !! f = Some fnCache -> fnCache !! key = Some value ->
    forall rgb, colours rgb -> getCacheId rgb theme = key ->
      value = uncachedModify theme mode f rgb;
  coherent_palette : forall role palette0 key value,
    colorPalettes st !! role = Some palette0 -> palette0 !! key = Some value ->
    forall rgb, colours rgb -> getRGBKey rgb = key ->
      value = uncachedTransform theme mode role rgb
}.

(** The states the caches reach from module load, through calls for any
    themes. *)
Inductive caches_reachable : Caches -> Prop :=
  | reach_initial : caches_reachable initial_caches
  | reach_transformColor st rgb role theme mode shouldRegister :
      caches_reachable st ->
      caches_reachable (transformColor rgb role theme mode shouldRegister st).2
  | reach_transformCSSColor st value role theme mode :
      caches_reachable st ->
      caches_reachable (transformCSSColor value role theme mode st).2
  | reach_clearColorCache st :
      caches_reachable st ->
      caches_reachable (clearColorCache st).

(** A run within one theme instance: calls of [transformColor] for the
    theme, and cache flushes. *)
Inductive event :=
  | Call (rgb : RGBA.t) (role : ColorType) (shouldRegister : option bool)
  | Flush.

Fixpoint run (theme : ThemeProfile) (mode : option ThemeMode) (events : list event)
    (st : Caches) : list (option string) * Caches :=
  match events with
  | nil => (nil, st)
  | Call rgb role shouldRegister :: rest =>
      let '(out, st) := transformColor rgb role theme mode shouldRegister st in
      let '(outs, st) := run theme mode rest st in
      (Some out :: outs, st)
  | Flush :: rest =>
      let '(outs, st) := run theme mode rest (clearColorCache st) in
      (None :: outs, st)
  end.

(** The colours a run transforms. *)
Definition colours_of (events : list event) (rgb : RGBA.t) : Prop :=
  exists role shouldRegister, In (Call rgb role shouldRegister) events.

(** Distinct colours have distinct keys. *)
Definition keys_injective (colours : RGBA.t -> Prop) : Prop :=
  forall c1 c2, colours c1 -> colours c2 -> getRGBKey c1 = getRGBKey c2 -> c1 = c2.

(** Identical inputs, identical outputs: any two calls of a run with the
    same colour and role return the same text. *)
Definition deterministic (events : list event) (outs : list (option string)) : Prop :=
  forall i j rgb role shouldRegister1 shouldRegister2 out1 out2,
    events !! i = Some (Call rgb role shouldRegister1) ->
    events !! j = Some (Call rgb role shouldRegister2) ->
    outs !! i = Some (Some out1) ->
    outs !! j = Some (Some out2) ->
    out1 = out2.

(** What each event of a run returns when nothing is cached. *)
Definition uncachedOutputs (theme : ThemeProfile) (mode : option ThemeMode)
    (events : list event) : list (option string) :=
  List.map (fun ev => match ev with
                      | Call rgb role _ => Some (uncachedTransform theme mode role rgb)
                      | Flush => None
                      end) events.

(** A sample run over two colours. *)
Definition white : RGBA.t := RGBA.mk 255 255 255 1.
Definition steel : RGBA.t := RGBA.mk 30 90 200 1.

Definition sample_events : list event :=
  [ Call white background_t None; Call steel text_t None; Call white background_t None;
    Flush; Call steel border_t (Some false); Call white background_t None;
    Call steel border_t None ].

(** The brightness and contrast part of a theme's filter matrix, before
    the gamma matrix is composed in. *)
Definition filterBase (theme : ThemeProfile) : ColorMatrix :=
  let matrix := IDENTITY_MATRIX in
  let matrix :=
    match filter_of theme brightness with
    | Some v =>
        if truthy_number v && negb (PrimFloat.eqb v 1)
        then composeMatrices matrix (createBrightnessMatrix v) else matrix
    | None => matrix
    end in
  match filter_of theme contrast with
  | Some v =>
      if truthy_number v && negb (PrimFloat.eqb v 1)
      then composeMatrices matrix (createContrastMatrix v) else matrix
  | None => matrix
  end.

(** Every cached matrix is one built for the light disposition, with gamma
    2.2, of a profile whose key it is stored under. *)
Definition matrix_cache_light (cache : gmap string ColorMatrix) : Prop :=
  forall key m, cache !! key = Some m ->
    exists th, key = matrixKey th false /\
               m = composeMatrices (filterBase th) (createGammaMatrix 2.2%float).

(** Whether [transformColor] returns the registered value of the palette. *)
Definition answered_from_palette (rgb : RGBA.t) (role : ColorType)
    (shouldRegister : option bool) (st : Caches) : bool :=
  default true shouldRegister &&
  match getRegisteredColor role rgb (colorPalettes st) with
  | Some value => negb (String.eqb value "")
  | None => false
  end.

(** Whether [modifyColorWithCache] returns a value of the function cache. *)
Definition answered_from_function_cache (rgb : RGBA.t) (theme : ThemeProfile)
    (modifier : HSLModifier) (st : Caches) : bool :=
  match default ∅ (colorModificationCache st !! fn_id modifier) !! getCacheId rgb theme with
  | Some _ => true
  | None => false
  end.

(** The dark theme of the catalogue with its brightness filter changed. *)
Definition brighterDark : ThemeProfile :=
  {| id := id darkProfile; label := label darkProfile;
     description := description darkProfile; palette := palette darkProfile;
     filters := Some {| brightness := Some 1.5%float; contrast := Some 1%float;
                        hueRotate := None; saturate := None; sepia := None;
                        grayscale := None; invert := None |};
     reducedMotion := None; minimumContrast := minimumContrast darkProfile |}.

(** ** The round trip on every colour, staged

    [hslToRGB (rgbToHSL rgb)] is run on each of the 2^24 colours.  Colours
    with two equal channels go through the two functions as they are.  For
    the others the work is shared: with the largest channel [hi] and the
    smallest [lo] fixed, chroma, lightness, saturation and the offset [m] are
    computed once, and each of the six arrangements of [hi > mid > lo] only
    computes its hue, the sector of the hue and the middle channel. *)

Section RoundTripCheck.
Local Open Scope bool_scope.
Local Open Scope float_scope.
Import JS.

(** A channel as [rgbToHSL] scales it. *)
Definition fr (z : Z) : number := number_of_Z z / 255.

(** A channel value with its fraction of 255. *)
Definition entry : Type := number * number.

Definition entry_of (z : Z) : entry :=
  let k := number_of_Z z in (k, k / 255).

(** [n-1, ..., 1, 0]. *)
Fixpoint down (n : nat) : list Z :=
  match n with
  | O => nil
  | S n' => Z.of_nat n' :: down n'
  end.

Definition entries : list entry := List.map entry_of (down 256).

(** The six branches of [hslToRGB], by hue. *)
Inductive Sector := Sector0 | Sector1 | Sector2 | Sector3 | Sector4 | Sector5.

Definition sector (h : number) : Sector :=
  if h <? 60 then Sector0
  else if h <? 120 then Sector1
  else if h <? 180 then Sector2
  else if h <? 240 then Sector3
  else if h <? 300 then Sector4
  else Sector5.

Definition is_sector (s : Sector) (h : number) : bool :=
  match s, sector h with
  | Sector0, Sector0 | Sector1, Sector1 | Sector2, Sector2
  | Sector3, Sector3 | Sector4, Sector4 | Sector5, Sector5 => true
  | _, _ => false
  end.

(** The last two steps of the hue in [rgbToHSL]. *)
Definition finish_hue (h : number) : number :=
  let h := h * 60 in
  if h <? 0 then h + 360 else h.

(** The hue when red, green or blue is the largest channel. *)
Definition hueR (g b c : number) : number := finish_hue (rem ((g - b) / c) 6).
Definition hueG (r b c : number) : number := finish_hue ((b - r) / c + 2).
Definition hueB (r g c : number) : number := finish_hue ((r - g) / c + 4).

(** The middle channel that [hslToRGB] computes from hue [h], chroma [c] and
    offset [m] is within one of [mid255]. *)
Definition mid_ok (h c m mid255 : number) : bool :=
  let x := c * (1 - Math_abs (rem (h / 60) 2 - 1)) in
  near (Math_round ((x + m) * 255)) mid255.

(** One arrangement: the hue lies in the sector that puts the channels back
    in their places, and the middle channel comes back. *)
Definition arrangement_ok (s : Sector) (h c m mid255 : number) : bool :=
  is_sector s h && mid_ok h c m mid255.

(** The six arrangements of [hi > mid > lo]. *)
Definition triple_check (hi lo c c' m : number) (midE : entry) : bool :=
  let '(mid255, mid) := midE in
  arrangement_ok Sector0 (hueR mid lo c) c' m mid255 &&
  arrangement_ok Sector5 (hueR lo mid c) c' m mid255 &&
  arrangement_ok Sector1 (hueG mid lo c) c' m mid255 &&
  arrangement_ok Sector2 (hueG lo mid c) c' m mid255 &&
  arrangement_ok Sector3 (hueB lo mid c) c' m mid255 &&
  arrangement_ok Sector4 (hueB mid lo c) c' m mid255.

(** What depends on the largest and the smallest channel only, then every
    middle channel between them. *)
Definition pair_check (hiE loE : entry) (mids : list entry) : bool :=
  let '(hi255, hi) := hiE in
  let '(lo255, lo) := loE in
  let c := hi - lo in
  let l := (hi + lo) / 2 in
  let s := c / (1 - Math_abs (2 * l - 1)) in
  let c' := (1 - Math_abs (2 * l - 1)) * s in
  let m := l - c' / 2 in
  negb (c =? 0) && negb (s =? 0) &&
  near (Math_round ((c' + m) * 255)) hi255 &&
  near (Math_round ((0 + m) * 255)) lo255 &&
  forallb (triple_check hi lo c c' m) mids.

(** [P lo mids] for every element [lo] of [below], where [mids] are the
    elements met before [lo]. *)
Fixpoint check_lo {A : Type} (P : A -> list A -> bool) (mids below : list A) : bool :=
  match below with
  | nil => true
  | lo :: below' => P lo mids && check_lo P (lo :: mids) below'
  end.

(** [P hi lo mids] for every [hi] before [lo] in [es], where [mids] are the
    elements between the two. *)
Fixpoint check_hi {A : Type} (P : A -> A -> list A -> bool) (es : list A) : bool :=
  match es with
  | nil => true
  | hi :: below => check_lo (P hi) nil below && check_hi P below
  end.

(** The colours with two equal channels go through the functions as they
    are. *)
Definition ties_ok (a b : number) : bool :=
  roundtrip_within_1 a a b && roundtrip_within_1 a b a && roundtrip_within_1 b a a.

(** The fractions are numbers ordered as the channel values are. *)
Definition order_ok (a b : Z * number) : bool :=
  let '(i, x) := a in
  let '(j, y) := b in
  Bool.eqb (x <? y) (i <? j)%Z && Bool.eqb (x =? y) (i =? j)%Z && negb (is_nan x).

Definition indexed : list (Z * number) := List.map (fun z => (z, fr z)) (down 256).

End RoundTripCheck.

(** ** Vocabulary for the registry index *)

(** Every entry is listed in the key set of its theme. *)
Definition theme_indexed (reg : ColorRegistry) : Prop :=
  forall k e, In (k, e) (registry reg) ->
    exists keys, themeRegistry reg !! themeId e = Some keys /\ k ∈ keys.

(** A registry of three colours registered under "dark" at times 1, 2, 3. *)
Definition three_colours : ColorRegistry :=
  register (RGBA.mk 0 0 255 1) "#0000ff" "#8ab4f8" text_t "dark" 3
    (register (RGBA.mk 0 255 0 1) "#00ff00" "#7cc47c" text_t "dark" 2
       (register (RGBA.mk 255 0 0 1) "#ff0000" "#e06c6c" text_t "dark" 1
          (new_ColorRegistry 3))).

(** ** Vocabulary for a mutation storm *)

(** The guard after five mutations of node 1 one millisecond apart. *)
Definition storm_guard : LoopGuard :=
  (mutate 1%positive [0; 1; 2; 3; 4]%Z no_mutations).2.

(** ** Vocabulary for the parse cache *)

(** The states of [rgbaParseCache]: empty at load time and after
    [clearColorCache], then whatever calls of [parseColor] leave. *)
Inductive parse_cache_reachable : gmap string RGBA.t -> Prop :=
  | parse_cache_empty : parse_cache_reachable ∅
  | parse_cache_step cache color :
      parse_cache_reachable cache ->
      parse_cache_reachable (parseColor color cache).2.

(** ** Vocabulary for the hex codecs *)

(** What the codecs need of the two hex digits of one channel value. *)
Definition hex_pair_ok (z : Z) : Prop :=
  let s := toHex (JS.number_of_Z z) in
  String.length s = 2%nat /\
  JS.toLowerCase s = s /\
  JS.trimEnd s = s /\
  forallb is_hex_digit (list_ascii_of_string s) = true /\
  JS.parseInt16 s = JS.number_of_Z z.

(** What [rgbToHex] needs of an alpha value [z / 255]. *)
Definition hex_alpha_ok (z : Z) : Prop :=
  let a := (JS.number_of_Z z / 255)%float in
  (a <? 1)%float = (z <? 255)%Z /\
  ((z <? 255)%Z = true -> toHex (a * 255)%float = toHex (JS.number_of_Z z)) /\
  ((z <? 255)%Z = false -> a = 1%float).

(** ** Vocabulary for the contrast repair *)

(** An 8-bit channel after [k] passes of the repair loop. *)
Definition shift_channel (lighten : bool) (k : nat) (z : Z) : Z :=
  Nat.iter k (fun z => if lighten then Z.min 255 (z + 15) else Z.max 0 (z - 15))%Z z.

Definition shift_colour (lighten : bool) (k : nat) (r g b : Z) : RGB.t :=
  RGB.mk (JS.number_of_Z (shift_channel lighten k r))
         (JS.number_of_Z (shift_channel lighten k g))
         (JS.number_of_Z (shift_channel lighten k b)).

(** One pass of the loop on an 8-bit channel value. *)
Definition step_ok (z : Z) : Prop :=
  JS.Math_min 255 (JS.number_of_Z z + 15)%float = JS.number_of_Z (Z.min 255 (z + 15)) /\
  JS.Math_max 0 (JS.number_of_Z z - 15)%float = JS.number_of_Z (Z.max 0 (z - 15)).

(** ** Vocabulary for the colour matrices *)

(** A channel value as [applyColorMatrix] scales it by a factor [v] on the
    diagonal. *)
Definition scaled_channel (v : JS.number) (z : Z) : JS.number :=
  JS.Math_round (JS.Math_max 0 (JS.Math_min 1 (v * (JS.number_of_Z z / 255))) * 255)%float.

(** What [applyColorMatrix] needs of an 8-bit channel value under a
    diagonal matrix of factor [v]. *)
Definition diagonal_ok (v : JS.number) (z : Z) : Prop :=
  let x := (JS.number_of_Z z / 255)%float in
  (0 * x = 0)%float /\
  (v * x + 0 + 0 = v * x)%float /\
  (0 + v * x + 0 = v * x)%float /\
  (0 + 0 + v * x = v * x)%float.

(** The diagonal factors of the gamma matrices, and that of the identity. *)
Definition gamma_factor (isDarkMode : bool) : JS.number :=
  (JS.Math_pow 2 (1 / (if isDarkMode then 2.0 else 2.2) - 1))%float.

Definition channel_table (v : JS.number) : Prop :=
  List.Forall (fun z => diagonal_ok v z /\
                        (scaled_channel v z <=? JS.number_of_Z z)%float = true) (down 256).

(** A filter value that [createFilterMatrix] passes over: absent, zero, NaN
    or one. *)
Definition passed_over (x : option JS.number) : bool :=
  match x with
  | Some v => negb (truthy_number v && negb (v =? 1)%float)
  | None => true
  end.

(** ** Vocabulary for the palette and the function cache *)

(** What holds of the caches in every state they reach: cached and
    registered values are not empty, and the closures still to be allocated
    have no entry in [colorModificationCache]. *)
Record caches_tidy (st : Caches) : Prop := {
  tidy_modification : forall f fnCache key value,
    colorModificationCache st !! f = Some fnCache -> fnCache !! key = Some value ->
    value <> "";
  tidy_palette : forall role palette0 key value,
    colorPalettes st !! role = Some palette0 -> palette0 !! key = Some value ->
    value <> "";
  tidy_closures : forall n,
    (closures st <= n)%nat -> colorModificationCache st !! BorderClosure n = None
}.


(** The border modifier [transformColor] builds for a theme and a mode. *)
Definition borderModifier (theme : ThemeProfile) (mode : option ThemeMode)
    : HSLA.t -> ColorPoles -> ThemeProfile -> HSLA.t :=
  fun hsl poles _ => transformBorderColor hsl poles (darkDisposition theme mode).

(** ** Vocabulary for the engine's registry look-up *)

(** What holds of the process-wide state between calls of the engine. *)
Definition world_tidy (w : World) : Prop :=
  caches_tidy (caches w) /\ parse_cache_sound (rgbaParseCache (caches w)).

(** ** Vocabulary for short hex notation and greys *)





Definition grey (z : Z) (a : JS.number) : RGBA.t :=
  RGBA.mk (JS.number_of_Z z) (JS.number_of_Z z) (JS.number_of_Z z) a.

Definition grey_ok (z : Z) : Prop :=
  forall a, let hsl := rgbToHSL (grey z a) in
    HSLA.h hsl = 0%float /\ HSLA.s hsl = 0%float /\ HSLA.a hsl = a /\
    hslToRGB hsl = grey z a.

(** ** Vocabulary for the transformation pipeline *)

(** The colour [modifyColorWithCache] computes on a cache miss, before it is
    written as hex text. *)
Definition pipeline (rgb : RGBA.t) (theme : ThemeProfile)
    (body : HSLA.t -> ColorPoles -> ThemeProfile -> HSLA.t)
    (poles : ColorPoles) (matrix : ColorMatrix) : RGBA.t :=
  applyColorMatrix
    (hslToRGB (applyThemeFilters (body (rgbToHSL rgb) poles theme) (filters theme))) matrix.

(** ** Vocabulary for named colours *)

(** The colour a table value 0xRRGGBB stands for. *)
Definition colour_of_value (v : Z) : RGBA.t :=
  RGBA.mk (JS.number_of_Z (v / 65536)) (JS.number_of_Z ((v / 256) mod 256))
          (JS.number_of_Z (v mod 256)) 1.

Definition named_ok (entry : string * Z) : Prop :=
  parseColor_normalized entry.1 = Some (colour_of_value entry.2) /\
  (0 <= entry.2 < 16777216)%Z.

(** ** Vocabulary for the functional notation *)

(** A character that neither separates nor closes, and that lower-casing
    leaves alone. *)
Definition plain_char (c : ascii) : bool :=
  negb (JS.is_space c) && negb (JS.code c =? 44)%Z && negb (JS.code c =? 41)%Z &&
  Ascii.eqb (JS.lower_char c) c.

Fixpoint plain (s : string) : bool :=
  match s with
  | EmptyString => true
  | String c r => plain_char c && plain r
  end.

(** A text without a closing parenthesis. *)
Fixpoint open_text (s : string) : bool :=
  match s with
  | EmptyString => true
  | String c r => negb (JS.code c =? 41)%Z && open_text r
  end.

(** What the parser needs of the decimal text of a channel value. *)
Definition channel_text_ok (z : Z) : Prop :=
  let s := JS.Number_toString (JS.number_of_Z z) in
  plain s = true /\ s <> "" /\
  JS.parseFloat s = JS.number_of_Z z /\
  JS.endsWith s "%" = false /\
  JS.isNaN (JS.number_of_Z z) = false.

(** The text [rgb(r, g, b)] as a template literal writes it. *)
Definition rgb_text (r g b : Z) : string :=
  "rgb(" +:+ JS.Number_toString (JS.number_of_Z r) +:+ ", " +:+
  JS.Number_toString (JS.number_of_Z g) +:+ ", " +:+
  JS.Number_toString (JS.number_of_Z b) +:+ ")".

(** * Properties *)

(** ** The order of binary64 numbers *)

Section FloatOrder.
Local Open Scope float_scope.

Lemma SFcompare_refl (x : spec_float) :
  x <> S754_nan -> SFcompare x x = Some Eq.
Proof.
  destruct x as [s| s| |s m e]; intros Hx; try congruence; simpl.
  - reflexivity.
  - destruct s; reflexivity.
  - rewrite Z.compare_refl. rewrite Pos.compare_cont_refl. destruct s; reflexivity.
Qed.

Lemma SFcompare_antisym (x y : spec_float) :
  SFcompare y x = option_map CompOpp (SFcompare x y).
Proof.
  destruct x as [sx| sx| |sx mx ex], y as [sy| sy| |sy my ey]; simpl;
    try reflexivity;
    try (destruct sx; reflexivity); try (destruct sy; reflexivity);
    try (destruct sx, sy; reflexivity).
  f_equal.
  rewrite (Z.compare_antisym ey ex).
  change (Pos.compare_cont Eq my mx) with (Pos.compare my mx).
  change (Pos.compare_cont Eq mx my) with (Pos.compare mx my).
  rewrite (Pos.compare_antisym my mx).
  destruct sx, sy; simpl; try reflexivity;
    destruct (Z.compare ey ex); simpl; try reflexivity;
    destruct (Pos.compare my mx); reflexivity.
Qed.

Lemma is_nan_false (x : float) : is_nan x = false -> Prim2SF x <> S754_nan.
Proof.
  unfold is_nan. rewrite FloatAxioms.eqb_spec. unfold SFeqb. intros H Hn.
  rewrite Hn in H. simpl in H. discriminate.
Qed.

Lemma leb_refl (x : float) : is_nan x = false -> (x <=? x) = true.
Proof.
  intros H%is_nan_false. rewrite FloatAxioms.leb_spec. unfold SFleb.
  rewrite SFcompare_refl by assumption. reflexivity.
Qed.

Lemma ltb_leb (x y : float) : (x <? y) = true -> (x <=? y) = true.
Proof.
  rewrite FloatAxioms.ltb_spec, FloatAxioms.leb_spec. unfold SFltb, SFleb.
  destruct (SFcompare (Prim2SF x) (Prim2SF y)) as [[]|]; congruence.
Qed.

Lemma SFcompare_defined (x y : spec_float) :
  x <> S754_nan -> y <> S754_nan -> SFcompare x y <> None.
Proof.
  destruct x as [sx| sx| |sx mx ex], y as [sy| sy| |sy my ey]; simpl; congruence.
Qed.

(** Numbers that are not NaN and compare neither way are equal in the
    order. *)
Lemma not_ltb_leb (x y : float) :
  is_nan x = false -> is_nan y = false ->
  (x <? y) = false -> (y <=? x) = true.
Proof.
  intros Hx%is_nan_false Hy%is_nan_false.
  rewrite FloatAxioms.ltb_spec, FloatAxioms.leb_spec. unfold SFltb, SFleb.
  rewrite (SFcompare_antisym (Prim2SF x) (Prim2SF y)).
  pose proof (SFcompare_defined _ _ Hx Hy) as Hd.
  destruct (SFcompare (Prim2SF x) (Prim2SF y)) as [[]|]; simpl; congruence.
Qed.

Import JS.

Lemma Math_min_cases (x y : float) :
  is_nan x = false -> is_nan y = false ->
  (Math_min x y = x /\ (x <=? y) = true) \/ (Math_min x y = y /\ (y <=? x) = true).
Proof.
  intros Hx Hy. unfold Math_min. rewrite Hx, Hy. simpl.
  destruct (x <? y) eqn:Hxy.
  - left. split; [reflexivity | apply ltb_leb; assumption].
  - destruct (y <? x) eqn:Hyx.
    + right. split; [reflexivity | apply ltb_leb; assumption].
    + destruct (get_sign x).
      * left. split; [reflexivity | apply not_ltb_leb; assumption].
      * right. split; [reflexivity | apply not_ltb_leb; assumption].
Qed.

Lemma Math_max_cases (x y : float) :
  is_nan x = false -> is_nan y = false ->
  (Math_max x y = x /\ (y <=? x) = true) \/ (Math_max x y = y /\ (x <=? y) = true).
Proof.
  intros Hx Hy. unfold Math_max. rewrite Hx, Hy. simpl.
  destruct (x <? y) eqn:Hxy.
  - right. split; [reflexivity | apply ltb_leb; assumption].
  - destruct (y <? x) eqn:Hyx.
    + left. split; [reflexivity | apply ltb_leb; assumption].
    + destruct (get_sign x).
      * right. split; [reflexivity | apply not_ltb_leb; assumption].
      * left. split; [reflexivity | apply not_ltb_leb; assumption].
Qed.

Lemma Math_min_not_nan (x y : float) :
  is_nan x = false -> is_nan y = false -> is_nan (Math_min x y) = false.
Proof. intros Hx Hy. destruct (Math_min_cases x y Hx Hy) as [[-> _]|[-> _]]; assumption. Qed.

Lemma Math_max_not_nan (x y : float) :
  is_nan x = false -> is_nan y = false -> is_nan (Math_max x y) = false.
Proof. intros Hx Hy. destruct (Math_max_cases x y Hx Hy) as [[-> _]|[-> _]]; assumption. Qed.

Lemma Math_min_le_max (x y : float) :
  is_nan x = false -> is_nan y = false -> (Math_min x y <=? Math_max x y) = true.
Proof.
  intros Hx Hy.
  destruct (Math_min_cases x y Hx Hy) as [[-> H1]|[-> H1]],
           (Math_max_cases x y Hx Hy) as [[-> H2]|[-> H2]];
    auto using leb_refl.
Qed.

(** [clamp] keeps a number inside an interval with ordered ends. *)
Lemma clamp_within (v lo hi : float) :
  is_nan v = false -> is_nan lo = false -> is_nan hi = false ->
  (lo <=? hi) = true ->
  (lo <=? clamp v lo hi) = true /\ (clamp v lo hi <=? hi) = true.
Proof.
  intros Hv Hlo Hhi Hle. unfold clamp.
  pose proof (Math_max_not_nan v lo Hv Hlo) as Hm.
  destruct (Math_min_cases (Math_max v lo) hi Hm Hhi) as [[-> H1]|[-> H1]].
  - split; [|assumption].
    destruct (Math_max_cases v lo Hv Hlo) as [[-> H2]|[-> H2]];
      [assumption | apply leb_refl; assumption].
  - split; [assumption | apply leb_refl; assumption].
Qed.

End FloatOrder.

(** ** [scale] *)

Section Scale.
Local Open Scope float_scope.
Import JS.

Lemma scale_clamps_interpolate (value inMin inMax outMin outMax : number) :
  scale value inMin inMax outMin outMax =
  clamp (interpolate value inMin inMax outMin outMax)
        (Math_min outMin outMax) (Math_max outMin outMax).
Proof. reflexivity. Qed.

End Scale.

(** C9, as stated, fails: with an empty input range the interpolation is
    0/0, and [clamp] passes NaN through. *)
Lemma scale_degenerate_range_is_nan :
  let r := scale 0 0 0 0 1 in
  is_nan r = true /\
  (PrimFloat.leb (JS.Math_min 0 1) r && PrimFloat.leb r (JS.Math_max 0 1)) = false.
Proof. vm_compute. split; reflexivity. Qed.

(** C9 (amended). Whenever the linear interpolation is a number (not NaN)
    and so are [outMin] and [outMax], [scale] returns a number within
    [[min(outMin,outMax), max(outMin,outMax)]]; nothing is asked of [value]
    with respect to [[inMin, inMax]]. *)
Theorem scale_within_output_range (value inMin inMax outMin outMax : JS.number) :
  is_nan (interpolate value inMin inMax outMin outMax) = false ->
  is_nan outMin = false ->
  is_nan outMax = false ->
  let r := scale value inMin inMax outMin outMax in
  PrimFloat.leb (JS.Math_min outMin outMax) r = true /\
  PrimFloat.leb r (JS.Math_max outMin outMax) = true.
Proof.
  intros Hv Hlo Hhi r. subst r. rewrite scale_clamps_interpolate.
  apply clamp_within.
  - assumption.
  - apply Math_min_not_nan; assumption.
  - apply Math_max_not_nan; assumption.
  - apply Math_min_le_max; assumption.
Qed.

(** The value 7 lies outside the input range [[0, 1]]; descending output
    bounds. *)
Lemma scale_within_output_range_witness :
  let r := scale 7 0 1 0.5 0.2 in
  PrimFloat.leb (JS.Math_min 0.5 0.2) r = true /\
  PrimFloat.leb r (JS.Math_max 0.5 0.2) = true.
Proof. apply (scale_within_output_range 7 0 1 0.5 0.2); reflexivity. Defined.

(** ** The loop guard *)

Section LoopGuardProperties.
Local Open Scope Z_scope.

Lemma guard_first_mutation (element : Node) (now : Z) (g : LoopGuard) (c : option Z) :
  guard_view g element = (None, c) ->
  exists g', shouldSkipLoopElement element now g = (false, g') /\
             guard_view g' element = (Some now, c).
Proof.
  unfold guard_view, shouldSkipLoopElement. intros [= Hl Hc]. rewrite Hl.
  eexists. split; [reflexivity|]. simpl. rewrite lookup_insert_eq, Hc. reflexivity.
Qed.

Lemma guard_cycle_processed (element : Node) (now last : Z) (g : LoopGuard) (c : option Z) :
  guard_view g element = (Some last, c) ->
  now - last < LOOP_DETECTION_THRESHOLD ->
  default 0 c < MAX_LOOP_CYCLES ->
  exists g', shouldSkipLoopElement element now g = (false, g') /\
             guard_view g' element = (Some now, Some (default 0 c + 1)).
Proof.
  unfold guard_view, shouldSkipLoopElement. intros [= Hl Hc] Hnow Hcyc. rewrite Hl, Hc.
  destruct (Z.ltb_spec (now - last) LOOP_DETECTION_THRESHOLD); [|lia].
  destruct (Z.leb_spec MAX_LOOP_CYCLES (default 0 c)); [lia|].
  eexists. split; [reflexivity|]. simpl. rewrite !lookup_insert_eq. reflexivity.
Qed.

Lemma guard_cycle_skipped (element : Node) (now last : Z) (g : LoopGuard) (c : option Z) :
  guard_view g element = (Some last, c) ->
  now - last < LOOP_DETECTION_THRESHOLD ->
  MAX_LOOP_CYCLES <= default 0 c ->
  exists g', shouldSkipLoopElement element now g = (true, g') /\
             guard_view g' element = (Some last, Some (default 0 c + 1)).
Proof.
  unfold guard_view, shouldSkipLoopElement. intros [= Hl Hc] Hnow Hcyc. rewrite Hl, Hc.
  destruct (Z.ltb_spec (now - last) LOOP_DETECTION_THRESHOLD); [|lia].
  destruct (Z.leb_spec MAX_LOOP_CYCLES (default 0 c)); [|lia].
  eexists. split; [reflexivity|]. simpl. rewrite Hl, lookup_insert_eq. reflexivity.
Qed.

Lemma guard_quiet_reset (element : Node) (now last : Z) (g : LoopGuard) (c : option Z) :
  guard_view g element = (Some last, c) ->
  LOOP_DETECTION_THRESHOLD <= now - last ->
  exists g', shouldSkipLoopElement element now g = (false, g') /\
             guard_view g' element = (Some now, Some 0).
Proof.
  unfold guard_view, shouldSkipLoopElement. intros [= Hl Hc] Hnow. rewrite Hl.
  destruct (Z.ltb_spec (now - last) LOOP_DETECTION_THRESHOLD); [lia|].
  eexists. split; [reflexivity|]. simpl. rewrite !lookup_insert_eq. reflexivity.
Qed.

End LoopGuardProperties.

(** C5, as stated, fails: of five mutations 100 ms apart the fifth is
    processed. *)
Lemma loop_guard_fifth_mutation_processed :
  (mutate 1%positive [0; 100; 200; 300; 400]%Z no_mutations).1
  = [false; false; false; false; false].
Proof. vm_compute. reflexivity. Qed.

(** C5 (amended). A node not seen before is mutated six times, each
    mutation less than 500 ms after the previous one: the first five
    mutations are processed and the sixth is skipped.  After 500 ms
    without a mutation the next mutation is processed and leaves the cycle
    counter at 0. *)
Theorem loop_guard_skips_sixth_and_resets
    (element : Node) (g : LoopGuard) (t1 t2 t3 t4 t5 t6 t7 : Z) :
  guard_view g element = (None, None) ->
  (0 <= t2 - t1 < 500)%Z -> (0 <= t3 - t2 < 500)%Z -> (0 <= t4 - t3 < 500)%Z ->
  (0 <= t5 - t4 < 500)%Z -> (0 <= t6 - t5 < 500)%Z ->
  (500 <= t7 - t6)%Z ->
  let '(skipped, g') := mutate element [t1; t2; t3; t4; t5; t6; t7] g in
  skipped = [false; false; false; false; false; true; false] /\
  elementsLoopCycles g' !! element = Some 0%Z.
Proof.
  intros H0 H12 H23 H34 H45 H56 H67. unfold mutate.
  destruct (guard_first_mutation element t1 g None H0) as (g1 & -> & V1).
  destruct (guard_cycle_processed element t2 t1 g1 None V1) as (g2 & -> & V2);
    [unfold LOOP_DETECTION_THRESHOLD; lia | unfold MAX_LOOP_CYCLES; simpl; lia |].
  destruct (guard_cycle_processed element t3 t2 g2 _ V2) as (g3 & -> & V3);
    [unfold LOOP_DETECTION_THRESHOLD; lia | unfold MAX_LOOP_CYCLES; simpl; lia |].
  destruct (guard_cycle_processed element t4 t3 g3 _ V3) as (g4 & -> & V4);
    [unfold LOOP_DETECTION_THRESHOLD; lia | unfold MAX_LOOP_CYCLES; simpl; lia |].
  destruct (guard_cycle_processed element t5 t4 g4 _ V4) as (g5 & -> & V5);
    [unfold LOOP_DETECTION_THRESHOLD; lia | unfold MAX_LOOP_CYCLES; simpl; lia |].
  destruct (guard_cycle_skipped element t6 t5 g5 _ V5) as (g6 & -> & V6);
    [unfold LOOP_DETECTION_THRESHOLD; lia | unfold MAX_LOOP_CYCLES; simpl; lia |].
  destruct (guard_quiet_reset element t7 t5 g6 _ V6) as (g7 & -> & V7);
    [unfold LOOP_DETECTION_THRESHOLD; lia |].
  split; [reflexivity|]. unfold guard_view in V7. congruence.
Qed.

Lemma loop_guard_skips_sixth_and_resets_witness :
  let '(skipped, g') :=
    mutate 1%positive [1000; 1100; 1200; 1300; 1400; 1500; 2000]%Z no_mutations in
  skipped = [false; false; false; false; false; true; false] /\
  elementsLoopCycles g' !! 1%positive = Some 0%Z.
Proof.
  apply (loop_guard_skips_sixth_and_resets 1%positive no_mutations
           1000 1100 1200 1300 1400 1500 2000); first reflexivity; lia.
Defined.

(** ** The colour registry *)

Section OrderedMapFacts.
Context {V : Type}.
Implicit Types (m : list (string * V)) (k : string) (v : V).

Lemma omap_get_In k v m : omap_get k m = Some v -> In (k, v) m.
Proof.
  induction m as [|[k' v'] m IH]; simpl; [discriminate|].
  destruct (String.eqb k' k) eqn:E.
  - apply String.eqb_eq in E as ->. intros [= ->]. left. reflexivity.
  - intros H. right. apply IH, H.
Qed.

Lemma omap_get_set_eq k v m : omap_get k (omap_set k v m) = Some v.
Proof.
  induction m as [|[k' v'] m IH]; simpl.
  - rewrite String.eqb_refl. reflexivity.
  - destruct (String.eqb k' k) eqn:E; simpl; rewrite E; [reflexivity | apply IH].
Qed.

Lemma omap_get_set_ne k k0 v m : k <> k0 -> omap_get k0 (omap_set k v m) = omap_get k0 m.
Proof.
  intros Hne. induction m as [|[k' v'] m IH]; simpl.
  - apply String.eqb_neq in Hne as ->. reflexivity.
  - destruct (String.eqb k' k) eqn:E; simpl.
    + apply String.eqb_eq in E as ->. apply String.eqb_neq in Hne. rewrite Hne. reflexivity.
    + rewrite IH. reflexivity.
Qed.

Lemma omap_set_keys k v m :
  map fst (omap_set k v m) = if omap_has k m then map fst m else map fst m ++ [k].
Proof.
  unfold omap_has. induction m as [|[k' v'] m IH]; simpl; [reflexivity|].
  destruct (String.eqb k' k) eqn:E; simpl; [reflexivity|].
  rewrite IH. destruct (omap_get k m); reflexivity.
Qed.

Lemma omap_has_In k m : omap_has k m = false -> ~ In k (map fst m).
Proof.
  unfold omap_has. induction m as [|[k' v'] m IH]; simpl; [tauto|].
  destruct (String.eqb k' k) eqn:E; [discriminate|].
  intros H [Hk|Hk]; [|exact (IH H Hk)].
  apply String.eqb_neq in E. congruence.
Qed.

Lemma omap_set_NoDup k v m : List.NoDup (map fst m) -> List.NoDup (map fst (omap_set k v m)).
Proof.
  intros Hnd. rewrite omap_set_keys. destruct (omap_has k m) eqn:E; [assumption|].
  apply List.NoDup_app.
  - assumption.
  - apply List.NoDup_cons; [simpl; tauto | apply List.NoDup_nil].
  - intros x Hx [<-|[]]. exact (omap_has_In _ _ E Hx).
Qed.

Lemma omap_set_Forall (P : string * V -> Prop) k v m :
  P (k, v) -> List.Forall P m -> List.Forall P (omap_set k v m).
Proof.
  intros Hnew Hall. induction m as [|[k' v'] m IH]; simpl.
  - constructor; [assumption | constructor].
  - inversion Hall as [|? ? Hhd Htl]; subst.
    destruct (String.eqb k' k) eqn:E.
    + apply String.eqb_eq in E as ->. constructor; assumption.
    + constructor; [assumption | apply IH, Htl].
Qed.

Lemma omap_delete_incl k m : incl (omap_delete k m) m.
Proof.
  induction m as [|[k' v'] m IH]; simpl; [apply incl_refl|].
  destruct (String.eqb k' k).
  - apply incl_tl, incl_refl.
  - apply incl_cons; [left; reflexivity | apply incl_tl, IH].
Qed.

Lemma omap_delete_NoDup k m : List.NoDup (map fst m) -> List.NoDup (map fst (omap_delete k m)).
Proof.
  induction m as [|[k' v'] m IH]; simpl; [trivial|].
  intros Hnd. inversion Hnd as [|? ? Hnotin Hrest]; subst.
  destruct (String.eqb k' k); [assumption|].
  simpl. constructor; [|apply IH, Hrest].
  intros Hin. apply Hnotin.
  apply in_map_iff in Hin as ([k1 v1] & Hk & Hin). simpl in Hk. subst k1.
  apply in_map_iff. exists (k', v1). split; [reflexivity|].
  apply (omap_delete_incl k m), Hin.
Qed.

Lemma filter_keys_NoDup (f : string * V -> bool) m :
  List.NoDup (map fst m) -> List.NoDup (map fst (List.filter f m)).
Proof.
  induction m as [|[k' v'] m IH]; simpl; [trivial|].
  intros Hnd. inversion Hnd as [|? ? Hnotin Hrest]; subst.
  destruct (f (k', v')); [|apply IH, Hrest].
  simpl. constructor; [|apply IH, Hrest].
  intros Hin. apply Hnotin.
  apply in_map_iff in Hin as ([k1 v1] & Hk & Hin). simpl in Hk. subst k1.
  apply in_map_iff. exists (k', v1). split; [reflexivity|].
  apply List.filter_In in Hin as [Hin _]. exact Hin.
Qed.

End OrderedMapFacts.

Section RegistryProperties.

Lemma keyed_incl (l1 l2 : list (string * RegisteredColor)) :
  incl l1 l2 -> keyed l2 -> keyed l1.
Proof.
  unfold keyed. rewrite !List.Forall_forall. intros Hincl H x Hx. apply H, Hincl, Hx.
Qed.

Lemma keyed_get (entries : list (string * RegisteredColor)) k e :
  keyed entries -> omap_get k entries = Some e -> k = getKey (originalRGB e).
Proof.
  unfold keyed. rewrite List.Forall_forall. intros H Hget.
  apply (H (k, e)), omap_get_In, Hget.
Qed.

Lemma evictLRU_wf now reg : registry_wf reg -> registry_wf (evictLRU now reg).
Proof.
  intros [Hnd Hk]. unfold evictLRU.
  destruct (oldest (registry reg) None now) as [key|]; [|split; assumption].
  destruct (String.eqb key ""); [split; assumption|].
  destruct (omap_get key (registry reg)); [|split; assumption].
  split; simpl.
  - apply omap_delete_NoDup, Hnd.
  - eapply keyed_incl; [apply omap_delete_incl | exact Hk].
Qed.

Lemma register_wf rgb hex out role theme now reg :
  registry_wf reg -> registry_wf (register rgb hex out role theme now reg).
Proof.
  intros Hwf. unfold register.
  match goal with
  | |- context [if ?c then evictLRU now reg else reg] =>
      assert (registry_wf (if c then evictLRU now reg else reg)) as [Hnd Hk]
        by (destruct c; [apply evictLRU_wf|]; assumption)
  end.
  split; simpl.
  - apply omap_set_NoDup, Hnd.
  - apply omap_set_Forall; [reflexivity | exact Hk].
Qed.

Lemma getTransformed_wf rgb role theme now reg :
  registry_wf reg -> registry_wf (getTransformed rgb role theme now reg).2.
Proof.
  intros [Hnd Hk]. unfold getTransformed.
  destruct (omap_get (getKey rgb) (registry reg)) as [e|] eqn:Hget; [|split; assumption].
  match goal with |- context [if ?c then _ else _] => destruct c end;
    [split; assumption|].
  split; simpl.
  - apply omap_set_NoDup, Hnd.
  - apply omap_set_Forall; [|exact Hk].
    simpl. apply (keyed_get _ _ _ Hk Hget).
Qed.

Lemma clearTheme_wf theme reg : registry_wf reg -> registry_wf (clearTheme theme reg).
Proof.
  intros [Hnd Hk]. unfold clearTheme.
  destruct (themeRegistry reg !! theme); [|split; assumption].
  split; simpl.
  - apply filter_keys_NoDup, Hnd.
  - eapply keyed_incl; [|exact Hk]. intros x Hx. apply List.filter_In in Hx. tauto.
Qed.

Lemma reachable_wf reg : registry_reachable reg -> registry_wf reg.
Proof.
  induction 1.
  - split; simpl; constructor.
  - apply register_wf; assumption.
  - apply getTransformed_wf; assumption.
  - apply clearTheme_wf; assumption.
  - split; simpl; constructor.
Qed.

(** A hit is an entry stored under the key of the query, whose role and
    theme are those of the query. *)
Lemma getTransformed_hit rgb role theme now reg hex :
  (getTransformed rgb role theme now reg).1 = Some hex ->
  exists e, omap_get (getKey rgb) (registry reg) = Some e /\
            colorType e = role /\ themeId e = theme /\ transformedHex e = hex.
Proof.
  unfold getTransformed.
  destruct (omap_get (getKey rgb) (registry reg)) as [e|]; [|discriminate].
  destruct (bool_decide (colorType e = role)) eqn:Hrole; [|discriminate].
  destruct (String.eqb (themeId e) theme) eqn:Htheme; [|discriminate].
  simpl. intros [= <-]. exists e.
  apply bool_decide_eq_true in Hrole. apply String.eqb_eq in Htheme. auto.
Qed.

(** What a look-up finds right after a registration of the same colour. *)
Lemma getTransformed_after_register rgb hex out role theme now reg role' theme' now' :
  (getTransformed rgb role' theme' now' (register rgb hex out role theme now reg)).1 =
  if bool_decide (role = role') && String.eqb theme theme' then Some out else None.
Proof.
  unfold getTransformed, register. cbn [registry].
  rewrite omap_get_set_eq. cbn [colorType themeId transformedHex].
  destruct (bool_decide (role = role')), (String.eqb theme theme'); reflexivity.
Qed.

End RegistryProperties.

(** C4. In every reachable registry state a look-up returns a value only
    from an entry that is stored under the exact RGBA key of the query,
    belongs to the queried colour and has the queried role and theme id.
    In particular, once (10,10,10) is registered as background for "dark",
    the look-ups as text/"dark" and as background/"light" miss. *)
Theorem getTransformed_scoped (reg : ColorRegistry) :
  registry_reachable reg ->
  (forall rgb role theme now hex,
     (getTransformed rgb role theme now reg).1 = Some hex ->
     exists e, In (getKey rgb, e) (registry reg) /\
               getKey (originalRGB e) = getKey rgb /\
               colorType e = role /\ themeId e = theme /\ transformedHex e = hex) /\
  (forall hex out now now',
     let rgb := RGBA.mk 10 10 10 1 in
     let reg' := register rgb hex out background_t "dark" now reg in
     (getTransformed rgb text_t "dark" now' reg').1 = None /\
     (getTransformed rgb background_t "light" now' reg').1 = None).
Proof.
  intros Hreach. split.
  - intros rgb role theme now hex Hhit.
    destruct (getTransformed_hit _ _ _ _ _ _ Hhit) as (e & Hget & Hrole & Htheme & Hhex).
    exists e. split; [apply omap_get_In, Hget|].
    split; [|auto].
    symmetry. apply (keyed_get (registry reg)); [|exact Hget].
    apply (reachable_wf reg Hreach).
  - intros hex out now now' rgb reg'. subst reg'.
    rewrite !getTransformed_after_register. split; reflexivity.
Qed.

Lemma getTransformed_scoped_witness :
  let reg := register (RGBA.mk 255 0 0 1) "red" "#af1212" text_t "dark" 5 globalColorRegistry in
  (forall rgb role theme now hex,
     (getTransformed rgb role theme now reg).1 = Some hex ->
     exists e, In (getKey rgb, e) (registry reg) /\
               getKey (originalRGB e) = getKey rgb /\
               colorType e = role /\ themeId e = theme /\ transformedHex e = hex) /\
  (forall hex out now now',
     let rgb := RGBA.mk 10 10 10 1 in
     let reg' := register rgb hex out background_t "dark" now reg in
     (getTransformed rgb text_t "dark" now' reg').1 = None /\
     (getTransformed rgb background_t "light" now' reg').1 = None).
Proof.
  apply (getTransformed_scoped
           (register (RGBA.mk 255 0 0 1) "red" "#af1212" text_t "dark" 5 globalColorRegistry)).
  apply reach_register. apply (reach_new 1000).
Defined.

(** C10. A reachable registry holds at most one entry per RGBA key, and a
    registration under an RGBA that is already stored replaces the entry:
    after the same RGBA is registered under (role A, theme X) and then
    under a different (role B, theme Y), the look-up for (A, X) misses. *)
Theorem register_overwrites_per_key (reg : ColorRegistry) :
  registry_reachable reg ->
  List.NoDup (map fst (registry reg)) /\
  (forall rgb hexA outA roleA themeX nowA hexB outB roleB themeY nowB now,
     (roleA, themeX) <> (roleB, themeY) ->
     let reg1 := register rgb hexA outA roleA themeX nowA reg in
     let reg2 := register rgb hexB outB roleB themeY nowB reg1 in
     omap_get (getKey rgb) (registry reg2) <> None /\
     List.NoDup (map fst (registry reg2)) /\
     (getTransformed rgb roleA themeX now reg2).1 = None).
Proof.
  intros Hreach. split; [apply (reachable_wf reg Hreach)|].
  intros rgb hexA outA roleA themeX nowA hexB outB roleB themeY nowB now Hne reg1 reg2.
  split; [|split].
  - subst reg2. unfold register at 1. cbn [registry]. rewrite omap_get_set_eq. discriminate.
  - apply (reachable_wf reg2). subst reg2 reg1. do 2 apply reach_register. exact Hreach.
  - subst reg2. rewrite getTransformed_after_register.
    destruct (bool_decide (roleB = roleA)) eqn:Hrole; [|reflexivity].
    destruct (String.eqb themeY themeX) eqn:Htheme; [|reflexivity].
    apply bool_decide_eq_true in Hrole. apply String.eqb_eq in Htheme. congruence.
Qed.

Lemma register_overwrites_per_key_witness :
  let reg := new_ColorRegistry 2 in
  List.NoDup (map fst (registry reg)) /\
  (forall rgb hexA outA roleA themeX nowA hexB outB roleB themeY nowB now,
     (roleA, themeX) <> (roleB, themeY) ->
     let reg1 := register rgb hexA outA roleA themeX nowA reg in
     let reg2 := register rgb hexB outB roleB themeY nowB reg1 in
     omap_get (getKey rgb) (registry reg2) <> None /\
     List.NoDup (map fst (registry reg2)) /\
     (getTransformed rgb roleA themeX now reg2).1 = None).
Proof. apply (register_overwrites_per_key (new_ColorRegistry 2)). apply reach_new. Defined.

(** ** Contrast repair *)

Section ContrastRepair.
Local Open Scope float_scope.
Import JS.

Lemma last_cons_default {A : Type} (x : A) (l : list A) (d d' : A) :
  List.last (x :: l) d = List.last (x :: l) d'.
Proof.
  revert x. induction l as [|y l IH]; intros x; [reflexivity|].
  change (List.last (y :: l) d = List.last (y :: l) d'). apply IH.
Qed.

(** The loop returns the last colour it visits. *)
Lemma adjustLoop_last_of_trace (n : nat) (shouldLighten : bool) (bgRgb : RGB.t)
    (targetRatio : number) (adjusted : RGB.t) :
  adjustLoop n shouldLighten bgRgb targetRatio adjusted =
  List.last (adjustTrace n shouldLighten bgRgb targetRatio adjusted) adjusted.
Proof.
  revert adjusted. induction n as [|n IH]; intros adjusted; simpl; [reflexivity|].
  destruct (targetRatio <=? getContrastRatio (adjustStep shouldLighten adjusted) bgRgb);
    [reflexivity|].
  rewrite IH.
  destruct (adjustTrace n shouldLighten bgRgb targetRatio (adjustStep shouldLighten adjusted))
    as [|c rest]; [reflexivity|].
  change (List.last (c :: rest) (adjustStep shouldLighten adjusted) = List.last (c :: rest) adjusted).
  apply last_cons_default.
Qed.

(** The loop runs at most the number of iterations it is given. *)
Lemma adjustTrace_length (n : nat) (shouldLighten : bool) (bgRgb : RGB.t)
    (targetRatio : number) (adjusted : RGB.t) :
  (List.length (adjustTrace n shouldLighten bgRgb targetRatio adjusted) <= n)%nat.
Proof.
  revert adjusted. induction n as [|n IH]; intros adjusted; simpl; [lia|].
  destruct (targetRatio <=? getContrastRatio (adjustStep shouldLighten adjusted) bgRgb);
    simpl; [lia|]. specialize (IH (adjustStep shouldLighten adjusted)). lia.
Qed.

End ContrastRepair.

(** C7. Background #000000, text #222222, target 4.5: the ratio (about
    1.32) is below the target and the background is dark, so the loop
    lightens; every iteration adds 15 to each channel of the text colour;
    the contrast ratio never decreases from one iteration to the next; the
    loop stops after its sixth iteration, the first whose ratio is at
    least 4.5, well within the 20 it may run; [adjustForContrast] returns
    that colour, #7c7c7c. *)
Theorem contrast_repair_black_on_222222 :
  let bg := RGB.mk 0 0 0 in
  let text := RGB.mk 34 34 34 in
  let ratio := fun c => getContrastRatio c bg in
  let visited := adjustTrace 20 (PrimFloat.ltb (getRelativeLuminance bg) 0.5) bg 4.5 text in
  css_parseColor "#000000" = Some bg /\
  css_parseColor "#222222" = Some text /\
  PrimFloat.ltb (getContrastRatio bg text) 4.5 = true /\
  PrimFloat.ltb (getRelativeLuminance bg) 0.5 = true /\
  visited = [ lighter15 text;
              lighter15 (lighter15 text);
              lighter15 (lighter15 (lighter15 text));
              lighter15 (lighter15 (lighter15 (lighter15 text)));
              lighter15 (lighter15 (lighter15 (lighter15 (lighter15 text))));
              lighter15 (lighter15 (lighter15 (lighter15 (lighter15 (lighter15 text))))) ] /\
  nondecreasing (ratio text :: List.map ratio visited) = true /\
  List.map (fun c => PrimFloat.leb 4.5 (ratio c)) visited
    = [false; false; false; false; false; true] /\
  (List.length visited <= 20)%nat /\
  adjustForContrast text bg 4.5 = List.last visited text /\
  css_rgbToHex (adjustForContrast text bg 4.5) = "#7c7c7c".
Proof. vm_compute. repeat split; try reflexivity. lia. Qed.

(** ** The colour parser *)

Section ParseColorProperties.

Lemma parse_cache_sound_empty : parse_cache_sound ∅.
Proof. intros k v H. rewrite lookup_empty in H. discriminate. Qed.

(** With a sound cache [parseColor] is a function of its argument. *)
Lemma parseColor_sound (color : string) (cache : gmap string RGBA.t) :
  parse_cache_sound cache ->
  (parseColor color cache).1 = parseColor_normalized (JS.toLowerCase (JS.trim color)) /\
  parse_cache_sound (parseColor color cache).2.
Proof.
  intros Hs. unfold parseColor.
  destruct (cache !! JS.toLowerCase (JS.trim color)) as [cached|] eqn:Hc.
  - split; [symmetry; apply Hs, Hc | exact Hs].
  - destruct (parseColor_normalized (JS.toLowerCase (JS.trim color))) as [rgb|] eqn:Hp;
      (split; [reflexivity|]); [|exact Hs].
    intros k v. simpl. destruct (decide (JS.toLowerCase (JS.trim color) = k)) as [<-|Hne].
    + rewrite lookup_insert_eq. intros [= <-]. exact Hp.
    + rewrite lookup_insert_ne by exact Hne. apply Hs.
Qed.

(** The CSS keyword values are never parsed, and never cached. *)
Lemma parseColor_keyword (color : string) (cache : gmap string RGBA.t) :
  parse_cache_sound cache ->
  is_keyword (JS.toLowerCase (JS.trim color)) = true ->
  parseColor color cache = (None, cache).
Proof.
  intros Hs Hk. unfold parseColor.
  assert (parseColor_normalized (JS.toLowerCase (JS.trim color)) = None) as Hn
    by (unfold parseColor_normalized; rewrite Hk; reflexivity).
  destruct (cache !! JS.toLowerCase (JS.trim color)) as [cached|] eqn:Hc.
  - apply Hs in Hc. congruence.
  - rewrite Hn. reflexivity.
Qed.

End ParseColorProperties.

(** C8 at its failing inputs: a three-character hex string without hex
    digits is not rejected, [parseHex] hands back NaN channels where
    [parseRGB] on channels that are not numbers answers null; and the name
    of a member every object inherits parses as black. *)
Theorem parseColor_unparseable_not_null :
  (parseColor "#ggg" ∅).1 = Some (RGBA.mk nan nan nan 1) /\
  (parseColor "rgb(g, g, g)" ∅).1 = None /\
  (parseColor "constructor" ∅).1 = Some (RGBA.mk 0 0 0 1) /\
  (parseColor " Inherit " ∅).1 = None.
Proof. vm_compute. repeat split; reflexivity. Qed.

(** ** Determinism of [transformColor] within one theme instance *)

Section StringFacts.

Lemma string_app_cons (c : ascii) (s t : string) : String c s +:+ t = String c (s +:+ t).
Proof. reflexivity. Qed.

Lemma string_app_assoc (s1 s2 s3 : string) : (s1 +:+ s2) +:+ s3 = s1 +:+ (s2 +:+ s3).
Proof.
  induction s1 as [|c s1 IH]; [reflexivity|].
  rewrite !string_app_cons, IH. reflexivity.
Qed.

Lemma string_app_length (s1 s2 : string) :
  String.length (s1 +:+ s2) = String.length s1 + String.length s2.
Proof.
  induction s1 as [|c s1 IH]; [reflexivity|].
  rewrite string_app_cons. simpl. rewrite IH. reflexivity.
Qed.

Lemma string_app_inv_tail (s1 s2 t : string) : s1 +:+ t = s2 +:+ t -> s1 = s2.
Proof.
  revert s2. induction s1 as [|c s1 IH]; intros [|c' s2] H.
  - reflexivity.
  - apply (f_equal String.length) in H. rewrite !string_app_length in H. simpl in H. lia.
  - apply (f_equal String.length) in H. rewrite !string_app_length in H. simpl in H. lia.
  - rewrite !string_app_cons in H. injection H as -> H. f_equal. apply IH, H.
Qed.

End StringFacts.

Section CacheIds.

(** The cache id of the modification caches is the palette key followed
    by a text that depends on the theme only. *)
Lemma getCacheId_getRGBKey (rgb : RGBA.t) (theme : ThemeProfile) :
  getCacheId rgb theme =
  getRGBKey rgb +:+ "," +:+ ThemeId_string (id theme) +:+ "," +:+
  show_optional (filter_of theme brightness) +:+ "," +:+
  show_optional (filter_of theme contrast).
Proof. unfold getCacheId, getRGBKey. rewrite !string_app_assoc. reflexivity. Qed.

Lemma getCacheId_inj (theme : ThemeProfile) (c1 c2 : RGBA.t) :
  getCacheId c1 theme = getCacheId c2 theme -> getRGBKey c1 = getRGBKey c2.
Proof. rewrite !getCacheId_getRGBKey. apply string_app_inv_tail. Qed.

End CacheIds.

Section ParseSoundness.

Lemma parseColor_sound_pair (color : string) (cache : gmap string RGBA.t) :
  parse_cache_sound cache ->
  exists cache', parseColor color cache =
                   (parseColor_normalized (JS.toLowerCase (JS.trim color)), cache') /\
                 parse_cache_sound cache'.
Proof.
  intros Hs. destruct (parseColor_sound color cache Hs) as [H1 H2].
  exists (parseColor color cache).2. split; [|exact H2].
  rewrite <- H1. destruct (parseColor color cache); reflexivity.
Qed.

(** With a sound parse cache the poles are those parsed afresh. *)
Lemma getColorPoles_sound (theme : ThemeProfile) (cache : gmap string RGBA.t) :
  parse_cache_sound cache ->
  exists cache', getColorPoles theme cache = ((getColorPoles theme ∅).1, cache') /\
                 parse_cache_sound cache'.
Proof.
  intros Hs. unfold getColorPoles.
  destruct (parseColor_sound_pair (background (palette theme)) ∅ parse_cache_sound_empty)
    as (e1 & -> & He1).
  destruct (parseColor_sound_pair (text (palette theme)) e1 He1) as (e2 & -> & He2).
  destruct (parseColor_sound_pair (surface (palette theme)) e2 He2) as (e3 & -> & He3).
  destruct (parseColor_sound_pair (background (palette theme)) cache Hs) as (c1 & -> & Hc1).
  destruct (parseColor_sound_pair (text (palette theme)) c1 Hc1) as (c2 & -> & Hc2).
  destruct (parseColor_sound_pair (surface (palette theme)) c2 Hc2) as (c3 & -> & Hc3).
  exists c3. split; [reflexivity | exact Hc3].
Qed.

End ParseSoundness.

Section WithinOneTheme.
Variables (theme : ThemeProfile) (mode : option ThemeMode) (colours : RGBA.t -> Prop).
Hypothesis colours_inj : keys_injective colours.

Lemma selectModifier_body (role : ColorType) (n : nat) :
  fn_body (selectModifier role (darkDisposition theme mode) n) =
  body_of (darkDisposition theme mode) (fn_id (selectModifier role (darkDisposition theme mode) n)).
Proof. destruct role; simpl; destruct (darkDisposition theme mode); reflexivity. Qed.

Lemma uncachedModify_closure (role : ColorType) (n : nat) (rgb : RGBA.t) :
  uncachedModify theme mode (fn_id (selectModifier role (darkDisposition theme mode) n)) rgb =
  uncachedTransform theme mode role rgb.
Proof.
  unfold uncachedTransform, uncachedModify.
  destruct role; simpl; destruct (darkDisposition theme mode); reflexivity.
Qed.

(** [modifyColorWithCache] returns the uncached value and keeps the caches
    coherent. *)
Lemma modifyColorWithCache_coherent (rgb : RGBA.t) (role : ColorType) (n : nat) (st : Caches) :
  coherent theme mode colours st -> colours rgb ->
  exists st',
    modifyColorWithCache rgb theme (selectModifier role (darkDisposition theme mode) n) st =
      (uncachedTransform theme mode role rgb, st') /\
    coherent theme mode colours st' /\
    colorPalettes st' = colorPalettes st.
Proof.
  intros [Hparse Hmatrix Hmod Hpal] Hrgb.
  set (modifier := selectModifier role (darkDisposition theme mode) n).
  unfold modifyColorWithCache.
  set (fnCache := default ∅ (colorModificationCache st !! fn_id modifier)).
  assert (forall key value, fnCache !! key = Some value ->
            forall c, colours c -> getCacheId c theme = key ->
              value = uncachedModify theme mode (fn_id modifier) c) as HfnCache.
  { subst fnCache. destruct (colorModificationCache st !! fn_id modifier) as [fc|] eqn:Hfc; simpl.
    - intros key value. apply (Hmod _ _ _ _ Hfc).
    - intros key value H. rewrite lookup_empty in H. discriminate. }
  destruct (fnCache !! getCacheId rgb theme) as [cached|] eqn:Hhit.
  - eexists. split.
    { rewrite (HfnCache _ _ Hhit rgb Hrgb eq_refl). subst modifier.
      rewrite uncachedModify_closure. reflexivity. }
    split; [|reflexivity].
    + constructor; simpl; try assumption.
      intros f fc key value Hf. destruct (decide (fn_id modifier = f)) as [<-|Hne].
      * rewrite lookup_insert_eq in Hf. injection Hf as <-. apply HfnCache.
      * rewrite lookup_insert_ne in Hf by exact Hne. apply (Hmod _ _ _ _ Hf).
  - destruct (getColorPoles_sound theme (rgbaParseCache st) Hparse) as (pc & -> & Hpc).
    unfold getCachedFilterMatrix.
    assert (uncachedModify theme mode (fn_id modifier) rgb =
            uncachedTransform theme mode role rgb) as Hexp
      by apply uncachedModify_closure.
    assert (modifyColor rgb theme (fn_body modifier) (getColorPoles theme ∅).1
              (createFilterMatrix theme false) = uncachedModify theme mode (fn_id modifier) rgb)
      as Hval.
    { unfold uncachedModify. subst modifier. rewrite selectModifier_body. reflexivity. }
    assert (forall f fc key value,
              <[fn_id modifier :=
                  <[getCacheId rgb theme := uncachedModify theme mode (fn_id modifier) rgb]> fnCache]>
                (colorModificationCache st) !! f = Some fc ->
              fc !! key = Some value ->
              forall c, colours c -> getCacheId c theme = key ->
                value = uncachedModify theme mode f c) as Hmod'.
    { intros f fc key value Hf. destruct (decide (fn_id modifier = f)) as [<-|Hne].
      - rewrite lookup_insert_eq in Hf. injection Hf as <-.
        destruct (decide (getCacheId rgb theme = key)) as [<-|Hk].
        + rewrite lookup_insert_eq. intros [= <-] c Hc Hkey.
          rewrite (colours_inj c rgb Hc Hrgb (getCacheId_inj theme _ _ Hkey)). reflexivity.
        + rewrite lookup_insert_ne by exact Hk. apply HfnCache.
      - rewrite lookup_insert_ne in Hf by exact Hne. apply (Hmod _ _ _ _ Hf). }
    rewrite Hexp in Hmod'.
    destruct (matrixCache st !! matrixKey theme false) as [m|] eqn:Hm.
    + rewrite (Hmatrix m eq_refl), Hval.
      eexists. split; [rewrite Hexp; reflexivity|]. split; [|reflexivity].
      constructor; simpl; try assumption.
      intros m' Hm'. rewrite Hm in Hm'. apply Hmatrix, Hm'.
    + rewrite Hval.
      eexists. split; [rewrite Hexp; reflexivity|]. split; [|reflexivity].
      constructor; simpl; try assumption.
      intros m'. rewrite lookup_insert_eq. congruence.
Qed.

(** [transformColor] returns the uncached value and keeps the caches
    coherent. *)
Lemma transformColor_coherent (rgb : RGBA.t) (role : ColorType) (shouldRegister : option bool)
    (st : Caches) :
  coherent theme mode colours st -> colours rgb ->
  exists st',
    transformColor rgb role theme mode shouldRegister st =
      (uncachedTransform theme mode role rgb, st') /\
    coherent theme mode colours st'.
Proof.
  intros Hco Hrgb. unfold transformColor.
  set (registered := if default true shouldRegister then _ else None).
  assert (forall value, registered = Some value ->
            value = uncachedTransform theme mode role rgb) as Hreg.
  { subst registered. destruct (default true shouldRegister); [|discriminate].
    unfold getRegisteredColor.
    destruct (colorPalettes st !! role) as [pal|] eqn:Hpal; [|discriminate].
    destruct (pal !! getRGBKey rgb) as [v|] eqn:Hv; [|discriminate].
    destruct (String.eqb v ""); [discriminate|]. intros value [= <-].
    apply (coherent_palette _ _ _ _ Hco _ _ _ _ Hpal Hv rgb Hrgb eq_refl). }
  destruct registered as [value|].
  - exists st. split; [rewrite (Hreg value eq_refl); reflexivity | exact Hco].
  - clear Hreg.
    destruct (modifyColorWithCache_coherent rgb role (closures st) st Hco Hrgb)
      as (st1 & Hrun & Hco1 & Hpal1).
    fold (darkDisposition theme mode). rewrite Hrun.
    eexists. split; [reflexivity|].
    destruct Hco1 as [Hparse Hmatrix Hmod Hpal].
    constructor; simpl; try assumption.
    destruct (default true shouldRegister); [|exact Hpal].
    intros role' pal key value Hrole. unfold registerColor in Hrole.
    destruct (decide (role = role')) as [<-|Hne].
    + rewrite lookup_insert_eq in Hrole. injection Hrole as <-.
      destruct (decide (getRGBKey rgb = key)) as [<-|Hk].
      * rewrite lookup_insert_eq. intros [= <-] c Hc Hkey.
        rewrite (colours_inj c rgb Hc Hrgb Hkey). reflexivity.
      * rewrite lookup_insert_ne by exact Hk.
        destruct (colorPalettes st1 !! role) as [old|] eqn:Hold; simpl.
        -- apply (Hpal _ _ _ _ Hold).
        -- intros H. rewrite lookup_empty in H. discriminate.
    + rewrite lookup_insert_ne in Hrole by exact Hne. apply (Hpal _ _ _ _ Hrole).
Qed.

(** A flush leaves coherent caches, whatever was cached before. *)
Lemma clearColorCache_coherent (st : Caches) :
  parse_cache_sound (rgbaParseCache st) -> coherent theme mode colours (clearColorCache st).
Proof.
  intros Hs. constructor; simpl.
  - exact Hs.
  - intros m H. rewrite lookup_empty in H. discriminate.
  - intros f fc key value H. rewrite lookup_empty in H. discriminate.
  - intros role pal key value H. unfold clearColorPalette in H.
    rewrite lookup_fmap in H. destruct (colorPalettes st !! role); [|discriminate].
    simpl in H. injection H as <-. intros H. rewrite lookup_empty in H. discriminate.
Qed.

(** Every call of a run returns the uncached value. *)
Lemma run_outputs (events : list event) (st : Caches) :
  coherent theme mode colours st ->
  (forall rgb, colours_of events rgb -> colours rgb) ->
  (run theme mode events st).1 = uncachedOutputs theme mode events.
Proof.
  unfold uncachedOutputs. revert st. induction events as [|[rgb role sr|] events IH]; intros st Hco Hcol; simpl.
  - reflexivity.
  - assert (colours rgb) as Hrgb by (apply Hcol; exists role, sr; left; reflexivity).
    destruct (transformColor_coherent rgb role sr st Hco Hrgb) as (st' & -> & Hco').
    specialize (IH st' Hco').
    destruct (run theme mode events st') as [outs st'']. simpl in *. f_equal. apply IH.
    intros c (r & s & Hin). apply Hcol. exists r, s. right. exact Hin.
  - specialize (IH (clearColorCache st)).
    destruct (run theme mode events (clearColorCache st)) as [outs st'']. simpl in *.
    f_equal. apply IH.
    + apply clearColorCache_coherent, (coherent_parse _ _ _ _ Hco).
    + intros c (r & s & Hin). apply Hcol. exists r, s. right. exact Hin.
Qed.

End WithinOneTheme.

Section Reachability.

Lemma transformColor_parse_sound rgb role theme mode shouldRegister st :
  parse_cache_sound (rgbaParseCache st) ->
  parse_cache_sound (rgbaParseCache (transformColor rgb role theme mode shouldRegister st).2).
Proof.
  intros Hs. unfold transformColor.
  match goal with |- context [match ?r with Some _ => _ | None => _ end] => destruct r end;
    [exact Hs|].
  unfold modifyColorWithCache.
  match goal with |- context [?m !! getCacheId rgb theme] => destruct (m !! getCacheId rgb theme) end;
    simpl; [exact Hs|].
  destruct (getColorPoles_sound theme (rgbaParseCache st) Hs) as (pc & -> & Hpc).
  destruct (getCachedFilterMatrix theme false (matrixCache st)). simpl. exact Hpc.
Qed.

Lemma transformCSSColor_parse_sound value role theme mode st :
  parse_cache_sound (rgbaParseCache st) ->
  parse_cache_sound (rgbaParseCache (transformCSSColor value role theme mode st).2).
Proof.
  intros Hs. unfold transformCSSColor, parseColorCached.
  destruct (parseCache st !! value) as [[rgb|]|].
  - pose proof (transformColor_parse_sound rgb role theme mode None st Hs) as H.
    destruct (transformColor rgb role theme mode None st). exact H.
  - exact Hs.
  - destruct (parseColor_sound_pair value (rgbaParseCache st) Hs) as (pc & -> & Hpc).
    destruct (parseColor_normalized _) as [rgb|]; [|exact Hpc].
    match goal with |- context [transformColor rgb role theme mode None ?s] =>
      pose proof (transformColor_parse_sound rgb role theme mode None s Hpc) as H;
      destruct (transformColor rgb role theme mode None s) end.
    exact H.
Qed.

Lemma caches_reachable_sound (st : Caches) :
  caches_reachable st -> parse_cache_sound (rgbaParseCache st).
Proof.
  induction 1.
  - apply parse_cache_sound_empty.
  - apply transformColor_parse_sound; assumption.
  - apply transformCSSColor_parse_sound; assumption.
  - assumption.
Qed.

End Reachability.

Lemma uncachedOutputs_lookup theme mode events i rgb role shouldRegister :
  events !! i = Some (Call rgb role shouldRegister) ->
  uncachedOutputs theme mode events !! i = Some (Some (uncachedTransform theme mode role rgb)).
Proof.
  unfold uncachedOutputs. revert i. induction events as [|ev events IH]; intros [|i] H;
    try discriminate; simpl in *.
  - injection H as ->. reflexivity.
  - apply IH, H.
Qed.

Lemma uncachedOutputs_deterministic theme mode events :
  deterministic events (uncachedOutputs theme mode events).
Proof.
  intros i j rgb role s1 s2 out1 out2 Hi Hj Ho1 Ho2.
  rewrite (uncachedOutputs_lookup _ _ _ _ _ _ _ Hi) in Ho1.
  rewrite (uncachedOutputs_lookup _ _ _ _ _ _ _ Hj) in Ho2.
  congruence.
Qed.

(** C1, as stated, fails: the palette is keyed by role and colour only, so
    a call for "light" made after a call for "dark" returns the value
    registered for "dark", and the same call made again after a flush
    returns the value of "light". *)
Lemma transformColor_depends_on_other_themes :
  let white := RGBA.mk 255 255 255 1 in
  let '(out0, st1) := transformColor white background_t darkProfile None None initial_caches in
  let '(out1, st2) := transformColor white background_t lightProfile None None st1 in
  let '(out2, st3) := transformColor white background_t lightProfile None None (clearColorCache st2) in
  out0 = "#101212" /\ out1 = "#101212" /\ out2 = "#979593" /\ out1 <> out2.
Proof. vm_compute. repeat split; try reflexivity. discriminate. Qed.

(** C1 (amended). Within one theme instance [transformColor] is
    deterministic.  Start from any reachable state of the caches and flush
    them, as every theme switch does; then run any sequence of
    [transformColor] calls for one theme profile and one mode option,
    interleaved with further flushes, over colours with distinct keys.
    Every call returns what the uncached pipeline computes for its colour
    and role, so two calls with identical colour and role return identical
    text, whatever happened in between. *)
Theorem transformColor_deterministic_within_theme
    (theme : ThemeProfile) (mode : option ThemeMode) (st0 : Caches) (events : list event) :
  caches_reachable st0 ->
  keys_injective (colours_of events) ->
  let outs := (run theme mode events (clearColorCache st0)).1 in
  outs = uncachedOutputs theme mode events /\ deterministic events outs.
Proof.
  intros Hreach Hinj outs.
  assert (outs = uncachedOutputs theme mode events) as ->.
  { subst outs. apply (run_outputs theme mode (colours_of events) Hinj).
    - apply clearColorCache_coherent, caches_reachable_sound, Hreach.
    - auto. }
  split; [reflexivity | apply uncachedOutputs_deterministic].
Qed.

Section Witness.

Lemma sample_events_keys_injective : keys_injective (colours_of sample_events).
Proof.
  assert (forall c, colours_of sample_events c -> c = white \/ c = steel) as Hc.
  { intros c (role & sr & Hin). simpl in Hin.
    repeat match goal with
           | H : _ \/ _ |- _ => destruct H as [H|H]
           | H : False |- _ => destruct H
           | H : Flush = Call _ _ _ |- _ => discriminate H
           | H : Call _ _ _ = Call _ _ _ |- _ => injection H as <- _ _
           end; auto. }
  intros c1 c2 H1 H2 Hk.
  destruct (Hc c1 H1) as [-> | ->], (Hc c2 H2) as [-> | ->];
    try reflexivity; vm_compute in Hk; discriminate.
Qed.

End Witness.

Lemma transformColor_deterministic_within_theme_witness :
  let st0 := (transformColor white background_t lightProfile None None initial_caches).2 in
  let outs := (run darkProfile None sample_events (clearColorCache st0)).1 in
  outs = uncachedOutputs darkProfile None sample_events /\ deterministic sample_events outs.
Proof.
  apply (transformColor_deterministic_within_theme darkProfile None
           (transformColor white background_t lightProfile None None initial_caches).2
           sample_events).
  - apply reach_transformColor, reach_initial.
  - apply sample_events_keys_injective.
Defined.

(** ** The perceptual-correction matrix *)

Section PerceptualCorrection.

(** [createFilterMatrix] picks the gamma by its [isDarkMode] argument:
    2.0 for dark, 2.2 for light. *)
Lemma createFilterMatrix_gamma (theme : ThemeProfile) (isDarkMode : bool) :
  createFilterMatrix theme isDarkMode =
  composeMatrices (filterBase theme)
    (createGammaMatrix (if isDarkMode then 2.0%float else 2.2%float)).
Proof. unfold createFilterMatrix, filterBase. destruct isDarkMode; reflexivity. Qed.

(** On flushed caches the first transform misses every cache. *)
Lemma transformColor_after_flush (rgb : RGBA.t) (role : ColorType) (theme : ThemeProfile)
    (mode : option ThemeMode) (shouldRegister : option bool) (st0 : Caches) :
  let st := clearColorCache st0 in
  let modifier := selectModifier role (darkDisposition theme mode) (closures st) in
  let poles := (getColorPoles theme (rgbaParseCache st)).1 in
  let matrix := createFilterMatrix theme false in
  (transformColor rgb role theme mode shouldRegister st).1
    = modifyColor rgb theme (fn_body modifier) poles matrix /\
  matrixCache (transformColor rgb role theme mode shouldRegister st).2
    = {[ matrixKey theme false := matrix ]}.
Proof.
  intros st modifier poles matrix. unfold transformColor.
  assert (getRegisteredColor role rgb (colorPalettes st) = None) as Hreg.
  { unfold getRegisteredColor. subst st. simpl. unfold clearColorPalette.
    rewrite lookup_fmap. destruct (colorPalettes st0 !! role); simpl; [|reflexivity].
    apply lookup_empty. }
  rewrite Hreg. destruct (default true shouldRegister).
  - fold (darkDisposition theme mode). fold modifier. unfold modifyColorWithCache.
    subst st. cbn [colorModificationCache clearColorCache matrixCache rgbaParseCache].
    rewrite lookup_empty. cbn [default]. rewrite lookup_empty.
    unfold getCachedFilterMatrix. rewrite lookup_empty.
    subst poles. cbn [clearColorCache rgbaParseCache].
    destruct (getColorPoles theme (rgbaParseCache st0)) as [p c]. simpl. split; reflexivity.
  - fold (darkDisposition theme mode). fold modifier. unfold modifyColorWithCache.
    subst st. cbn [colorModificationCache clearColorCache matrixCache rgbaParseCache].
    rewrite lookup_empty. cbn [default]. rewrite lookup_empty.
    unfold getCachedFilterMatrix. rewrite lookup_empty.
    subst poles. cbn [clearColorCache rgbaParseCache].
    destruct (getColorPoles theme (rgbaParseCache st0)) as [p c]. simpl. split; reflexivity.
Qed.

Lemma ThemeId_string_inj (i j : ThemeId) : ThemeId_string i = ThemeId_string j -> i = j.
Proof. destruct i, j; intros H; try reflexivity; discriminate H. Qed.

(** The key of the matrix cache stands for the theme id and the mode. *)
Lemma matrixKey_inj (th th' : ThemeProfile) :
  matrixKey th' false = matrixKey th false -> id th' = id th.
Proof.
  unfold matrixKey. intros H. apply ThemeId_string_inj.
  exact (string_app_inv_tail _ _ _ H).
Qed.

Lemma getCachedFilterMatrix_light (theme : ThemeProfile) (cache : gmap string ColorMatrix) :
  matrix_cache_light cache ->
  matrix_cache_light (getCachedFilterMatrix theme false cache).2.
Proof.
  intros H. unfold getCachedFilterMatrix.
  destruct (cache !! matrixKey theme false) as [m|] eqn:E; [exact H|]. cbn [snd].
  intros key m. destruct (decide (matrixKey theme false = key)) as [<-|Hne].
  - rewrite lookup_insert_eq. intros [= <-]. exists theme. split; [reflexivity|].
    exact (createFilterMatrix_gamma theme false).
  - rewrite lookup_insert_ne by exact Hne. apply H.
Qed.

Lemma modifyColorWithCache_light rgb theme modifier st :
  matrix_cache_light (matrixCache st) ->
  matrix_cache_light (matrixCache (modifyColorWithCache rgb theme modifier st).2).
Proof.
  intros H. unfold modifyColorWithCache.
  destruct (_ !! getCacheId rgb theme); [exact H|].
  destruct (getColorPoles theme (rgbaParseCache st)) as [poles rgbaCache].
  pose proof (getCachedFilterMatrix_light theme (matrixCache st) H) as H'.
  destruct (getCachedFilterMatrix theme false (matrixCache st)) as [matrix mCache].
  exact H'.
Qed.

Lemma transformColor_light rgb role theme mode shouldRegister st :
  matrix_cache_light (matrixCache st) ->
  matrix_cache_light (matrixCache (transformColor rgb role theme mode shouldRegister st).2).
Proof.
  intros H. unfold transformColor.
  match goal with |- context [match ?r with Some _ => _ | None => _ end] => destruct r end;
    [exact H|].
  match goal with |- context [modifyColorWithCache rgb theme ?m st] =>
    pose proof (modifyColorWithCache_light rgb theme m st H) as H';
    destruct (modifyColorWithCache rgb theme m st) end.
  exact H'.
Qed.

Lemma transformCSSColor_light value role theme mode st :
  matrix_cache_light (matrixCache st) ->
  matrix_cache_light (matrixCache (transformCSSColor value role theme mode st).2).
Proof.
  intros H. unfold transformCSSColor, parseColorCached.
  destruct (parseCache st !! value) as [[rgb|]|].
  - pose proof (transformColor_light rgb role theme mode None st H) as H'.
    destruct (transformColor rgb role theme mode None st). exact H'.
  - exact H.
  - destruct (parseColor value (rgbaParseCache st)) as [[rgb|] rgbaCache]; [|exact H].
    match goal with |- context [transformColor rgb role theme mode None ?s] =>
      pose proof (transformColor_light rgb role theme mode None s H) as H';
      destruct (transformColor rgb role theme mode None s) end.
    exact H'.
Qed.

(** No state the caches reach holds a matrix built for the dark
    disposition. *)
Lemma caches_reachable_light (st : Caches) :
  caches_reachable st -> matrix_cache_light (matrixCache st).
Proof.
  induction 1 as [|st rgb role theme mode shouldRegister _ IH|st value role theme mode _ IH|st _ _].
  - intros key m Hm. cbn [initial_caches matrixCache] in Hm. rewrite lookup_empty in Hm.
    discriminate.
  - apply transformColor_light, IH.
  - apply transformCSSColor_light, IH.
  - intros key m Hm. cbn [clearColorCache matrixCache] in Hm. rewrite lookup_empty in Hm.
    discriminate.
Qed.

(** A transform that neither cache answers, in terms of the matrix the
    matrix cache hands out. *)
Lemma transformColor_unanswered (rgb : RGBA.t) (role : ColorType) (theme : ThemeProfile)
    (mode : option ThemeMode) (shouldRegister : option bool) (st : Caches) :
  parse_cache_sound (rgbaParseCache st) ->
  let modifier := selectModifier role (darkDisposition theme mode) (closures st) in
  answered_from_palette rgb role shouldRegister st = false ->
  answered_from_function_cache rgb theme modifier st = false ->
  let r := transformColor rgb role theme mode shouldRegister st in
  r.1 = modifyColor rgb theme (fn_body modifier) (getColorPoles theme ∅).1
          (getCachedFilterMatrix theme false (matrixCache st)).1 /\
  matrixCache r.2 = (getCachedFilterMatrix theme false (matrixCache st)).2.
Proof.
  intros Hs modifier Hpal Hfn r. subst r. unfold transformColor.
  fold (darkDisposition theme mode). fold modifier.
  assert ((if default true shouldRegister
           then match getRegisteredColor role rgb (colorPalettes st) with
                | Some value => if String.eqb value "" then None else Some value
                | None => None
                end
           else None) = None) as ->.
  { unfold answered_from_palette in Hpal. destruct (default true shouldRegister); [|reflexivity].
    destruct (getRegisteredColor role rgb (colorPalettes st)) as [v|]; [|reflexivity].
    destruct (String.eqb v ""); [reflexivity | discriminate]. }
  unfold modifyColorWithCache. unfold answered_from_function_cache in Hfn.
  destruct (_ !! getCacheId rgb theme); [discriminate|].
  destruct (getColorPoles_sound theme (rgbaParseCache st) Hs) as (pc & -> & _).
  destruct (getCachedFilterMatrix theme false (matrixCache st)) as [matrix mCache].
  split; reflexivity.
Qed.

End PerceptualCorrection.

(** C2, as stated, fails: for the dark theme the matrix applied is the one
    built for the light disposition, with gamma 2.2; the matrix built for
    the theme's dark mode, with gamma 2.0, is never requested, and it would
    give another colour. *)
Lemma dark_theme_corrected_with_light_gamma :
  let rgb := RGBA.mk 255 255 255 1 in
  let '(out, st) := transformColor rgb background_t darkProfile None None initial_caches in
  let poles := (getColorPoles darkProfile ∅).1 in
  isDarkModeOf (detectThemeMode darkProfile) = true /\
  matrixCache st !! matrixKey darkProfile true = None /\
  (matrix_description <$> matrixCache st !! matrixKey darkProfile false)
    = Some "Identity (no transformation) + Gamma 2.20 correction" /\
  out = modifyColor rgb darkProfile transformBackgroundDarkMode poles
          (createFilterMatrix darkProfile false) /\
  out <> modifyColor rgb darkProfile transformBackgroundDarkMode poles
           (createFilterMatrix darkProfile true).
Proof. vm_compute. repeat split; try reflexivity. discriminate. Qed.

(** The matrix cached for a profile outlives a change of its filters: after
    a call for the dark theme, the profile with the same id and brightness
    1.5 is corrected with the matrix cached under its id, not with the one
    [createFilterMatrix] builds for it. *)
Lemma cached_matrix_outlives_profile_change :
  let st := (transformColor white background_t darkProfile None None initial_caches).2 in
  (transformColor steel text_t brighterDark None None st).1 = "#406e9e" /\
  (transformColor steel text_t brighterDark None None initial_caches).1 = "#60a5ed" /\
  (getCachedFilterMatrix brighterDark false (matrixCache st)).1
    = createFilterMatrix darkProfile false.
Proof. vm_compute. repeat split; reflexivity. Qed.

(** C2 (amended). For every input colour and theme, in every state the
    caches reach, the perceptual-correction step of a transform that is
    answered neither from the palette nor from the function cache applies
    the matrix the matrix cache hands out under the theme's id and the
    light disposition.  That matrix is built with gamma 2.2, whether the
    theme's mode is dark or light: it is the brightness and contrast
    matrices of a profile with the theme's id composed with the gamma 2.2
    matrix, and the profile is the theme itself when nothing is cached
    under its id (as after a flush); a matrix cached for another profile
    with the same id is used as it is.  No state the caches reach holds a
    matrix built with gamma 2.0.  [createFilterMatrix] itself composes
    gamma 2.0 when handed [true] and gamma 2.2 when handed [false]. *)
Theorem perceptual_correction_uses_light_matrix
    (rgb : RGBA.t) (role : ColorType) (theme : ThemeProfile) (mode : option ThemeMode)
    (shouldRegister : option bool) (st : Caches) :
  caches_reachable st ->
  let modifier := selectModifier role (darkDisposition theme mode) (closures st) in
  answered_from_palette rgb role shouldRegister st = false ->
  answered_from_function_cache rgb theme modifier st = false ->
  let r := transformColor rgb role theme mode shouldRegister st in
  let matrix := (getCachedFilterMatrix theme false (matrixCache st)).1 in
  r.1 = modifyColor rgb theme (fn_body modifier) (getColorPoles theme ∅).1 matrix /\
  (exists theme',
     id theme' = id theme /\
     (matrixCache st !! matrixKey theme false = None -> theme' = theme) /\
     matrix = composeMatrices (filterBase theme') (createGammaMatrix 2.2)) /\
  matrixCache r.2 !! matrixKey theme false = Some matrix /\
  matrix_cache_light (matrixCache r.2) /\
  createFilterMatrix theme false = composeMatrices (filterBase theme) (createGammaMatrix 2.2) /\
  createFilterMatrix theme true = composeMatrices (filterBase theme) (createGammaMatrix 2.0).
Proof.
  intros Hreach modifier Hpal Hfn r matrix.
  pose proof (caches_reachable_sound st Hreach) as Hs.
  pose proof (caches_reachable_light st Hreach) as Hl.
  destruct (transformColor_unanswered rgb role theme mode shouldRegister st Hs Hpal Hfn)
    as [Hout Hcache].
  fold r in Hout, Hcache. fold matrix in Hout.
  split; [exact Hout|]. split; [|split; [|split; [|split]]].
  - subst matrix. unfold getCachedFilterMatrix.
    destruct (matrixCache st !! matrixKey theme false) as [m|] eqn:E; cbn [fst].
    + destruct (Hl _ _ E) as (th & Hkey & ->). exists th.
      split; [apply matrixKey_inj; symmetry; exact Hkey|].
      split; [discriminate | reflexivity].
    + exists theme. split; [reflexivity|]. split; [reflexivity|].
      exact (createFilterMatrix_gamma theme false).
  - rewrite Hcache. subst matrix. unfold getCachedFilterMatrix.
    destruct (matrixCache st !! matrixKey theme false) as [m|] eqn:E; cbn [fst snd].
    + exact E.
    + apply lookup_insert_eq.
  - rewrite Hcache. apply getCachedFilterMatrix_light, Hl.
  - exact (createFilterMatrix_gamma theme false).
  - exact (createFilterMatrix_gamma theme true).
Qed.

(** After a call for the dark theme, a call for a profile with the same id
    and another brightness, for a colour neither cache knows. *)
Lemma perceptual_correction_uses_light_matrix_witness :
  let st := (transformColor white background_t darkProfile None None initial_caches).2 in
  let modifier := selectModifier text_t (darkDisposition brighterDark None) (closures st) in
  let r := transformColor steel text_t brighterDark None None st in
  let matrix := (getCachedFilterMatrix brighterDark false (matrixCache st)).1 in
  r.1 = modifyColor steel brighterDark (fn_body modifier) (getColorPoles brighterDark ∅).1 matrix /\
  (exists theme',
     id theme' = id brighterDark /\
     (matrixCache st !! matrixKey brighterDark false = None -> theme' = brighterDark) /\
     matrix = composeMatrices (filterBase theme') (createGammaMatrix 2.2)) /\
  matrixCache r.2 !! matrixKey brighterDark false = Some matrix /\
  matrix_cache_light (matrixCache r.2) /\
  createFilterMatrix brighterDark false
    = composeMatrices (filterBase brighterDark) (createGammaMatrix 2.2) /\
  createFilterMatrix brighterDark true
    = composeMatrices (filterBase brighterDark) (createGammaMatrix 2.0).
Proof.
  apply (perceptual_correction_uses_light_matrix steel text_t brighterDark None None
           (transformColor white background_t darkProfile None None initial_caches).2).
  - apply reach_transformColor, reach_initial.
  - vm_compute. reflexivity.
  - vm_compute. reflexivity.
Defined.

(** ** Theme switches and the registry *)

Section UpdateThemeProperties.

(** On a page without inline colours the registry after [updateTheme] is
    the registry before it with the entries indexed under the id of the
    new theme removed. *)
Lemma updateTheme_registry (newTheme : ThemeProfile) (opt : option bool)
    (sheets : list (string * ColorType)) (now : Z) (e : Engine) (w : World) :
  isDestroyed e = false ->
  colorRegistry (updateTheme newTheme opt {| sheetColors := sheets; inlineColors := nil |} now e w).2
  = clearTheme (ThemeId_string (id newTheme)) (colorRegistry w).
Proof. intros Hd. unfold updateTheme. rewrite Hd. reflexivity. Qed.

End UpdateThemeProperties.

(** C3 at its failing input.  The engine applies "dark" to a page with an
    element whose inline style sets color: rgb(10, 10, 10), which registers
    the colour as text under "dark"; the element leaves the page and
    [updateTheme] is called with "light".  The entry registered under the
    previous theme id is still in the registry and still answers look-ups
    for "dark": [updateTheme] cleared the id of the theme passed in. *)
Theorem updateTheme_keeps_previous_theme_entries :
  let page := {| sheetColors := nil; inlineColors := [("rgb(10, 10, 10)", text_t)] |} in
  let '(engine1, world1) := updateTheme darkProfile None page 1000 new_Engine initial_world in
  let '(engine2, world2) := updateTheme lightProfile None empty_page 2000 engine1 world1 in
  let rgb := RGBA.mk 10 10 10 1 in
  theme engine1 = Some darkProfile /\
  theme engine2 = Some lightProfile /\
  List.map (fun kv => (kv.1, themeId kv.2)) (registry (colorRegistry world1))
    = [("10,10,10,1", "dark")] /\
  registry (colorRegistry world2) = registry (colorRegistry world1) /\
  (getTransformed rgb text_t "dark" 2001 (colorRegistry world2)).1 = Some "#9b9996".
Proof. vm_compute. repeat split; reflexivity. Qed.

(** The content script calls [clear] before every [updateTheme]; [clear]
    runs while the engine still holds the previous theme and clears its id,
    so on that path the entry above is gone before [updateTheme] starts. *)
Lemma clear_before_updateTheme_removes_previous_entries :
  let page := {| sheetColors := nil; inlineColors := [("rgb(10, 10, 10)", text_t)] |} in
  let '(engine1, world1) := updateTheme darkProfile None page 1000 new_Engine initial_world in
  let '(engine2, world2) := engine_clear engine1 world1 in
  let '(engine3, world3) := updateTheme lightProfile None empty_page 2000 engine2 world2 in
  let rgb := RGBA.mk 10 10 10 1 in
  theme engine2 = None /\
  theme engine3 = Some lightProfile /\
  registry (colorRegistry world2) = nil /\
  registry (colorRegistry world3) = nil /\
  (getTransformed rgb text_t "dark" 2001 (colorRegistry world3)).1 = None.
Proof. vm_compute. repeat split; reflexivity. Qed.

(** ** Round trip RGB -> HSL -> RGB *)

Section RoundTripProofs.
Local Open Scope bool_scope.
Import JS.

Lemma In_channels (z : Z) : (0 <= z <= 255)%Z -> In (number_of_Z z) channels.
Proof.
  intros Hz. unfold channels.
  replace z with (Z.of_nat (Z.to_nat z)) by lia.
  apply (in_map (fun n => number_of_Z (Z.of_nat n))).
  apply in_seq. lia.
Qed.

(** *** The loops *)

Lemma down_In (n : nat) (z : Z) : In z (down n) <-> (0 <= z < Z.of_nat n)%Z.
Proof.
  induction n as [|n IH]; simpl.
  - lia.
  - rewrite IH. lia.
Qed.

Lemma down_split (n i : nat) :
  (i < n)%nat -> exists above, down n = above ++ Z.of_nat i :: down i.
Proof.
  induction n as [|n IH]; intros Hi; [lia|].
  destruct (Nat.eq_dec i n) as [->|Hne].
  - exists nil. reflexivity.
  - destruct IH as [above Habove]; [lia|].
    exists (Z.of_nat n :: above). simpl. rewrite Habove. reflexivity.
Qed.

(** The channel values from [hi] down to [lo], and what lies between. *)
Lemma down_between (hi lo : Z) :
  (0 <= lo)%Z -> (lo < hi)%Z -> (hi <= 255)%Z ->
  exists above between,
    down 256 = above ++ hi :: between ++ lo :: down (Z.to_nat lo) /\
    forall mid, (lo < mid < hi)%Z -> In mid between.
Proof.
  intros H0 Hlt H255.
  destruct (down_split 256 (Z.to_nat hi)) as [above Habove]; [lia|].
  destruct (down_split (Z.to_nat hi) (Z.to_nat lo)) as [between Hbetween]; [lia|].
  rewrite !Z2Nat.id in * by lia.
  exists above, between. split.
  - rewrite Habove, Hbetween. reflexivity.
  - intros mid Hmid.
    assert (Hin : In mid (down (Z.to_nat hi))) by (apply down_In; lia).
    rewrite Hbetween in Hin. apply in_app_or in Hin as [Hin|[Hin|Hin]].
    + exact Hin.
    + lia.
    + apply down_In in Hin. lia.
Qed.

Lemma check_lo_sound {A : Type} (P : A -> list A -> bool) (below : list A) :
  forall mids, check_lo P mids below = true ->
  forall between lo rest, below = between ++ lo :: rest ->
    P lo (List.rev between ++ mids) = true.
Proof.
  induction below as [|a below IH]; intros mids Hcheck between lo rest Hsplit.
  - destruct between; discriminate.
  - simpl in Hcheck. apply andb_prop in Hcheck as [Ha Hrest].
    destruct between as [|a' between]; simpl in Hsplit; injection Hsplit as <- Hsplit.
    + exact Ha.
    + simpl. rewrite <- List.app_assoc. simpl.
      exact (IH _ Hrest between lo rest Hsplit).
Qed.

Lemma check_hi_sound {A : Type} (P : A -> A -> list A -> bool) (es : list A) :
  check_hi P es = true ->
  forall above hi between lo rest, es = above ++ hi :: between ++ lo :: rest ->
    P hi lo (List.rev between) = true.
Proof.
  induction es as [|a es IH]; intros Hcheck above hi between lo rest Hsplit.
  - destruct above; discriminate.
  - simpl in Hcheck. apply andb_prop in Hcheck as [Ha Hrest].
    destruct above as [|a' above]; simpl in Hsplit; injection Hsplit as <- Hsplit.
    + pose proof (check_lo_sound (P a) es nil Ha between lo rest Hsplit) as H.
      rewrite List.app_nil_r in H. exact H.
    + exact (IH Hrest above hi between lo rest Hsplit).
Qed.

(** Every [hi > mid > lo] is met by the staged check. *)
Lemma check_hi_covers (hi mid lo : Z) :
  check_hi pair_check entries = true ->
  (0 <= lo)%Z -> (lo < mid)%Z -> (mid < hi)%Z -> (hi <= 255)%Z ->
  exists mids, pair_check (entry_of hi) (entry_of lo) mids = true /\
               In (entry_of mid) mids.
Proof.
  intros Hcheck H0 Hlo Hhi H255.
  destruct (down_between hi lo) as (above & between & Hsplit & Hbetween); [lia..|].
  exists (List.rev (List.map entry_of between)). split.
  - unfold entries in Hcheck. rewrite Hsplit in Hcheck.
    rewrite List.map_app, List.map_cons, List.map_app, List.map_cons in Hcheck.
    exact (check_hi_sound pair_check _ Hcheck _ _ _ _ _ eq_refl).
  - apply List.in_rev. rewrite List.rev_involutive.
    apply List.in_map. apply Hbetween. lia.
Qed.

(** *** The order of the fractions *)

Lemma order_table_checked :
  forallb (fun a => forallb (order_ok a) indexed) indexed = true.
Proof. vm_compute. reflexivity. Qed.

Lemma indexed_In (z : Z) : (0 <= z <= 255)%Z -> In (z, fr z) indexed.
Proof.
  intros Hz. unfold indexed.
  apply (List.in_map (fun z => (z, fr z))). apply down_In. lia.
Qed.

Lemma fr_order (i j : Z) :
  (0 <= i <= 255)%Z -> (0 <= j <= 255)%Z ->
  (fr i <? fr j)%float = (i <? j)%Z /\
  (fr i =? fr j)%float = (i =? j)%Z /\
  is_nan (fr i) = false.
Proof.
  intros Hi Hj. pose proof order_table_checked as H.
  rewrite List.forallb_forall in H. specialize (H _ (indexed_In i Hi)).
  rewrite List.forallb_forall in H. specialize (H _ (indexed_In j Hj)).
  unfold order_ok in H.
  apply andb_prop in H as [H Hnan]. apply andb_prop in H as [Hlt Heq].
  apply Bool.eqb_prop in Hlt, Heq. apply negb_true_iff in Hnan. auto.
Qed.

Lemma Math_max_fr (i j : Z) :
  (0 <= i <= 255)%Z -> (0 <= j <= 255)%Z ->
  Math_max (fr i) (fr j) = fr (Z.max i j).
Proof.
  intros Hi Hj. unfold Math_max.
  destruct (fr_order i j Hi Hj) as (Hij & _ & Hni).
  destruct (fr_order j i Hj Hi) as (Hji & _ & Hnj).
  rewrite Hni, Hnj, Hij, Hji. simpl.
  destruct (Z.ltb_spec i j); [rewrite Z.max_r by lia; reflexivity|].
  destruct (Z.ltb_spec j i); [rewrite Z.max_l by lia; reflexivity|].
  assert (i = j) by lia. subst. rewrite Z.max_id.
  destruct (get_sign (fr j)); reflexivity.
Qed.

Lemma Math_min_fr (i j : Z) :
  (0 <= i <= 255)%Z -> (0 <= j <= 255)%Z ->
  Math_min (fr i) (fr j) = fr (Z.min i j).
Proof.
  intros Hi Hj. unfold Math_min.
  destruct (fr_order i j Hi Hj) as (Hij & _ & Hni).
  destruct (fr_order j i Hj Hi) as (Hji & _ & Hnj).
  rewrite Hni, Hnj, Hij, Hji. simpl.
  destruct (Z.ltb_spec i j); [rewrite Z.min_l by lia; reflexivity|].
  destruct (Z.ltb_spec j i); [rewrite Z.min_r by lia; reflexivity|].
  assert (i = j) by lia. subst. rewrite Z.min_id.
  destruct (get_sign (fr j)); reflexivity.
Qed.

Lemma Math_max3_fr (i j k : Z) :
  (0 <= i <= 255)%Z -> (0 <= j <= 255)%Z -> (0 <= k <= 255)%Z ->
  Math_max3 (fr i) (fr j) (fr k) = fr (Z.max (Z.max i j) k).
Proof.
  intros Hi Hj Hk. unfold Math_max3.
  rewrite (Math_max_fr i j Hi Hj). apply Math_max_fr; lia.
Qed.

Lemma Math_min3_fr (i j k : Z) :
  (0 <= i <= 255)%Z -> (0 <= j <= 255)%Z -> (0 <= k <= 255)%Z ->
  Math_min3 (fr i) (fr j) (fr k) = fr (Z.min (Z.min i j) k).
Proof.
  intros Hi Hj Hk. unfold Math_min3.
  rewrite (Math_min_fr i j Hi Hj). apply Math_min_fr; lia.
Qed.

Lemma fr_eqb_refl (i : Z) : (0 <= i <= 255)%Z -> (fr i =? fr i)%float = true.
Proof.
  intros Hi. destruct (fr_order i i Hi Hi) as (_ & -> & _). apply Z.eqb_refl.
Qed.

Lemma fr_eqb_diff (i j : Z) :
  (0 <= i <= 255)%Z -> (0 <= j <= 255)%Z -> i <> j -> (fr i =? fr j)%float = false.
Proof.
  intros Hi Hj Hne. destruct (fr_order i j Hi Hj) as (_ & -> & _).
  apply Z.eqb_neq. exact Hne.
Qed.

(** *** One pair of a largest and a smallest channel *)

Local Open Scope float_scope.

Lemma pair_check_inv (hi mid lo : Z) (mids : list entry) :
  pair_check (entry_of hi) (entry_of lo) mids = true ->
  In (entry_of mid) mids ->
  let c := fr hi - fr lo in
  let l := (fr hi + fr lo) / 2 in
  let s := c / (1 - Math_abs (2 * l - 1)) in
  let c' := (1 - Math_abs (2 * l - 1)) * s in
  let m := l - c' / 2 in
  (c =? 0) = false /\ (s =? 0) = false /\
  near (Math_round ((c' + m) * 255)) (number_of_Z hi) = true /\
  near (Math_round ((0 + m) * 255)) (number_of_Z lo) = true /\
  arrangement_ok Sector0 (hueR (fr mid) (fr lo) c) c' m (number_of_Z mid) = true /\
  arrangement_ok Sector5 (hueR (fr lo) (fr mid) c) c' m (number_of_Z mid) = true /\
  arrangement_ok Sector1 (hueG (fr mid) (fr lo) c) c' m (number_of_Z mid) = true /\
  arrangement_ok Sector2 (hueG (fr lo) (fr mid) c) c' m (number_of_Z mid) = true /\
  arrangement_ok Sector3 (hueB (fr lo) (fr mid) c) c' m (number_of_Z mid) = true /\
  arrangement_ok Sector4 (hueB (fr mid) (fr lo) c) c' m (number_of_Z mid) = true.
Proof.
  intros Hpair Hin. unfold pair_check, entry_of in Hpair. cbv beta iota zeta in Hpair.
  fold (fr hi) in Hpair. fold (fr lo) in Hpair.
  apply andb_prop in Hpair as [Hpair Hmids]. apply andb_prop in Hpair as [Hpair Hlo].
  apply andb_prop in Hpair as [Hpair Hhi]. apply andb_prop in Hpair as [Hc Hs].
  apply negb_true_iff in Hc, Hs.
  rewrite List.forallb_forall in Hmids. specialize (Hmids _ Hin).
  unfold triple_check, entry_of in Hmids. cbv beta iota zeta in Hmids.
  fold (fr mid) in Hmids.
  apply andb_prop in Hmids as [Hmids A4]. apply andb_prop in Hmids as [Hmids A3].
  apply andb_prop in Hmids as [Hmids A2]. apply andb_prop in Hmids as [Hmids A1].
  apply andb_prop in Hmids as [A0 A5].
  cbv zeta. repeat split; assumption.
Qed.

(** The two functions unfolded on a colour whose largest channel is [hi] and
    smallest [lo], up to the choice of the hue branch. *)
Ltac unfold_roundtrip hi lo Hc :=
  unfold roundtrip_within_1, roundtrip, rgbToHSL;
  cbv beta iota zeta;
  repeat match goal with |- context [number_of_Z ?z / 255] => fold (fr z) end;
  rewrite !Math_max3_fr, !Math_min3_fr by lia;
  repeat match goal with
         | |- context [Z.max (Z.max ?a ?b) ?c] => replace (Z.max (Z.max a b) c) with hi by lia
         | |- context [Z.min (Z.min ?a ?b) ?c] => replace (Z.min (Z.min a b) c) with lo by lia
         end;
  rewrite Hc;
  rewrite ?fr_eqb_refl by lia;
  repeat match goal with
         | |- context [fr ?i =? fr ?j] => rewrite (fr_eqb_diff i j) by lia
         end.

(** The sector test of the arrangement decides the branch of [hslToRGB],
    and the three channels come back. *)
Ltac close_roundtrip Hs Hmax Hmin A :=
  let Hsec := fresh "Hsec" in
  let Hmid := fresh "Hmid" in
  unfold hslToRGB; cbv beta iota zeta; rewrite Hs;
  unfold arrangement_ok in A; apply andb_prop in A as [Hsec Hmid];
  unfold is_sector, sector in Hsec;
  repeat match type of Hsec with
         | context [if ?b then _ else _] =>
             let E := fresh "E" in destruct b eqn:E; try discriminate Hsec
         end;
  unfold hueR, hueG, hueB, finish_hue in *; cbv beta zeta in *;
  repeat match goal with
         | E : (_ <? _) = _ |- _ => rewrite E; clear E
         end;
  unfold mid_ok in Hmid; cbv beta zeta in Hmid;
  cbn [RGBA.r RGBA.g RGBA.b];
  rewrite Hmax, Hmin, Hmid; reflexivity.

Lemma arrangement_R_G (hi mid lo : Z) (mids : list entry) :
  (0 <= lo)%Z -> (lo < mid)%Z -> (mid < hi)%Z -> (hi <= 255)%Z ->
  pair_check (entry_of hi) (entry_of lo) mids = true ->
  In (entry_of mid) mids ->
  roundtrip_within_1 (number_of_Z hi) (number_of_Z mid) (number_of_Z lo) = true.
Proof.
  intros H0 Hlo Hhi H255 Hpair Hin.
  destruct (pair_check_inv hi mid lo mids Hpair Hin)
    as (Hc & Hs & Hmax & Hmin & A0 & A5 & A1 & A2 & A3 & A4).
  unfold_roundtrip hi lo Hc.
  close_roundtrip Hs Hmax Hmin A0.
Qed.

Lemma arrangement_R_B (hi mid lo : Z) (mids : list entry) :
  (0 <= lo)%Z -> (lo < mid)%Z -> (mid < hi)%Z -> (hi <= 255)%Z ->
  pair_check (entry_of hi) (entry_of lo) mids = true ->
  In (entry_of mid) mids ->
  roundtrip_within_1 (number_of_Z hi) (number_of_Z lo) (number_of_Z mid) = true.
Proof.
  intros H0 Hlo Hhi H255 Hpair Hin.
  destruct (pair_check_inv hi mid lo mids Hpair Hin)
    as (Hc & Hs & Hmax & Hmin & A0 & A5 & A1 & A2 & A3 & A4).
  unfold_roundtrip hi lo Hc.
  close_roundtrip Hs Hmax Hmin A5.
Qed.

Lemma arrangement_G_R (hi mid lo : Z) (mids : list entry) :
  (0 <= lo)%Z -> (lo < mid)%Z -> (mid < hi)%Z -> (hi <= 255)%Z ->
  pair_check (entry_of hi) (entry_of lo) mids = true ->
  In (entry_of mid) mids ->
  roundtrip_within_1 (number_of_Z mid) (number_of_Z hi) (number_of_Z lo) = true.
Proof.
  intros H0 Hlo Hhi H255 Hpair Hin.
  destruct (pair_check_inv hi mid lo mids Hpair Hin)
    as (Hc & Hs & Hmax & Hmin & A0 & A5 & A1 & A2 & A3 & A4).
  unfold_roundtrip hi lo Hc.
  close_roundtrip Hs Hmax Hmin A1.
Qed.

Lemma arrangement_G_B (hi mid lo : Z) (mids : list entry) :
  (0 <= lo)%Z -> (lo < mid)%Z -> (mid < hi)%Z -> (hi <= 255)%Z ->
  pair_check (entry_of hi) (entry_of lo) mids = true ->
  In (entry_of mid) mids ->
  roundtrip_within_1 (number_of_Z lo) (number_of_Z hi) (number_of_Z mid) = true.
Proof.
  intros H0 Hlo Hhi H255 Hpair Hin.
  destruct (pair_check_inv hi mid lo mids Hpair Hin)
    as (Hc & Hs & Hmax & Hmin & A0 & A5 & A1 & A2 & A3 & A4).
  unfold_roundtrip hi lo Hc.
  close_roundtrip Hs Hmax Hmin A2.
Qed.

Lemma arrangement_B_G (hi mid lo : Z) (mids : list entry) :
  (0 <= lo)%Z -> (lo < mid)%Z -> (mid < hi)%Z -> (hi <= 255)%Z ->
  pair_check (entry_of hi) (entry_of lo) mids = true ->
  In (entry_of mid) mids ->
  roundtrip_within_1 (number_of_Z lo) (number_of_Z mid) (number_of_Z hi) = true.
Proof.
  intros H0 Hlo Hhi H255 Hpair Hin.
  destruct (pair_check_inv hi mid lo mids Hpair Hin)
    as (Hc & Hs & Hmax & Hmin & A0 & A5 & A1 & A2 & A3 & A4).
  unfold_roundtrip hi lo Hc.
  close_roundtrip Hs Hmax Hmin A3.
Qed.

Lemma arrangement_B_R (hi mid lo : Z) (mids : list entry) :
  (0 <= lo)%Z -> (lo < mid)%Z -> (mid < hi)%Z -> (hi <= 255)%Z ->
  pair_check (entry_of hi) (entry_of lo) mids = true ->
  In (entry_of mid) mids ->
  roundtrip_within_1 (number_of_Z mid) (number_of_Z lo) (number_of_Z hi) = true.
Proof.
  intros H0 Hlo Hhi H255 Hpair Hin.
  destruct (pair_check_inv hi mid lo mids Hpair Hin)
    as (Hc & Hs & Hmax & Hmin & A0 & A5 & A1 & A2 & A3 & A4).
  unfold_roundtrip hi lo Hc.
  close_roundtrip Hs Hmax Hmin A4.
Qed.

(** *** The runs *)

(** The colours with two equal channels. *)
Lemma ties_checked :
  forallb (fun a => forallb (ties_ok a) channels) channels = true.
Proof. vm_compute. reflexivity. Qed.

(** The colours with three different channels. *)
Lemma strict_checked : check_hi pair_check entries = true.
Proof. vm_compute. reflexivity. Qed.

Lemma ties_sound (a b : Z) :
  (0 <= a <= 255)%Z -> (0 <= b <= 255)%Z ->
  roundtrip_within_1 (number_of_Z a) (number_of_Z a) (number_of_Z b) = true /\
  roundtrip_within_1 (number_of_Z a) (number_of_Z b) (number_of_Z a) = true /\
  roundtrip_within_1 (number_of_Z b) (number_of_Z a) (number_of_Z a) = true.
Proof.
  intros Ha Hb. pose proof ties_checked as H.
  rewrite List.forallb_forall in H. specialize (H _ (In_channels a Ha)).
  rewrite List.forallb_forall in H. specialize (H _ (In_channels b Hb)).
  unfold ties_ok in H. apply andb_prop in H as [H H3]. apply andb_prop in H as [H1 H2]. auto.
Qed.

Lemma roundtrip_within_1_all (r g b : Z) :
  (0 <= r <= 255)%Z -> (0 <= g <= 255)%Z -> (0 <= b <= 255)%Z ->
  roundtrip_within_1 (number_of_Z r) (number_of_Z g) (number_of_Z b) = true.
Proof.
  intros Hr Hg Hb.
  destruct (Z.eq_dec r g) as [<-|Hrg]; [apply (ties_sound r b); assumption|].
  destruct (Z.eq_dec r b) as [<-|Hrb]; [apply (ties_sound r g); assumption|].
  destruct (Z.eq_dec g b) as [<-|Hgb]; [apply (ties_sound g r); assumption|].
  assert (Hcases : (b < g < r \/ g < b < r \/ b < r < g \/
                    r < b < g \/ r < g < b \/ g < r < b)%Z) by lia.
  destruct Hcases as [H|[H|[H|[H|[H|H]]]]].
  - destruct (check_hi_covers r g b strict_checked) as (mids & Hpair & Hin); [lia..|].
    apply (arrangement_R_G r g b mids); [lia..|assumption|assumption].
  - destruct (check_hi_covers r b g strict_checked) as (mids & Hpair & Hin); [lia..|].
    apply (arrangement_R_B r b g mids); [lia..|assumption|assumption].
  - destruct (check_hi_covers g r b strict_checked) as (mids & Hpair & Hin); [lia..|].
    apply (arrangement_G_R g r b mids); [lia..|assumption|assumption].
  - destruct (check_hi_covers g b r strict_checked) as (mids & Hpair & Hin); [lia..|].
    apply (arrangement_G_B g b r mids); [lia..|assumption|assumption].
  - destruct (check_hi_covers b g r strict_checked) as (mids & Hpair & Hin); [lia..|].
    apply (arrangement_B_G b g r mids); [lia..|assumption|assumption].
  - destruct (check_hi_covers b r g strict_checked) as (mids & Hpair & Hin); [lia..|].
    apply (arrangement_B_R b r g mids); [lia..|assumption|assumption].
Qed.

End RoundTripProofs.

(** C6. For every RGB triple with integer channels in [0,255] and alpha 1,
    [hslToRGB (rgbToHSL rgb)] yields channels that each differ from the
    input by at most 1. *)
Theorem roundtrip_rgb_hsl_rgb (r g b : Z) :
  (0 <= r <= 255)%Z -> (0 <= g <= 255)%Z -> (0 <= b <= 255)%Z ->
  let rgb := RGBA.mk (JS.number_of_Z r) (JS.number_of_Z g) (JS.number_of_Z b) 1 in
  let out := hslToRGB (rgbToHSL rgb) in
  near (RGBA.r out) (RGBA.r rgb) = true /\
  near (RGBA.g out) (RGBA.g rgb) = true /\
  near (RGBA.b out) (RGBA.b rgb) = true.
Proof.
  intros Hr Hg Hb rgb out.
  pose proof (roundtrip_within_1_all r g b Hr Hg Hb) as H.
  unfold roundtrip_within_1, roundtrip in H.
  apply andb_prop in H as [H H3]. apply andb_prop in H as [H1 H2].
  exact (conj H1 (conj H2 H3)).
Qed.

Lemma roundtrip_rgb_hsl_rgb_witness :
  let rgb := RGBA.mk 18 52 86 1 in
  let out := hslToRGB (rgbToHSL rgb) in
  near (RGBA.r out) (RGBA.r rgb) = true /\
  near (RGBA.g out) (RGBA.g rgb) = true /\
  near (RGBA.b out) (RGBA.b rgb) = true.
Proof. apply (roundtrip_rgb_hsl_rgb 18 52 86); lia. Defined.

(** ** The colour registry: eviction, capacity and the theme index *)

Section RegistryEviction.
Local Open Scope Z_scope.

Lemma oldest_spec (entries : list (string * RegisteredColor)) :
  forall (k0 : option string) (t0 : Z),
    (oldest entries k0 t0 = k0 /\
     forall k e, In (k, e) entries -> t0 <= timestamp e) \/
    (exists k e, In (k, e) entries /\ oldest entries k0 t0 = Some k /\
                 timestamp e < t0 /\
                 forall k' e', In (k', e') entries -> timestamp e <= timestamp e').
Proof.
  induction entries as [|[k1 e1] rest IH]; intros k0 t0; simpl.
  - left. split; [reflexivity | tauto].
  - destruct (Z.ltb_spec (timestamp e1) t0) as [Hlt|Hge].
    + right. destruct (IH (Some k1) (timestamp e1)) as [[Heq Hall]|(k & e & Hin & Heq & Ht & Hall)].
      * exists k1, e1. split; [left; reflexivity|]. split; [exact Heq|]. split; [exact Hlt|].
        intros k' e' [[= <- <-]|Hin]; [lia | apply (Hall k'), Hin].
      * exists k, e. split; [right; exact Hin|]. split; [exact Heq|]. split; [lia|].
        intros k' e' [[= <- <-]|Hin']; [lia | apply (Hall k'), Hin'].
    + destruct (IH k0 t0) as [[Heq Hall]|(k & e & Hin & Heq & Ht & Hall)].
      * left. split; [exact Heq|].
        intros k' e' [[= <- <-]|Hin]; [lia | apply (Hall k'), Hin].
      * right. exists k, e. split; [right; exact Hin|]. split; [exact Heq|]. split; [exact Ht|].
        intros k' e' [[= <- <-]|Hin']; [lia | apply (Hall k'), Hin'].
Qed.

Lemma getKey_not_empty (rgb : RGBA.t) : getKey rgb <> "".
Proof.
  unfold getKey. destruct (JS.Number_toString (RGBA.r rgb)) as [|c s]; intros H.
  - discriminate H.
  - discriminate H.
Qed.

Lemma omap_get_NoDup {V : Type} (k : string) (v : V) (m : list (string * V)) :
  List.NoDup (map fst m) -> In (k, v) m -> omap_get k m = Some v.
Proof.
  induction m as [|[k' v'] m IH]; simpl; [tauto|].
  intros Hnd Hin. inversion Hnd as [|? ? Hnotin Hrest]; subst.
  destruct Hin as [[= -> ->]|Hin].
  - rewrite String.eqb_refl. reflexivity.
  - destruct (String.eqb k' k) eqn:E.
    + apply String.eqb_eq in E as ->. exfalso. apply Hnotin.
      apply (List.in_map fst) in Hin. exact Hin.
    + apply IH; assumption.
Qed.

Lemma omap_delete_length {V : Type} (k : string) (m : list (string * V)) :
  omap_has k m = true -> S (List.length (omap_delete k m)) = List.length m.
Proof.
  unfold omap_has. induction m as [|[k' v'] m IH]; simpl; [discriminate|].
  destruct (String.eqb k' k); [reflexivity|].
  intros H. simpl. rewrite IH by exact H. reflexivity.
Qed.

Lemma omap_set_length {V : Type} (k : string) (v : V) (m : list (string * V)) :
  List.length (omap_set k v m) =
  if omap_has k m then List.length m else S (List.length m).
Proof.
  unfold omap_has. induction m as [|[k' v'] m IH]; simpl; [reflexivity|].
  destruct (String.eqb k' k); simpl; [reflexivity|].
  rewrite IH. destruct (omap_get k m); reflexivity.
Qed.

(** What [evictLRU] does, case by case. *)
Lemma evictLRU_cases (now : Z) (reg : ColorRegistry) :
  registry_wf reg ->
  (evictLRU now reg = reg /\
   forall k e, In (k, e) (registry reg) -> now <= timestamp e) \/
  (exists k e, In (k, e) (registry reg) /\ timestamp e < now /\
     (forall k' e', In (k', e') (registry reg) -> timestamp e <= timestamp e') /\
     registry (evictLRU now reg) = omap_delete k (registry reg) /\
     themeRegistry (evictLRU now reg) =
       match themeRegistry reg !! themeId e with
       | Some keys => <[themeId e := keys ∖ {[k]}]> (themeRegistry reg)
       | None => themeRegistry reg
       end /\
     maxSize (evictLRU now reg) = maxSize reg /\
     evictions (stats (evictLRU now reg)) = evictions (stats reg) + 1).
Proof.
  intros [Hnd Hkeyed]. unfold evictLRU.
  destruct (oldest_spec (registry reg) None now) as [[-> Hall]|(k & e & Hin & -> & Ht & Hall)].
  - left. split; [reflexivity | exact Hall].
  - right. exists k, e.
    pose proof (omap_get_NoDup k e _ Hnd Hin) as Hget.
    assert (k <> "") as Hne.
    { rewrite (keyed_get _ _ _ Hkeyed Hget). apply getKey_not_empty. }
    apply String.eqb_neq in Hne. rewrite Hne, Hget. simpl. auto 10.
Qed.

End RegistryEviction.

(** X1. [evictLRU] on a registry some entry of which is older than the
    clock reading removes exactly one entry, one whose timestamp no other
    entry undercuts, and counts one eviction. *)
Theorem evictLRU_evicts_oldest (now : Z) (reg : ColorRegistry) :
  registry_reachable reg ->
  (exists k e, In (k, e) (registry reg) /\ (timestamp e < now)%Z) ->
  exists k e,
    In (k, e) (registry reg) /\
    (forall k' e', In (k', e') (registry reg) -> (timestamp e <= timestamp e')%Z) /\
    registry (evictLRU now reg) = omap_delete k (registry reg) /\
    S (List.length (registry (evictLRU now reg))) = List.length (registry reg) /\
    getEntry (originalRGB e) (evictLRU now reg) = None /\
    evictions (stats (evictLRU now reg)) = (evictions (stats reg) + 1)%Z.
Proof.
  intros Hreach (k0 & e0 & Hin0 & Hold).
  pose proof (reachable_wf reg Hreach) as Hwf.
  destruct (evictLRU_cases now reg Hwf) as [[_ Hall]|(k & e & Hin & Ht & Hmin & Hreg & _ & _ & Hev)].
  - specialize (Hall _ _ Hin0). lia.
  - exists k, e. destruct Hwf as [Hnd Hkeyed].
    assert (omap_get k (registry reg) = Some e) as Hget by (apply omap_get_NoDup; assumption).
    repeat split; try assumption.
    + rewrite Hreg. apply omap_delete_length. unfold omap_has. rewrite Hget. reflexivity.
    + unfold getEntry. rewrite Hreg.
      rewrite <- (keyed_get _ _ _ Hkeyed Hget).
      destruct (omap_get k (omap_delete k (registry reg))) as [e'|] eqn:Hget'; [|reflexivity].
      exfalso. apply omap_get_In in Hget'.
      pose proof (omap_delete_NoDup k _ Hnd) as Hnd'.
      clear - Hnd Hget'. induction (registry reg) as [|[k1 v1] m IH]; simpl in *; [tauto|].
      inversion Hnd as [|? ? Hnotin Hrest]; subst.
      destruct (String.eqb k1 k) eqn:E.
      * apply String.eqb_eq in E as ->. apply Hnotin.
        apply (List.in_map fst) in Hget'. exact Hget'.
      * destruct Hget' as [[= -> ->]|Hin]; [rewrite String.eqb_refl in E; discriminate|].
        apply IH; assumption.
Qed.

Lemma three_colours_reachable : registry_reachable three_colours.
Proof. unfold three_colours. repeat constructor. Qed.

Lemma evictLRU_evicts_oldest_witness :
  exists k e,
    In (k, e) (registry three_colours) /\
    (forall k' e', In (k', e') (registry three_colours) -> (timestamp e <= timestamp e')%Z) /\
    registry (evictLRU 10 three_colours) = omap_delete k (registry three_colours) /\
    S (List.length (registry (evictLRU 10 three_colours))) = List.length (registry three_colours) /\
    getEntry (originalRGB e) (evictLRU 10 three_colours) = None /\
    evictions (stats (evictLRU 10 three_colours)) = (evictions (stats three_colours) + 1)%Z.
Proof.
  apply (evictLRU_evicts_oldest 10 three_colours).
  - exact three_colours_reachable.
  - vm_compute. eexists _, _. split; [left; reflexivity | reflexivity].
Defined.

(** X2. A registration into a registry within its capacity, made when the
    clock is past every stored timestamp, leaves the registry within its
    capacity: a full registry first evicts one entry. *)
Theorem register_within_capacity
    (rgb : RGBA.t) (hex out : string) (role : ColorType) (theme : string) (now : Z)
    (reg : ColorRegistry) :
  registry_reachable reg ->
  (1 <= maxSize reg)%Z ->
  (Z.of_nat (List.length (registry reg)) <= maxSize reg)%Z ->
  (forall k e, In (k, e) (registry reg) -> (timestamp e < now)%Z) ->
  (Z.of_nat (List.length (registry (register rgb hex out role theme now reg))) <= maxSize reg)%Z.
Proof.
  intros Hreach Hmax Hlen Hold.
  pose proof (reachable_wf reg Hreach) as Hwf.
  unfold register. cbn [registry].
  destruct (omap_has (getKey rgb) (registry reg)) eqn:Hhas.
  - rewrite andb_false_r. rewrite omap_set_length, Hhas. exact Hlen.
  - rewrite andb_true_r. destruct (Z.leb_spec (maxSize reg) (Z.of_nat (List.length (registry reg)))) as [Hfull|Hroom].
    + destruct (evictLRU_cases now reg Hwf) as [[_ Hall]|(k & e & Hin & _ & _ & Hreg & _)].
      * exfalso. destruct (registry reg) as [|[k e] rest] eqn:E; [simpl in Hfull; lia|].
        specialize (Hall k e (or_introl eq_refl)). specialize (Hold k e (or_introl eq_refl)). lia.
      * rewrite omap_set_length, Hreg.
        assert (S (List.length (omap_delete k (registry reg))) = List.length (registry reg)) as Hdel.
        { apply omap_delete_length. unfold omap_has.
          rewrite (omap_get_NoDup k e _ (proj1 Hwf) Hin). reflexivity. }
        destruct (omap_has (getKey rgb) (omap_delete k (registry reg))); lia.
    + rewrite omap_set_length, Hhas. lia.
Qed.

Lemma register_within_capacity_witness :
  (Z.of_nat (List.length (registry
     (register (RGBA.mk 9 9 9 1) "#090909" "#f0f0f0" text_t "dark" 10 three_colours)))
   <= maxSize three_colours)%Z.
Proof.
  apply (register_within_capacity (RGBA.mk 9 9 9 1) "#090909" "#f0f0f0" text_t "dark" 10 three_colours).
  - exact three_colours_reachable.
  - vm_compute. discriminate.
  - vm_compute. discriminate.
  - intros k e Hin. vm_compute in Hin.
    repeat match goal with
           | H : _ \/ _ |- _ => destruct H as [H|H]
           | H : False |- _ => destruct H
           | H : (_, _) = (_, _) |- _ => injection H as <- <-
           end; vm_compute; reflexivity.
Defined.

(** X3. The capacity is not a hard bound: when no stored entry is older
    than the clock reading (registrations within one millisecond), a full
    registry evicts nothing and a new colour makes it one entry larger. *)
Theorem register_exceeds_capacity_within_a_tick
    (rgb : RGBA.t) (hex out : string) (role : ColorType) (theme : string) (now : Z)
    (reg : ColorRegistry) :
  (maxSize reg <= Z.of_nat (List.length (registry reg)))%Z ->
  getEntry rgb reg = None ->
  (forall k e, In (k, e) (registry reg) -> (now <= timestamp e)%Z) ->
  let reg' := register rgb hex out role theme now reg in
  List.length (registry reg') = S (List.length (registry reg)) /\
  (maxSize reg' < Z.of_nat (List.length (registry reg')))%Z /\
  evictions (stats reg') = evictions (stats reg).
Proof.
  intros Hfull Hnew Hall reg'.
  assert (evictLRU now reg = reg) as Hev.
  { unfold evictLRU.
    destruct (oldest_spec (registry reg) None now) as [[-> _]|(k & e & Hin & _ & Ht & _)];
      [reflexivity|].
    specialize (Hall _ _ Hin). lia. }
  assert (omap_has (getKey rgb) (registry reg) = false) as Hhas.
  { unfold omap_has. unfold getEntry in Hnew. rewrite Hnew. reflexivity. }
  subst reg'. unfold register. cbn [registry maxSize stats evictions].
  rewrite Hhas, andb_true_r.
  destruct (Z.leb_spec (maxSize reg) (Z.of_nat (List.length (registry reg)))) as [_|?]; [|lia].
  rewrite Hev, omap_set_length, Hhas. repeat split; try reflexivity. lia.
Qed.

Lemma register_exceeds_capacity_within_a_tick_witness :
  let reg := three_colours in
  let reg' := register (RGBA.mk 9 9 9 1) "#090909" "#f0f0f0" text_t "dark" 1 reg in
  List.length (registry reg') = S (List.length (registry reg)) /\
  (maxSize reg' < Z.of_nat (List.length (registry reg')))%Z /\
  evictions (stats reg') = evictions (stats reg).
Proof.
  apply (register_exceeds_capacity_within_a_tick
           (RGBA.mk 9 9 9 1) "#090909" "#f0f0f0" text_t "dark" 1 three_colours).
  - vm_compute. discriminate.
  - vm_compute. reflexivity.
  - intros k e Hin. vm_compute in Hin.
    repeat match goal with
           | H : _ \/ _ |- _ => destruct H as [H|H]
           | H : False |- _ => destruct H
           | H : (_, _) = (_, _) |- _ => injection H as <- <-
           end; vm_compute; discriminate.
Defined.

Section RegistryIndex.

Lemma omap_set_In {V : Type} (k : string) (v : V) (m : list (string * V)) (x : string * V) :
  In x (omap_set k v m) -> x = (k, v) \/ In x m.
Proof.
  induction m as [|[k' v'] m IH]; simpl.
  - intros [<-|[]]. left. reflexivity.
  - destruct (String.eqb k' k) eqn:E; simpl.
    + apply String.eqb_eq in E as ->. intros [<-|Hin]; [left; reflexivity | right; right; exact Hin].
    + intros [<-|Hin]; [right; left; reflexivity|].
      destruct (IH Hin) as [->|Hin']; [left; reflexivity | right; right; exact Hin'].
Qed.

Lemma omap_delete_In {V : Type} (k : string) (m : list (string * V)) (x : string * V) :
  List.NoDup (map fst m) -> In x (omap_delete k m) -> In x m /\ x.1 <> k.
Proof.
  induction m as [|[k' v'] m IH]; simpl; [tauto|].
  intros Hnd Hin. inversion Hnd as [|? ? Hnotin Hrest]; subst.
  destruct (String.eqb k' k) eqn:E.
  - apply String.eqb_eq in E as ->. split; [right; exact Hin|].
    intros <-. apply Hnotin. apply (List.in_map fst) in Hin. exact Hin.
  - destruct Hin as [<-|Hin].
    + split; [left; reflexivity|]. simpl. apply String.eqb_neq. exact E.
    + destruct (IH Hrest Hin) as [Hin' Hne]. split; [right; exact Hin' | exact Hne].
Qed.

Lemma omap_get_filter_out {V : Type} (f : string -> bool) (k : string) (m : list (string * V)) :
  f k = false -> omap_get k (List.filter (fun kv => f kv.1) m) = None.
Proof.
  intros Hf. induction m as [|[k' v'] m IH]; simpl; [reflexivity|].
  destruct (f k') eqn:E; simpl; [|exact IH].
  destruct (String.eqb k' k) eqn:Ek; [|exact IH].
  apply String.eqb_eq in Ek as ->. congruence.
Qed.

Lemma evictLRU_indexed (now : Z) (reg : ColorRegistry) :
  registry_wf reg -> theme_indexed reg -> theme_indexed (evictLRU now reg).
Proof.
  intros Hwf Hidx.
  destruct (evictLRU_cases now reg Hwf) as [[-> _]|(k & e & Hin & _ & _ & Hreg & Hthemes & _)];
    [exact Hidx|].
  intros k' e' Hin'. rewrite Hreg in Hin'.
  apply (omap_delete_In _ _ _ (proj1 Hwf)) in Hin' as [Hin' Hne]. simpl in Hne.
  destruct (Hidx _ _ Hin') as (keys' & Hkeys' & Hk').
  rewrite Hthemes.
  destruct (themeRegistry reg !! themeId e) as [keys|] eqn:Hkeys; [|eauto].
  destruct (decide (themeId e = themeId e')) as [Heq|Hdiff].
  - rewrite Heq, lookup_insert_eq. eexists. split; [reflexivity|].
    rewrite Heq, Hkeys' in Hkeys. injection Hkeys as <-. set_solver.
  - rewrite lookup_insert_ne by exact Hdiff. eauto.
Qed.

Lemma register_indexed rgb hex out role theme now reg :
  registry_wf reg -> theme_indexed reg ->
  theme_indexed (register rgb hex out role theme now reg).
Proof.
  intros Hwf Hidx. unfold register.
  match goal with
  | |- context [if ?c then evictLRU now reg else reg] =>
      assert (theme_indexed (if c then evictLRU now reg else reg)) as Hidx1
        by (destruct c; [apply evictLRU_indexed; assumption | exact Hidx]);
      generalize dependent (if c then evictLRU now reg else reg)
  end.
  intros reg1 Hidx1 k e Hin. cbn [registry themeRegistry] in *.
  apply omap_set_In in Hin as [[= -> ->]|Hin]; cbn [themeId].
  - rewrite lookup_insert_eq. eexists. split; [reflexivity|]. set_solver.
  - destruct (Hidx1 _ _ Hin) as (keys & Hkeys & Hk).
    destruct (decide (theme = themeId e)) as [->|Hdiff].
    + rewrite lookup_insert_eq, Hkeys. eexists. split; [reflexivity|]. simpl. set_solver.
    + rewrite lookup_insert_ne by exact Hdiff. eauto.
Qed.

Lemma getTransformed_indexed rgb role theme now reg :
  theme_indexed reg -> theme_indexed (getTransformed rgb role theme now reg).2.
Proof.
  intros Hidx. unfold getTransformed.
  destruct (omap_get (getKey rgb) (registry reg)) as [registered|] eqn:Hget; [|exact Hidx].
  match goal with |- context [if ?c then _ else _] => destruct c end; [exact Hidx|].
  intros k e Hin. cbn [snd registry themeRegistry] in *.
  apply omap_set_In in Hin as [[= -> ->]|Hin]; cbn [themeId].
  - apply Hidx. apply omap_get_In. exact Hget.
  - apply Hidx, Hin.
Qed.

Lemma clearTheme_indexed theme reg :
  theme_indexed reg ->
  theme_indexed (clearTheme theme reg) /\
  forall k e, In (k, e) (registry (clearTheme theme reg)) -> themeId e <> theme.
Proof.
  intros Hidx. unfold clearTheme.
  destruct (themeRegistry reg !! theme) as [keys|] eqn:Hkeys.
  - assert (forall k e, In (k, e) (List.filter (fun kv => negb (bool_decide (kv.1 ∈ keys)))
                                      (registry reg)) -> In (k, e) (registry reg) /\ themeId e <> theme)
      as Hrest.
    { intros k e Hin. apply List.filter_In in Hin as [Hin Hout]. split; [exact Hin|].
      intros <-. destruct (Hidx _ _ Hin) as (keys' & Hkeys' & Hk).
      rewrite Hkeys in Hkeys'. injection Hkeys' as <-.
      simpl in Hout. rewrite bool_decide_true in Hout by exact Hk. discriminate. }
    split.
    + intros k e Hin. cbn [registry themeRegistry] in *.
      destruct (Hrest _ _ Hin) as [Hin' Hne].
      destruct (Hidx _ _ Hin') as (keys' & Hkeys' & Hk).
      rewrite lookup_delete_ne by (intros E; apply Hne; symmetry; exact E). eauto.
    + intros k e Hin. apply (Hrest _ _ Hin).
  - split; [exact Hidx|].
    intros k e Hin <-. destruct (Hidx _ _ Hin) as (keys' & Hkeys' & _). congruence.
Qed.

Lemma reachable_indexed reg : registry_reachable reg -> theme_indexed reg.
Proof.
  induction 1 as [size|reg rgb hex out role theme now Hreach IH|reg rgb role theme now Hreach IH
                  |reg theme Hreach IH|reg Hreach IH].
  - intros k e [].
  - apply register_indexed; [apply reachable_wf|]; assumption.
  - apply getTransformed_indexed; assumption.
  - apply clearTheme_indexed; assumption.
  - intros k e [].
Qed.

End RegistryIndex.

(** X4. In every state the registry reaches, [clearTheme] leaves no entry
    of the cleared theme behind: every lookup for that theme then misses,
    whatever the colour and the role. *)
Theorem clearTheme_removes_theme (reg : ColorRegistry) (theme : string) :
  registry_reachable reg ->
  (forall k e, In (k, e) (registry (clearTheme theme reg)) -> themeId e <> theme) /\
  (forall rgb role now, (getTransformed rgb role theme now (clearTheme theme reg)).1 = None).
Proof.
  intros Hreach.
  destruct (clearTheme_indexed theme reg (reachable_indexed reg Hreach)) as [_ Hnone].
  split; [exact Hnone|].
  intros rgb role now.
  destruct (getTransformed rgb role theme now (clearTheme theme reg)).1 as [hex|] eqn:Hhit;
    [|reflexivity].
  exfalso. apply getTransformed_hit in Hhit as (e & Hget & _ & Htheme & _).
  apply omap_get_In in Hget. exact (Hnone _ _ Hget Htheme).
Qed.

Lemma clearTheme_removes_theme_witness :
  (forall k e, In (k, e) (registry (clearTheme "dark" three_colours)) -> themeId e <> "dark") /\
  (forall rgb role now,
     (getTransformed rgb role "dark" now (clearTheme "dark" three_colours)).1 = None).
Proof. apply (clearTheme_removes_theme three_colours "dark"). exact three_colours_reachable. Defined.

(** X5. The theme index is not pruned when a colour changes hands: a
    colour registered under theme A and then under theme B is answered for
    B, yet [clearTheme A] deletes its entry, so the lookup for B misses. *)
Theorem clearTheme_deletes_entries_of_other_themes
    (reg : ColorRegistry) (rgb : RGBA.t) (hexA outA hexB outB : string)
    (roleA roleB : ColorType) (themeA themeB : string) (nowA nowB now : Z) :
  themeA <> themeB ->
  let reg2 := register rgb hexB outB roleB themeB nowB
                (register rgb hexA outA roleA themeA nowA reg) in
  (getTransformed rgb roleB themeB now reg2).1 = Some outB /\
  getEntry rgb (clearTheme themeA reg2) = None /\
  (getTransformed rgb roleB themeB now (clearTheme themeA reg2)).1 = None.
Proof.
  intros Hdiff reg2.
  assert (getEntry rgb (clearTheme themeA reg2) = None) as Hgone.
  { subst reg2. unfold getEntry, clearTheme.
    set (reg1 := register rgb hexA outA roleA themeA nowA reg).
    assert (exists keys, themeRegistry (register rgb hexB outB roleB themeB nowB reg1) !! themeA
                         = Some keys /\ getKey rgb ∈ keys) as (keys & -> & Hk).
    { assert (omap_has (getKey rgb) (registry reg1) = true) as Hhas.
      { subst reg1. unfold register, omap_has. cbn [registry].
        rewrite omap_get_set_eq. reflexivity. }
      unfold register at 1. cbn [themeRegistry]. rewrite Hhas, andb_false_r.
      rewrite lookup_insert_ne by (intros E; apply Hdiff; symmetry; exact E).
      subst reg1. unfold register. cbn [themeRegistry].
      rewrite lookup_insert_eq. eexists. split; [reflexivity|]. set_solver. }
    cbn [registry].
    pose (f := fun k : string => negb (bool_decide (k ∈ keys))).
    apply (omap_get_filter_out f). unfold f.
    rewrite bool_decide_true by exact Hk. reflexivity. }
  split; [|split; [exact Hgone|]].
  - subst reg2. rewrite getTransformed_after_register.
    rewrite bool_decide_true by reflexivity. rewrite String.eqb_refl. reflexivity.
  - unfold getTransformed. unfold getEntry in Hgone. rewrite Hgone. reflexivity.
Qed.

Lemma clearTheme_deletes_entries_of_other_themes_witness :
  let rgb := RGBA.mk 255 255 255 1 in
  let reg2 := register rgb "#ffffff" "#f8fafc" background_t "light" 2
                (register rgb "#ffffff" "#101212" background_t "dark" 1 globalColorRegistry) in
  (getTransformed rgb background_t "light" 3 reg2).1 = Some "#f8fafc" /\
  getEntry rgb (clearTheme "dark" reg2) = None /\
  (getTransformed rgb background_t "light" 3 (clearTheme "dark" reg2)).1 = None.
Proof.
  apply (clearTheme_deletes_entries_of_other_themes globalColorRegistry (RGBA.mk 255 255 255 1)
           "#ffffff" "#101212" "#ffffff" "#f8fafc" background_t background_t "dark" "light" 1 2 3).
  discriminate.
Defined.

(** ** The loop guard under a storm *)

Section LoopGuardStorm.
Local Open Scope Z_scope.

(** A skipped mutation leaves the time of the last processed mutation in
    place and the counter at the bail-out level. *)
Lemma skipped_inv (element : Node) (now : Z) (g g' : LoopGuard) :
  shouldSkipLoopElement element now g = (true, g') ->
  exists last c,
    guard_view g element = (Some last, c) /\
    now - last < LOOP_DETECTION_THRESHOLD /\
    MAX_LOOP_CYCLES <= default 0 c /\
    guard_view g' element = (Some last, Some (default 0 c + 1)).
Proof.
  unfold shouldSkipLoopElement, guard_view.
  destruct (elementsLastChanges g !! element) as [last|] eqn:Hl; [|discriminate].
  destruct (Z.ltb_spec (now - last) LOOP_DETECTION_THRESHOLD) as [Hnow|]; [|discriminate].
  destruct (Z.leb_spec MAX_LOOP_CYCLES (default 0 (elementsLoopCycles g !! element))) as [Hc|];
    [|discriminate].
  intros [= <-]. exists last, (elementsLoopCycles g !! element). simpl.
  rewrite Hl, lookup_insert_eq. auto.
Qed.

Lemma storm_all_skipped (element : Node) (last : Z) (times : list Z) :
  forall (g : LoopGuard) (c : option Z),
    guard_view g element = (Some last, c) ->
    MAX_LOOP_CYCLES <= default 0 c ->
    List.Forall (fun t => t - last < LOOP_DETECTION_THRESHOLD) times ->
    (mutate element times g).1 = List.repeat true (List.length times) /\
    exists c', guard_view (mutate element times g).2 element = (Some last, c').
Proof.
  induction times as [|t times IH]; intros g c Hview Hc Hall.
  - simpl. split; [reflexivity | eauto].
  - inversion Hall as [|? ? Ht Hrest]; subst. simpl.
    destruct (guard_cycle_skipped element t last g c Hview Ht Hc) as (g1 & -> & Hview1).
    destruct (IH g1 _ Hview1) as [Hskips Hlast]; [simpl; lia | exact Hrest |].
    destruct (mutate element times g1) as [skips g2]. simpl in *.
    split; [rewrite Hskips; reflexivity | exact Hlast].
Qed.

End LoopGuardStorm.

(** X6. Once a mutation of a node is skipped, the window does not slide:
    every further mutation less than 500 ms after the last processed one is
    skipped too, however many there are, and the first mutation that comes
    500 ms or more after the last processed one is processed again. *)
Theorem loop_guard_bails_out_for_a_fixed_window
    (element : Node) (now : Z) (g g1 : LoopGuard) :
  shouldSkipLoopElement element now g = (true, g1) ->
  exists last,
    elementsLastChanges g !! element = Some last /\
    forall (times : list Z) (now' : Z),
      List.Forall (fun t => (t - last < 500)%Z) times ->
      (500 <= now' - last)%Z ->
      (mutate element times g1).1 = List.repeat true (List.length times) /\
      (shouldSkipLoopElement element now' (mutate element times g1).2).1 = false.
Proof.
  intros Hskip.
  destruct (skipped_inv element now g g1 Hskip) as (last & c & Hview & Hnow & Hc & Hview1).
  exists last. split; [unfold guard_view in Hview; congruence|].
  intros times now' Hall Hquiet.
  destruct (storm_all_skipped element last times g1 _ Hview1) as [Hskips (c' & Hlast)];
    [simpl; lia | exact Hall |].
  split; [exact Hskips|].
  destruct (guard_quiet_reset element now' last _ c' Hlast) as (g' & -> & _);
    [unfold LOOP_DETECTION_THRESHOLD; lia | reflexivity].
Qed.

Lemma loop_guard_bails_out_for_a_fixed_window_witness :
  exists last,
    elementsLastChanges storm_guard !! 1%positive = Some last /\
    forall (times : list Z) (now' : Z),
      List.Forall (fun t => (t - last < 500)%Z) times ->
      (500 <= now' - last)%Z ->
      (mutate 1%positive times (shouldSkipLoopElement 1%positive 5 storm_guard).2).1
        = List.repeat true (List.length times) /\
      (shouldSkipLoopElement 1%positive now'
         (mutate 1%positive times (shouldSkipLoopElement 1%positive 5 storm_guard).2).2).1 = false.
Proof.
  apply (loop_guard_bails_out_for_a_fixed_window 1%positive 5 storm_guard).
  vm_compute. reflexivity.
Defined.

(** X7. The guard is per node: a mutation of one node, processed or
    skipped, changes nothing of what the guard answers for another node. *)
Theorem loop_guard_nodes_are_independent
    (element other : Node) (now now' : Z) (g : LoopGuard) :
  element <> other ->
  guard_view (shouldSkipLoopElement element now g).2 other = guard_view g other /\
  (shouldSkipLoopElement other now' (shouldSkipLoopElement element now g).2).1 =
  (shouldSkipLoopElement other now' g).1.
Proof.
  intros Hne.
  assert (guard_view (shouldSkipLoopElement element now g).2 other = guard_view g other) as Hview.
  { unfold shouldSkipLoopElement, guard_view.
    destruct (elementsLastChanges g !! element) as [last|]; simpl.
    - destruct (now - last <? LOOP_DETECTION_THRESHOLD)%Z; simpl.
      + destruct (MAX_LOOP_CYCLES <=? default 0 (elementsLoopCycles g !! element))%Z; simpl;
          rewrite ?lookup_insert_ne by exact Hne; reflexivity.
      + rewrite !lookup_insert_ne by exact Hne. reflexivity.
    - rewrite lookup_insert_ne by exact Hne. reflexivity. }
  split; [exact Hview|].
  unfold guard_view in Hview. injection Hview as Hl Hc.
  unfold shouldSkipLoopElement at 1 3. rewrite Hl, Hc.
  destruct (elementsLastChanges g !! other) as [last|]; [|reflexivity].
  destruct (now' - last <? LOOP_DETECTION_THRESHOLD)%Z; [|reflexivity].
  destruct (MAX_LOOP_CYCLES <=? default 0 (elementsLoopCycles g !! other))%Z; reflexivity.
Qed.

Lemma loop_guard_nodes_are_independent_witness :
  guard_view (shouldSkipLoopElement 1%positive 5 storm_guard).2 2%positive
    = guard_view storm_guard 2%positive /\
  (shouldSkipLoopElement 2%positive 6 (shouldSkipLoopElement 1%positive 5 storm_guard).2).1 =
  (shouldSkipLoopElement 2%positive 6 storm_guard).1.
Proof. apply (loop_guard_nodes_are_independent 1%positive 2%positive 5 6 storm_guard). discriminate. Defined.

(** ** The palette and the parse cache *)

(** X8. The palette is a map from a role and an "r,g,b,a" key to the last
    value registered there: a lookup after [registerColor] finds the new
    value under the same role and key and is unchanged elsewhere; after
    [clearColorPalette] every lookup misses. *)
Theorem palette_lookup_after_register
    (palettes : gmap ColorType (gmap string string))
    (type type' : ColorType) (rgb rgb' : RGBA.t) (value : string) :
  getRegisteredColor type' rgb' (registerColor type rgb value palettes) =
    (if bool_decide (type' = type) && String.eqb (getRGBKey rgb') (getRGBKey rgb)
     then Some value
     else getRegisteredColor type' rgb' palettes) /\
  getRegisteredColor type' rgb' (clearColorPalette palettes) = None.
Proof.
  split.
  - unfold getRegisteredColor, registerColor.
    destruct (decide (type' = type)) as [->|Hne].
    + rewrite bool_decide_true by reflexivity. rewrite lookup_insert_eq. simpl.
      destruct (String.eqb (getRGBKey rgb') (getRGBKey rgb)) eqn:E.
      * apply String.eqb_eq in E as ->. rewrite lookup_insert_eq. reflexivity.
      * apply String.eqb_neq in E. rewrite lookup_insert_ne by (intros E'; apply E; symmetry; exact E').
        destruct (palettes !! type); [reflexivity | apply lookup_empty].
    + rewrite bool_decide_false by exact Hne.
      rewrite lookup_insert_ne by (intros E; apply Hne; symmetry; exact E). reflexivity.
  - unfold getRegisteredColor, clearColorPalette. rewrite lookup_fmap.
    destruct (palettes !! type'); [apply lookup_empty | reflexivity].
Qed.

Section ParseCache.

Lemma parse_cache_reachable_sound (cache : gmap string RGBA.t) :
  parse_cache_reachable cache -> parse_cache_sound cache.
Proof.
  induction 1 as [|cache color _ IH].
  - apply parse_cache_sound_empty.
  - apply parseColor_sound, IH.
Qed.

End ParseCache.

(** X9. The parse cache is transparent: in every state it reaches,
    [parseColor] returns what it returns on an empty cache, and a repeated
    call returns the same result and leaves the cache as it is. *)
Theorem parseColor_cache_transparent (cache : gmap string RGBA.t) (color : string) :
  parse_cache_reachable cache ->
  (parseColor color cache).1 = (parseColor color ∅).1 /\
  parseColor color (parseColor color cache).2 = parseColor color cache.
Proof.
  intros Hreach. pose proof (parse_cache_reachable_sound cache Hreach) as Hs.
  split.
  - rewrite (proj1 (parseColor_sound color cache Hs)).
    rewrite (proj1 (parseColor_sound color ∅ parse_cache_sound_empty)). reflexivity.
  - unfold parseColor.
    destruct (cache !! JS.toLowerCase (JS.trim color)) as [cached|] eqn:Hc; simpl.
    + rewrite Hc. reflexivity.
    + destruct (parseColor_normalized (JS.toLowerCase (JS.trim color))) as [rgb|] eqn:Hp; simpl.
      * rewrite lookup_insert_eq. reflexivity.
      * rewrite Hc. reflexivity.
Qed.

Lemma parseColor_cache_transparent_witness :
  let cache := (parseColor "#336699" (parseColor "red" ∅).2).2 in
  (parseColor " RED " cache).1 = (parseColor " RED " ∅).1 /\
  parseColor " RED " (parseColor " RED " cache).2 = parseColor " RED " cache.
Proof.
  apply (parseColor_cache_transparent _ " RED "). repeat constructor.
Defined.

(** ** The hex codecs *)

Section HexCodec.
Import JS.

Lemma hex_table : List.Forall (fun z => hex_pair_ok z /\ hex_alpha_ok z) (down 256).
Proof.
  let l := eval vm_compute in (down 256) in change (down 256) with l.
  repeat (apply List.Forall_cons;
          [vm_compute; repeat split; try reflexivity; intros; discriminate|]).
  apply List.Forall_nil.
Qed.

Lemma hex_pair (z : Z) : (0 <= z <= 255)%Z -> hex_pair_ok z.
Proof.
  intros Hz. pose proof hex_table as H. rewrite List.Forall_forall in H.
  apply (H z). apply down_In. lia.
Qed.

Lemma hex_alpha (z : Z) : (0 <= z <= 255)%Z -> hex_alpha_ok z.
Proof.
  intros Hz. pose proof hex_table as H. rewrite List.Forall_forall in H.
  apply (H z). apply down_In. lia.
Qed.

Lemma toLowerCase_app (s t : string) :
  toLowerCase (s +:+ t) = toLowerCase s +:+ toLowerCase t.
Proof.
  induction s as [|c s IH]; [reflexivity|].
  rewrite string_app_cons. simpl. rewrite IH, string_app_cons. reflexivity.
Qed.

Lemma trimEnd_app (s t : string) :
  t <> "" -> trimEnd t = t -> trimEnd (s +:+ t) = s +:+ t.
Proof.
  intros Hne Ht. induction s as [|c s IH]; [exact Ht|].
  rewrite string_app_cons. simpl. rewrite IH.
  destruct (s +:+ t) eqn:E; [|reflexivity].
  destruct s; [|rewrite string_app_cons in E; discriminate]. contradiction.
Qed.

Lemma string_length_2 (s : string) :
  String.length s = 2%nat -> exists c1 c2, s = String c1 (String c2 "").
Proof.
  destruct s as [|c1 [|c2 [|c3 s]]]; try discriminate. eauto.
Qed.

Lemma string_app_nil_l (t : string) : "" +:+ t = t.
Proof. reflexivity. Qed.

(** [parseHex] on "#" and six or eight characters. *)
Lemma parseHex_6 (a1 a2 b1 b2 c1 c2 : ascii) :
  parseHex (String "#" (String a1 (String a2 (String b1 (String b2 (String c1 (String c2 ""))))))) =
  Some (RGBA.mk (parseInt16 (String a1 (String a2 ""))) (parseInt16 (String b1 (String b2 "")))
                (parseInt16 (String c1 (String c2 ""))) 1).
Proof. reflexivity. Qed.

Lemma parseHex_8 (a1 a2 b1 b2 c1 c2 d1 d2 : ascii) :
  parseHex (String "#" (String a1 (String a2 (String b1 (String b2 (String c1 (String c2
              (String d1 (String d2 ""))))))))) =
  Some (RGBA.mk (parseInt16 (String a1 (String a2 ""))) (parseInt16 (String b1 (String b2 "")))
                (parseInt16 (String c1 (String c2 "")))
                (parseInt16 (String d1 (String d2 "")) / 255)%float).
Proof. reflexivity. Qed.

Lemma parseColor_normalized_hash (rest : string) :
  parseColor_normalized (String "#" rest) = parseHex (String "#" rest).
Proof. destruct rest; reflexivity. Qed.

Lemma trimStart_hash (rest : string) : trimStart (String "#" rest) = String "#" rest.
Proof. reflexivity. Qed.

(** A string of "#" and hex pairs survives [trim] and [toLowerCase]. *)
Lemma normalize_hex (body last : string) :
  toLowerCase body = body -> toLowerCase last = last ->
  last <> "" -> trimEnd last = last ->
  toLowerCase (trim ("#" +:+ body +:+ last)) = "#" +:+ body +:+ last.
Proof.
  intros Hb Hl Hne Ht. unfold trim.
  change ("#" +:+ body +:+ last) with (String "#" (body +:+ last)).
  rewrite trimStart_hash.
  change (String "#" (body +:+ last)) with ("#" +:+ (body +:+ last)).
  rewrite <- string_app_assoc.
  rewrite (trimEnd_app ("#" +:+ body) last Hne Ht).
  rewrite !toLowerCase_app, Hb, Hl. reflexivity.
Qed.

End HexCodec.

(** X10. [parseColor] reads back what [rgbToHex] writes: for every colour
    with integer channels between 0 and 255 and an alpha value k/255, in
    every state of the parse cache, parsing the hex text of the colour
    gives the colour. *)
Theorem parseColor_rgbToHex_roundtrip (cache : gmap string RGBA.t) (r g b k : Z) :
  parse_cache_reachable cache ->
  (0 <= r <= 255)%Z -> (0 <= g <= 255)%Z -> (0 <= b <= 255)%Z -> (0 <= k <= 255)%Z ->
  let rgb := RGBA.mk (JS.number_of_Z r) (JS.number_of_Z g) (JS.number_of_Z b)
                     (JS.number_of_Z k / 255)%float in
  (parseColor (rgbToHex rgb) cache).1 = Some rgb.
Proof.
  intros Hreach Hr Hg Hb Hk rgb. subst rgb.
  rewrite (proj1 (parseColor_sound _ cache (parse_cache_reachable_sound cache Hreach))).
  destruct (hex_pair r Hr) as (Lr & Lowr & Tr & _ & Pr).
  destruct (hex_pair g Hg) as (Lg & Lowg & Tg & _ & Pg).
  destruct (hex_pair b Hb) as (Lb & Lowb & Tb & _ & Pb).
  destruct (hex_pair k Hk) as (Lk & Lowk & Tk & _ & Pk).
  destruct (hex_alpha k Hk) as (Ha & Hlt & Hge).
  cbv zeta in *. unfold rgbToHex. rewrite Ha.
  destruct (string_length_2 _ Lr) as (r1 & r2 & Er).
  destruct (string_length_2 _ Lg) as (g1 & g2 & Eg).
  destruct (string_length_2 _ Lb) as (b1 & b2 & Eb).
  destruct (string_length_2 _ Lk) as (k1 & k2 & Ek).
  destruct (k <? 255)%Z.
  - rewrite (Hlt eq_refl).
    replace ("#" +:+ toHex (JS.number_of_Z r) +:+ toHex (JS.number_of_Z g) +:+
             toHex (JS.number_of_Z b) +:+ toHex (JS.number_of_Z k))
      with ("#" +:+ (toHex (JS.number_of_Z r) +:+ toHex (JS.number_of_Z g) +:+
                     toHex (JS.number_of_Z b)) +:+ toHex (JS.number_of_Z k))
      by (rewrite !string_app_assoc; reflexivity).
    rewrite normalize_hex;
      [| rewrite !toLowerCase_app, Lowr, Lowg, Lowb; reflexivity
       | exact Lowk | rewrite Ek; discriminate | exact Tk].
    rewrite Er, Eg, Eb, Ek in *. cbv [String.append].
    rewrite parseColor_normalized_hash, parseHex_8, Pr, Pg, Pb, Pk. reflexivity.
  - rewrite (Hge eq_refl).
    replace ("#" +:+ toHex (JS.number_of_Z r) +:+ toHex (JS.number_of_Z g) +:+
             toHex (JS.number_of_Z b))
      with ("#" +:+ (toHex (JS.number_of_Z r) +:+ toHex (JS.number_of_Z g)) +:+
            toHex (JS.number_of_Z b))
      by (rewrite !string_app_assoc; reflexivity).
    rewrite normalize_hex;
      [| rewrite !toLowerCase_app, Lowr, Lowg; reflexivity
       | exact Lowb | rewrite Eb; discriminate | exact Tb].
    rewrite Er, Eg, Eb in *. cbv [String.append].
    rewrite parseColor_normalized_hash, parseHex_6, Pr, Pg, Pb. reflexivity.
Qed.

Lemma parseColor_rgbToHex_roundtrip_witness :
  let rgb := RGBA.mk (JS.number_of_Z 51) (JS.number_of_Z 102) (JS.number_of_Z 153)
                     (JS.number_of_Z 128 / 255)%float in
  (parseColor (rgbToHex rgb) ∅).1 = Some rgb.
Proof.
  apply (parseColor_rgbToHex_roundtrip ∅ 51 102 153 128); [constructor | lia..].
Defined.

(** X11. The contrast pass has a hex codec of its own, and it round-trips
    too: its [parseColor] gives back every colour with integer channels
    between 0 and 255 from the text its [rgbToHex] writes. *)
Theorem css_parseColor_rgbToHex_roundtrip (r g b : Z) :
  (0 <= r <= 255)%Z -> (0 <= g <= 255)%Z -> (0 <= b <= 255)%Z ->
  let rgb := RGB.mk (JS.number_of_Z r) (JS.number_of_Z g) (JS.number_of_Z b) in
  css_parseColor (css_rgbToHex rgb) = Some rgb.
Proof.
  intros Hr Hg Hb rgb. subst rgb.
  destruct (hex_pair r Hr) as (Lr & _ & _ & Xr & Pr).
  destruct (hex_pair g Hg) as (Lg & _ & _ & Xg & Pg).
  destruct (hex_pair b Hb) as (Lb & _ & Tb & Xb & Pb).
  cbv zeta in *. unfold css_rgbToHex, css_parseColor. cbn [RGB.r RGB.g RGB.b].
  destruct (string_length_2 _ Lr) as (r1 & r2 & Er).
  destruct (string_length_2 _ Lg) as (g1 & g2 & Eg).
  destruct (string_length_2 _ Lb) as (b1 & b2 & Eb).
  assert (JS.trim ("#" +:+ toHex (JS.number_of_Z r) +:+ toHex (JS.number_of_Z g) +:+
                   toHex (JS.number_of_Z b))
          = "#" +:+ toHex (JS.number_of_Z r) +:+ toHex (JS.number_of_Z g) +:+
            toHex (JS.number_of_Z b)) as ->.
  { unfold JS.trim.
    change ("#" +:+ ?x) with (String "#" x). rewrite trimStart_hash.
    change (String "#" ?x) with ("#" +:+ x).
    rewrite <- !string_app_assoc. apply trimEnd_app; [rewrite Eb; discriminate | exact Tb]. }
  rewrite Er, Eg, Eb in *. cbv [String.append].
  simpl in Xr, Xg, Xb.
  apply andb_prop in Xr as [Xr1 Xr2]. apply andb_prop in Xr2 as [Xr2 _].
  apply andb_prop in Xg as [Xg1 Xg2]. apply andb_prop in Xg2 as [Xg2 _].
  apply andb_prop in Xb as [Xb1 Xb2]. apply andb_prop in Xb2 as [Xb2 _].
  cbn [String.length Nat.eqb andb list_ascii_of_string forallb].
  rewrite Xr1, Xr2, Xg1, Xg2, Xb1, Xb2. cbn [andb].
  unfold JS.substring. cbn [String.substring Nat.sub].
  rewrite Pr, Pg, Pb. reflexivity.
Qed.

Lemma css_parseColor_rgbToHex_roundtrip_witness :
  let rgb := RGB.mk (JS.number_of_Z 51) (JS.number_of_Z 102) (JS.number_of_Z 153) in
  css_parseColor (css_rgbToHex rgb) = Some rgb.
Proof. apply (css_parseColor_rgbToHex_roundtrip 51 102 153); lia. Defined.

(** ** More on the order of binary64 numbers *)

Section FloatOrderMore.
Local Open Scope float_scope.
Import JS.

Lemma SFleb_trans (x y z : spec_float) :
  SFleb x y = true -> SFleb y z = true -> SFleb x z = true.
Proof.
  unfold SFleb.
  destruct x as [sx|sx| |sx mx ex], y as [sy|sy| |sy my ey], z as [sz|sz| |sz mz ez];
    simpl; try discriminate; try reflexivity;
    repeat match goal with s : bool |- _ => destruct s end;
    simpl; try discriminate; try reflexivity;
    change (Pos.compare_cont Eq) with Pos.compare;
    repeat match goal with
           | |- context [Z.compare ?a ?b] => destruct (Z.compare_spec a b)
           | |- context [Pos.compare ?a ?b] => destruct (Pos.compare_spec a b)
           end; simpl; try discriminate; try reflexivity; try lia.
Qed.

Lemma leb_trans (x y z : float) :
  (x <=? y) = true -> (y <=? z) = true -> (x <=? z) = true.
Proof. rewrite !FloatAxioms.leb_spec. apply SFleb_trans. Qed.

Lemma SFcompare_not_nan (x y : spec_float) (c : comparison) :
  SFcompare x y = Some c -> x <> S754_nan /\ y <> S754_nan.
Proof. destruct x, y; simpl; intros H; split; congruence. Qed.

Lemma not_nan_is_nan (x : float) : Prim2SF x <> S754_nan -> is_nan x = false.
Proof.
  intros H. unfold is_nan. rewrite FloatAxioms.eqb_spec. unfold SFeqb.
  rewrite SFcompare_refl by exact H. reflexivity.
Qed.

Lemma leb_not_nan (x y : float) :
  (x <=? y) = true -> is_nan x = false /\ is_nan y = false.
Proof.
  rewrite FloatAxioms.leb_spec. unfold SFleb.
  destruct (SFcompare (Prim2SF x) (Prim2SF y)) as [c|] eqn:E; [|discriminate].
  intros _. destruct (SFcompare_not_nan _ _ _ E). split; apply not_nan_is_nan; assumption.
Qed.

Lemma ltb_not_nan (x y : float) :
  (x <? y) = true -> is_nan x = false /\ is_nan y = false.
Proof. intros H. apply leb_not_nan, ltb_leb, H. Qed.

(** Numbers each at most the other are equal in the order. *)
Lemma leb_antisym (x y : float) :
  (x <=? y) = true -> (y <=? x) = true -> (x =? y) = true.
Proof.
  rewrite !FloatAxioms.leb_spec, FloatAxioms.eqb_spec. unfold SFleb, SFeqb.
  rewrite (SFcompare_antisym (Prim2SF x) (Prim2SF y)).
  destruct (SFcompare (Prim2SF x) (Prim2SF y)) as [[]|]; simpl; congruence.
Qed.

Lemma ltb_not_leb (x y : float) : (x <? y) = true -> (y <=? x) = false.
Proof.
  rewrite FloatAxioms.ltb_spec, FloatAxioms.leb_spec. unfold SFltb, SFleb.
  rewrite (SFcompare_antisym (Prim2SF x) (Prim2SF y)).
  destruct (SFcompare (Prim2SF x) (Prim2SF y)) as [[]|]; simpl; congruence.
Qed.

Lemma eqb_refl_number (x : float) : is_nan x = false -> (x =? x) = true.
Proof. unfold is_nan. intros H. apply negb_false_iff in H. exact H. Qed.

(** Two numbers neither of which is below the other are the same number,
    or both are zeros. *)
Lemma SFcompare_Eq (x y : spec_float) :
  SFcompare x y = Some Eq ->
  x = y \/ exists s s', x = S754_zero s /\ y = S754_zero s'.
Proof.
  destruct x as [sx|sx| |sx mx ex], y as [sy|sy| |sy my ey]; simpl; try discriminate;
    try (intros _; right; eauto; fail);
    try (destruct sx; discriminate); try (destruct sy; discriminate).
  - destruct sx, sy; try discriminate; intros _; left; reflexivity.
  - destruct sx, sy; try discriminate;
      destruct (Z.compare_spec ex ey); try discriminate; subst;
      change (PosDef.Pos.compare_cont Eq) with Pos.compare;
      destruct (Pos.compare_spec mx my); try discriminate; subst; left; reflexivity.
Qed.

Lemma zero_cases (x : float) (s : bool) :
  Prim2SF x = S754_zero s -> x = if s then neg_zero else zero.
Proof.
  intros H. rewrite <- (FloatAxioms.SF2Prim_Prim2SF x), H. destruct s; reflexivity.
Qed.

Lemma tie_cases (x y : float) :
  is_nan x = false -> is_nan y = false -> (x <? y) = false -> (y <? x) = false ->
  x = y \/ ((x = zero \/ x = neg_zero) /\ (y = zero \/ y = neg_zero)).
Proof.
  intros Hx%is_nan_false Hy%is_nan_false.
  rewrite !FloatAxioms.ltb_spec. unfold SFltb.
  rewrite (SFcompare_antisym (Prim2SF x) (Prim2SF y)).
  pose proof (SFcompare_defined _ _ Hx Hy) as Hd.
  destruct (SFcompare (Prim2SF x) (Prim2SF y)) as [[]|] eqn:E; simpl; try congruence.
  intros _ _. destruct (SFcompare_Eq _ _ E) as [Heq|(s & s' & Hzx & Hzy)].
  - left. rewrite <- (FloatAxioms.SF2Prim_Prim2SF x), <- (FloatAxioms.SF2Prim_Prim2SF y), Heq.
    reflexivity.
  - right. apply zero_cases in Hzx, Hzy. split.
    + destruct s; auto.
    + destruct s'; auto.
Qed.

Lemma ltb_asym (x y : float) : (x <? y) = true -> (y <? x) = false.
Proof.
  rewrite !FloatAxioms.ltb_spec. unfold SFltb.
  rewrite (SFcompare_antisym (Prim2SF x) (Prim2SF y)).
  destruct (SFcompare (Prim2SF x) (Prim2SF y)) as [[]|]; simpl; congruence.
Qed.

Lemma Math_max_comm (x y : float) : Math_max x y = Math_max y x.
Proof.
  unfold Math_max. rewrite (orb_comm (is_nan y)).
  destruct (is_nan x) eqn:Hx; [reflexivity|].
  destruct (is_nan y) eqn:Hy; [reflexivity|]. simpl.
  destruct (x <? y) eqn:A.
  - rewrite (ltb_asym _ _ A). reflexivity.
  - destruct (y <? x) eqn:B; [reflexivity|].
    destruct (tie_cases x y Hx Hy A B) as [->|[[-> | ->] [-> | ->]]]; reflexivity.
Qed.

Lemma Math_min_comm (x y : float) : Math_min x y = Math_min y x.
Proof.
  unfold Math_min. rewrite (orb_comm (is_nan y)).
  destruct (is_nan x) eqn:Hx; [reflexivity|].
  destruct (is_nan y) eqn:Hy; [reflexivity|]. simpl.
  destruct (x <? y) eqn:A.
  - rewrite (ltb_asym _ _ A). reflexivity.
  - destruct (y <? x) eqn:B; [reflexivity|].
    destruct (tie_cases x y Hx Hy A B) as [->|[[-> | ->] [-> | ->]]]; reflexivity.
Qed.

End FloatOrderMore.

(** ** [clamp], [getContrastRatio], [adjustForContrast], [transformBorderColor] *)

Section ContrastFacts.
Local Open Scope float_scope.
Import JS.

(** X12. For a number [v] and bounds [lo <= hi], [clamp v lo hi] is, in the
    order of numbers, [lo] when [v] is below [lo], [hi] when [v] is above
    [hi], and [v] itself otherwise. *)
Theorem clamp_by_cases (v lo hi : number) :
  is_nan v = false -> (lo <=? hi) = true ->
  (clamp v lo hi =? (if v <? lo then lo else if hi <? v then hi else v)) = true.
Proof.
  intros Hv Hle. destruct (leb_not_nan _ _ Hle) as [Hlo Hhi].
  assert (Hm : exists m, Math_max v lo = m /\ is_nan m = false /\
                         ((m = lo /\ (v <=? lo) = true) \/ (m = v /\ (lo <=? v) = true))).
  { destruct (Math_max_cases v lo Hv Hlo) as [[E H]|[E H]]; eexists; (split; [reflexivity|]);
      rewrite E; (split; [assumption|]); auto. }
  destruct Hm as (m & Em & Hmn & Hm). unfold clamp. rewrite Em.
  destruct (v <? lo) eqn:A.
  - assert (m = lo) as ->.
    { destruct Hm as [[-> _]|[-> H]]; [reflexivity|].
      rewrite (ltb_not_leb _ _ A) in H. discriminate. }
    destruct (Math_min_cases lo hi Hlo Hhi) as [[-> _]|[-> H]].
    + apply eqb_refl_number, Hlo.
    + apply leb_antisym; assumption.
  - pose proof (not_ltb_leb _ _ Hv Hlo A) as Hlov.
    assert (Hmle : (m <=? v) = true /\ (v <=? m) = true).
    { destruct Hm as [[-> H]|[-> _]]; split; auto using leb_refl. }
    destruct Hmle as [Hmv Hvm].
    destruct (hi <? v) eqn:B.
    + destruct (Math_min_cases m hi Hmn Hhi) as [[-> H]|[-> _]].
      * pose proof (leb_trans _ _ _ Hvm H) as Hvh.
        rewrite (ltb_not_leb _ _ B) in Hvh. discriminate.
      * apply eqb_refl_number, Hhi.
    + pose proof (not_ltb_leb _ _ Hhi Hv B) as Hvh.
      destruct (Math_min_cases m hi Hmn Hhi) as [[-> _]|[-> H]].
      * apply leb_antisym; assumption.
      * apply leb_antisym; [exact (leb_trans _ _ _ H Hmv) | assumption].
Qed.

Lemma clamp_by_cases_witness :
  (clamp 300 0 255 =? (if 300 <? 0 then 0 else if 255 <? 300 then 255 else 300)) = true.
Proof. apply (clamp_by_cases 300 0 255); reflexivity. Defined.

(** X13. The contrast ratio does not depend on the order of its two
    colours. *)
Theorem getContrastRatio_symmetric (rgb1 rgb2 : RGB.t) :
  getContrastRatio rgb1 rgb2 = getContrastRatio rgb2 rgb1.
Proof.
  unfold getContrastRatio. cbv zeta.
  generalize (getRelativeLuminance rgb1) (getRelativeLuminance rgb2). intros x y.
  rewrite (Math_max_comm x y), (Math_min_comm x y). reflexivity.
Qed.

Lemma step_table : List.Forall step_ok (down 256).
Proof.
  let l := eval vm_compute in (down 256) in change (down 256) with l.
  repeat (apply List.Forall_cons; [vm_compute; split; reflexivity|]).
  apply List.Forall_nil.
Qed.

Lemma step_channel (z : Z) : (0 <= z <= 255)%Z -> step_ok z.
Proof.
  intros Hz. pose proof step_table as H. rewrite List.Forall_forall in H.
  apply (H z). apply down_In. lia.
Qed.

Lemma adjustStep_shift (lighten : bool) (r g b : Z) :
  (0 <= r <= 255)%Z -> (0 <= g <= 255)%Z -> (0 <= b <= 255)%Z ->
  adjustStep lighten (shift_colour lighten 0 r g b) = shift_colour lighten 1 r g b.
Proof.
  intros Hr Hg Hb. unfold adjustStep, shift_colour, shift_channel. simpl.
  destruct (step_channel r Hr) as [Hr1 Hr2], (step_channel g Hg) as [Hg1 Hg2],
           (step_channel b Hb) as [Hb1 Hb2].
  destruct lighten; congruence.
Qed.

Lemma shift_channel_succ (lighten : bool) (k : nat) (z : Z) :
  shift_channel lighten (S k) z = shift_channel lighten k (shift_channel lighten 1 z).
Proof. unfold shift_channel. rewrite Nat.iter_succ_r. reflexivity. Qed.

Lemma shift_channel_range (lighten : bool) (k : nat) (z : Z) :
  (0 <= z <= 255)%Z ->
  (0 <= shift_channel lighten k z <= 255)%Z /\
  (if lighten then z <= shift_channel lighten k z else shift_channel lighten k z <= z)%Z.
Proof.
  intros Hz. induction k as [|k IH].
  - unfold shift_channel. simpl. destruct lighten; lia.
  - unfold shift_channel in *. simpl. destruct lighten; lia.
Qed.

Lemma adjustLoop_shift (n : nat) (lighten : bool) (bgRgb : RGB.t) (targetRatio : number)
    (r g b : Z) :
  (0 <= r <= 255)%Z -> (0 <= g <= 255)%Z -> (0 <= b <= 255)%Z ->
  exists k, (k <= n)%nat /\
    adjustLoop n lighten bgRgb targetRatio (shift_colour lighten 0 r g b) =
    shift_colour lighten k r g b.
Proof.
  revert r g b. induction n as [|n IH]; intros r g b Hr Hg Hb.
  - exists 0%nat. split; [lia | reflexivity].
  - cbn [adjustLoop]. rewrite adjustStep_shift by assumption.
    destruct (targetRatio <=? _).
    + exists 1%nat. split; [lia | reflexivity].
    + pose proof (proj1 (shift_channel_range lighten 1 r Hr)) as Hr1.
      pose proof (proj1 (shift_channel_range lighten 1 g Hg)) as Hg1.
      pose proof (proj1 (shift_channel_range lighten 1 b Hb)) as Hb1.
      destruct (IH _ _ _ Hr1 Hg1 Hb1) as (k & Hk & E).
      exists (S k). split; [lia|].
      unfold shift_colour at 2.
      rewrite (shift_channel_succ lighten k r), (shift_channel_succ lighten k g),
        (shift_channel_succ lighten k b).
      exact E.
Qed.

(** X14. On a text colour with integer channels in 0..255 the contrast
    repair returns the colour whose three channels have all gone through
    the same number [k <= 20] of steps of 15, each step capped at 255 when
    the background's luminance is below 0.5 (lighten) and at 0 otherwise
    (darken): channels stay integers in 0..255 and never move against the
    direction. *)
Theorem adjustForContrast_moves_channels_in_lock_step
    (r g b : Z) (bgRgb : RGB.t) (targetRatio : number) :
  (0 <= r <= 255)%Z -> (0 <= g <= 255)%Z -> (0 <= b <= 255)%Z ->
  let lighten := getRelativeLuminance bgRgb <? 0.5 in
  exists k, (k <= 20)%nat /\
    adjustForContrast (RGB.mk (number_of_Z r) (number_of_Z g) (number_of_Z b)) bgRgb targetRatio =
    shift_colour lighten k r g b /\
    Forall (fun z => (0 <= shift_channel lighten k z <= 255)%Z /\
                     (if lighten then z <= shift_channel lighten k z
                      else shift_channel lighten k z <= z)%Z) [r; g; b].
Proof.
  intros Hr Hg Hb lighten.
  assert (Hrange : forall k,
    Forall (fun z => (0 <= shift_channel lighten k z <= 255)%Z /\
                     (if lighten then z <= shift_channel lighten k z
                      else shift_channel lighten k z <= z)%Z) [r; g; b]).
  { intros k. repeat constructor; apply shift_channel_range; assumption. }
  unfold adjustForContrast. cbv zeta. fold lighten.
  destruct (targetRatio <=? _).
  - exists 0%nat. split; [lia|]. split; [reflexivity | apply Hrange].
  - destruct (adjustLoop_shift 20 lighten bgRgb targetRatio r g b Hr Hg Hb) as (k & Hk & E).
    exists k. split; [assumption|]. split; [exact E | apply Hrange].
Qed.

Lemma adjustForContrast_moves_channels_in_lock_step_witness :
  let lighten := getRelativeLuminance (RGB.mk 0 0 0) <? 0.5 in
  exists k, (k <= 20)%nat /\
    adjustForContrast (RGB.mk (number_of_Z 34) (number_of_Z 250) (number_of_Z 0))
                      (RGB.mk 0 0 0) 4.5 =
    shift_colour lighten k 34 250 0 /\
    Forall (fun z => (0 <= shift_channel lighten k z <= 255)%Z /\
                     (if lighten then z <= shift_channel lighten k z
                      else shift_channel lighten k z <= z)%Z) [34; 250; 0]%Z.
Proof.
  apply (adjustForContrast_moves_channels_in_lock_step 34 250 0 (RGB.mk 0 0 0) 4.5); lia.
Defined.

(** X15. [transformBorderColor] keeps alpha, takes hue and saturation either
    from the input or, for a neutral colour, from a pole, and, whenever the
    remapped lightness is a number, returns a lightness within [0.2, 0.5]
    in dark mode and within [0.4, 0.7] in light mode. *)
Theorem transformBorderColor_lightness_band
    (hsl : HSLA.t) (poles : ColorPoles) (isDarkMode : bool) :
  let lo := if isDarkMode then 0.2 else 0.4 in
  let hi := if isDarkMode then 0.5 else 0.7 in
  is_nan (interpolate (HSLA.l hsl) 0 1 lo hi) = false ->
  let out := transformBorderColor hsl poles isDarkMode in
  (lo <=? HSLA.l out) = true /\ (HSLA.l out <=? hi) = true /\
  HSLA.a out = HSLA.a hsl /\
  ((HSLA.h out, HSLA.s out) = (HSLA.h hsl, HSLA.s hsl) \/
   (HSLA.h out, HSLA.s out) =
     let pole := if isDarkMode then pole_text poles else pole_background poles in
     (HSLA.h pole, HSLA.s pole)).
Proof.
  intros lo hi Hn out. subst out. destruct hsl as [h s l a].
  unfold transformBorderColor. cbn [HSLA.l HSLA.a HSLA.h HSLA.s] in *.
  assert (Hband : (lo <=? scale l 0 1 lo hi) = true /\ (scale l 0 1 lo hi <=? hi) = true).
  { rewrite scale_clamps_interpolate.
    replace (Math_min lo hi) with lo by (subst lo hi; destruct isDarkMode; reflexivity).
    replace (Math_max lo hi) with hi by (subst lo hi; destruct isDarkMode; reflexivity).
    apply clamp_within; try assumption; subst lo hi; destruct isDarkMode; reflexivity. }
  fold lo hi.
  destruct (isNeutralColor h s l (l <? 0.5)); destruct isDarkMode;
    cbn [HSLA.l HSLA.a HSLA.h HSLA.s];
    (split; [apply Hband|]); (split; [apply Hband|]); (split; [reflexivity|]); auto.
Qed.

Lemma transformBorderColor_lightness_band_witness :
  let poles := {| pole_background := HSLA.mk 0 0 0.1 1;
                  pole_text := HSLA.mk 0 0 0.9 1;
                  pole_surface := HSLA.mk 0 0 0.2 1 |} in
  let out := transformBorderColor (HSLA.mk 210 0.5 0.9 1) poles true in
  (0.2 <=? HSLA.l out) = true /\ (HSLA.l out <=? 0.5) = true /\
  HSLA.a out = 1 /\
  ((HSLA.h out, HSLA.s out) = (210, 0.5) \/
   (HSLA.h out, HSLA.s out) = (HSLA.h (pole_text poles), HSLA.s (pole_text poles))).
Proof.
  apply (transformBorderColor_lightness_band (HSLA.mk 210 0.5 0.9 1)
           {| pole_background := HSLA.mk 0 0 0.1 1;
              pole_text := HSLA.mk 0 0 0.9 1;
              pole_surface := HSLA.mk 0 0 0.2 1 |} true).
  reflexivity.
Defined.

End ContrastFacts.

(** ** The colour matrices *)

Section MatrixFacts.
Local Open Scope float_scope.
Import JS.

(** X16. The matrix cache is keyed by theme id and mode only: once a matrix
    has been fetched for a theme, a theme with the same id gets that same
    matrix, whatever its filters, and the cache is left as it is. *)
Theorem getCachedFilterMatrix_ignores_filters
    (theme theme' : ThemeProfile) (isDarkMode : bool) (cache : gmap string ColorMatrix) :
  id theme' = id theme ->
  getCachedFilterMatrix theme' isDarkMode (getCachedFilterMatrix theme isDarkMode cache).2 =
  getCachedFilterMatrix theme isDarkMode cache.
Proof.
  intros Hid. unfold getCachedFilterMatrix, matrixKey. rewrite Hid.
  destruct (cache !! _) as [cached|] eqn:E; cbn [snd].
  - rewrite E. reflexivity.
  - rewrite lookup_insert_eq. reflexivity.
Qed.

Lemma getCachedFilterMatrix_ignores_filters_witness :
  getCachedFilterMatrix brighterDark false (getCachedFilterMatrix darkProfile false ∅).2 =
  getCachedFilterMatrix darkProfile false ∅.
Proof. apply (getCachedFilterMatrix_ignores_filters darkProfile brighterDark false ∅). reflexivity. Defined.

Lemma applyColorMatrix_diagonal (v : number) (m : ColorMatrix) (r g b : Z) (a : number) :
  values m = [v; 0; 0; 0; v; 0; 0; 0; v] ->
  diagonal_ok v r -> diagonal_ok v g -> diagonal_ok v b ->
  applyColorMatrix (RGBA.mk (number_of_Z r) (number_of_Z g) (number_of_Z b) a) m =
  RGBA.mk (scaled_channel v r) (scaled_channel v g) (scaled_channel v b) a.
Proof.
  intros Hm (Hr0 & Hr1 & _ & _) (Hg0 & _ & Hg2 & _) (Hb0 & _ & _ & Hb3).
  unfold applyColorMatrix. rewrite Hm. unfold at_. cbn [List.nth].
  rewrite Hr0, Hg0, Hb0, Hr1, Hg2, Hb3. reflexivity.
Qed.

Ltac check_channel_table :=
  unfold channel_table;
  let l := eval vm_compute in (down 256) in change (down 256) with l;
  repeat (apply List.Forall_cons; [vm_compute; repeat split; reflexivity|]);
  apply List.Forall_nil.

Lemma identity_table : channel_table 1.
Proof. check_channel_table. Qed.

Lemma light_table : channel_table 0.68517549236006192.
Proof. check_channel_table. Qed.

Lemma dark_table : channel_table 0.70710678118654757.
Proof. check_channel_table. Qed.

Lemma gamma_factor_light : gamma_factor false = 0.68517549236006192.
Proof. vm_compute. reflexivity. Qed.

Lemma gamma_factor_dark : gamma_factor true = 0.70710678118654757.
Proof. vm_compute. reflexivity. Qed.

Lemma gamma_table (isDarkMode : bool) : channel_table (gamma_factor isDarkMode).
Proof.
  destruct isDarkMode.
  - rewrite gamma_factor_dark. exact dark_table.
  - rewrite gamma_factor_light. exact light_table.
Qed.

Lemma channel_table_at (v : number) (z : Z) :
  channel_table v -> (0 <= z <= 255)%Z ->
  diagonal_ok v z /\ (scaled_channel v z <=? number_of_Z z) = true.
Proof.
  intros H Hz. unfold channel_table in H. rewrite List.Forall_forall in H.
  apply (H z). apply down_In. lia.
Qed.

Lemma identity_channel (z : Z) : (0 <= z <= 255)%Z -> scaled_channel 1 z = number_of_Z z.
Proof.
  intros Hz.
  assert (H : List.Forall (fun z => scaled_channel 1 z = number_of_Z z) (down 256)).
  { let l := eval vm_compute in (down 256) in change (down 256) with l.
    repeat (apply List.Forall_cons; [vm_compute; reflexivity|]). apply List.Forall_nil. }
  rewrite List.Forall_forall in H. apply (H z). apply down_In. lia.
Qed.

(** X17. The identity matrix leaves every colour with integer channels in
    0..255 as it is. *)
Theorem applyColorMatrix_identity (r g b : Z) (a : number) :
  (0 <= r <= 255)%Z -> (0 <= g <= 255)%Z -> (0 <= b <= 255)%Z ->
  applyColorMatrix (RGBA.mk (number_of_Z r) (number_of_Z g) (number_of_Z b) a) IDENTITY_MATRIX =
  RGBA.mk (number_of_Z r) (number_of_Z g) (number_of_Z b) a.
Proof.
  intros Hr Hg Hb.
  rewrite (applyColorMatrix_diagonal 1 IDENTITY_MATRIX r g b a);
    try (apply (channel_table_at 1 _ identity_table); assumption); [|reflexivity].
  rewrite !identity_channel by assumption. reflexivity.
Qed.

Lemma applyColorMatrix_identity_witness :
  applyColorMatrix (RGBA.mk (number_of_Z 12) (number_of_Z 200) (number_of_Z 255) 0.5)
    IDENTITY_MATRIX =
  RGBA.mk (number_of_Z 12) (number_of_Z 200) (number_of_Z 255) 0.5.
Proof. apply (applyColorMatrix_identity 12 200 255 0.5); lia. Defined.

Lemma createFilterMatrix_passed_over (theme : ThemeProfile) (isDarkMode : bool) :
  passed_over (filter_of theme brightness) = true ->
  passed_over (filter_of theme contrast) = true ->
  createFilterMatrix theme isDarkMode =
  composeMatrices IDENTITY_MATRIX (createGammaMatrix (if isDarkMode then 2.0 else 2.2)).
Proof.
  intros Hb Hc. unfold createFilterMatrix.
  destruct (filter_of theme brightness) as [vb|]; cbn [passed_over] in Hb;
    [apply negb_true_iff in Hb; rewrite Hb|];
    (destruct (filter_of theme contrast) as [vc|]; cbn [passed_over] in Hc;
      [apply negb_true_iff in Hc; rewrite Hc|]);
    destruct isDarkMode; reflexivity.
Qed.

Lemma gamma_matrix_values (isDarkMode : bool) :
  values (composeMatrices IDENTITY_MATRIX (createGammaMatrix (if isDarkMode then 2.0 else 2.2))) =
  let v := gamma_factor isDarkMode in [v; 0; 0; 0; v; 0; 0; 0; v].
Proof. destruct isDarkMode; vm_compute; reflexivity. Qed.

(** X18. For a theme whose brightness and contrast filters are passed over
    (absent, zero, NaN or one) the filter matrix is the gamma matrix alone:
    on a colour with integer channels in 0..255 it scales each channel by
    2^(1/gamma - 1) on its own, rounds, and never raises a channel; alpha is
    kept. *)
Theorem createFilterMatrix_gamma_only_darkens
    (theme : ThemeProfile) (isDarkMode : bool) (r g b : Z) (a : number) :
  passed_over (filter_of theme brightness) = true ->
  passed_over (filter_of theme contrast) = true ->
  (0 <= r <= 255)%Z -> (0 <= g <= 255)%Z -> (0 <= b <= 255)%Z ->
  let v := gamma_factor isDarkMode in
  applyColorMatrix (RGBA.mk (number_of_Z r) (number_of_Z g) (number_of_Z b) a)
    (createFilterMatrix theme isDarkMode) =
  RGBA.mk (scaled_channel v r) (scaled_channel v g) (scaled_channel v b) a /\
  Forall (fun z => (scaled_channel v z <=? number_of_Z z) = true) [r; g; b].
Proof.
  intros Hbr Hco Hr Hg Hb v.
  pose proof (channel_table_at v r (gamma_table isDarkMode) Hr) as [Dr Lr].
  pose proof (channel_table_at v g (gamma_table isDarkMode) Hg) as [Dg Lg].
  pose proof (channel_table_at v b (gamma_table isDarkMode) Hb) as [Db Lb].
  split.
  - apply applyColorMatrix_diagonal; try assumption.
    rewrite (createFilterMatrix_passed_over theme isDarkMode Hbr Hco).
    apply gamma_matrix_values.
  - repeat constructor; assumption.
Qed.

Lemma createFilterMatrix_gamma_only_darkens_witness :
  let v := gamma_factor false in
  applyColorMatrix (RGBA.mk (number_of_Z 255) (number_of_Z 128) (number_of_Z 0) 1)
    (createFilterMatrix darkProfile false) =
  RGBA.mk (scaled_channel v 255) (scaled_channel v 128) (scaled_channel v 0) 1 /\
  Forall (fun z => (scaled_channel v z <=? number_of_Z z) = true) [255; 128; 0]%Z.
Proof.
  apply (createFilterMatrix_gamma_only_darkens darkProfile false 255 128 0 1);
    first [reflexivity | lia].
Defined.

End MatrixFacts.

(** ** The palette and the function cache of [transformColor] *)

Section PaletteAndFunctionCache.

Lemma rgbToHex_not_empty (rgb : RGBA.t) : rgbToHex rgb <> "".
Proof.
  destruct rgb as [r g b a]. unfold rgbToHex.
  destruct (PrimFloat.ltb a 1); rewrite string_app_cons; discriminate.
Qed.

Lemma modifyColor_not_empty rgb theme body poles matrix :
  modifyColor rgb theme body poles matrix <> "".
Proof. unfold modifyColor. apply rgbToHex_not_empty. Qed.


Lemma selectModifier_fresh (role : ColorType) (isDarkMode : bool) (st : Caches) :
  forall n, (closures st + allocates role <= n)%nat ->
    fn_id (selectModifier role isDarkMode (closures st)) <> BorderClosure n.
Proof.
  intros n Hn. destruct role; simpl in *; try (destruct isDarkMode; discriminate).
  intros [= E]. lia.
Qed.

(** What [modifyColorWithCache] returns and leaves. *)
Lemma modifyColorWithCache_tidy (rgb : RGBA.t) (theme : ThemeProfile) (modifier : HSLModifier)
    (st : Caches) :
  caches_tidy st ->
  let r := modifyColorWithCache rgb theme modifier st in
  r.1 <> "" /\
  colorPalettes r.2 = colorPalettes st /\
  closures r.2 = closures st /\
  (forall f fnCache key value,
     colorModificationCache r.2 !! f = Some fnCache -> fnCache !! key = Some value ->
     value <> "") /\
  (forall f, f <> fn_id modifier ->
     colorModificationCache r.2 !! f = colorModificationCache st !! f) /\
  (colorModificationCache st !! fn_id modifier = None ->
     r.1 = modifyColor rgb theme (fn_body modifier)
             (getColorPoles theme (rgbaParseCache st)).1
             (getCachedFilterMatrix theme false (matrixCache st)).1 /\
     size (colorModificationCache r.2) = S (size (colorModificationCache st))).
Proof.
  intros [Hmod Hpal Hcl]. unfold modifyColorWithCache.
  set (fnCache := default ∅ (colorModificationCache st !! fn_id modifier)).
  assert (HfnCache : forall key value, fnCache !! key = Some value -> value <> "").
  { subst fnCache. destruct (colorModificationCache st !! fn_id modifier) as [fc|] eqn:Hfc; simpl.
    - intros key value. apply (Hmod _ _ _ _ Hfc).
    - intros key value H. rewrite lookup_empty in H. discriminate. }
  destruct (fnCache !! getCacheId rgb theme) as [cached|] eqn:Hhit.
  - cbn [fst snd colorPalettes closures colorModificationCache].
    split; [exact (HfnCache _ _ Hhit)|]. split; [reflexivity|]. split; [reflexivity|].
    split; [|split].
    + intros f fc key value Hf. destruct (decide (fn_id modifier = f)) as [<-|Hne].
      * rewrite lookup_insert_eq in Hf. injection Hf as <-. apply HfnCache.
      * rewrite lookup_insert_ne in Hf by exact Hne. apply (Hmod _ _ _ _ Hf).
    + intros f Hne. apply lookup_insert_ne. congruence.
    + intros Hnone. subst fnCache. rewrite Hnone in Hhit. simpl in Hhit.
      rewrite lookup_empty in Hhit. discriminate.
  - destruct (getColorPoles theme (rgbaParseCache st)) as [poles rgbaCache].
    destruct (getCachedFilterMatrix theme false (matrixCache st)) as [matrix mCache].
    cbn [fst snd colorPalettes closures colorModificationCache].
    split; [apply modifyColor_not_empty|]. split; [reflexivity|]. split; [reflexivity|].
    split; [|split].
    + intros f fc key value Hf. destruct (decide (fn_id modifier = f)) as [<-|Hne].
      * rewrite lookup_insert_eq in Hf. injection Hf as <-.
        destruct (decide (getCacheId rgb theme = key)) as [<-|Hk].
        -- rewrite lookup_insert_eq. intros [= <-]. apply modifyColor_not_empty.
        -- rewrite lookup_insert_ne by exact Hk. apply HfnCache.
      * rewrite lookup_insert_ne in Hf by exact Hne. apply (Hmod _ _ _ _ Hf).
    + intros f Hne. apply lookup_insert_ne. congruence.
    + intros Hnone. split; [reflexivity|]. apply map_size_insert_None, Hnone.
Qed.

Lemma transformColor_tidy rgb role theme mode shouldRegister st :
  caches_tidy st -> caches_tidy (transformColor rgb role theme mode shouldRegister st).2.
Proof.
  intros Ht. unfold transformColor.
  match goal with |- context [match ?r with Some _ => _ | None => _ end] => destruct r end;
    [exact Ht|].
  set (modifier := selectModifier role _ (closures st)).
  pose proof (modifyColorWithCache_tidy rgb theme modifier st Ht) as H. cbv zeta in H.
  destruct (modifyColorWithCache rgb theme modifier st) as [result st1].
  cbn [fst snd] in *. destruct H as (Hne & Hpal & Hcl & Hmod & Hother & _).
  constructor; cbn [colorModificationCache colorPalettes closures].
  - exact Hmod.
  - destruct (default true shouldRegister).
    + intros role' pal key value Hrole. unfold registerColor in Hrole.
      destruct (decide (role = role')) as [<-|Hner].
      * rewrite lookup_insert_eq in Hrole. injection Hrole as <-.
        destruct (decide (getRGBKey rgb = key)) as [<-|Hk].
        -- rewrite lookup_insert_eq. intros [= <-]. exact Hne.
        -- rewrite lookup_insert_ne by exact Hk.
           destruct (colorPalettes st1 !! role) as [old|] eqn:Hold; simpl.
           ++ rewrite Hpal in Hold. apply (tidy_palette _ Ht _ _ _ _ Hold).
           ++ intros H. rewrite lookup_empty in H. discriminate.
      * rewrite lookup_insert_ne in Hrole by exact Hner. rewrite Hpal in Hrole.
        apply (tidy_palette _ Ht _ _ _ _ Hrole).
    + rewrite Hpal. apply (tidy_palette _ Ht).
  - intros n Hn. rewrite Hcl in Hn. rewrite Hother.
    + apply (tidy_closures _ Ht). lia.
    + intros E. symmetry in E. revert E. subst modifier. apply selectModifier_fresh. exact Hn.
Qed.

Lemma parseColorCached_tidy value st :
  caches_tidy st -> caches_tidy (parseColorCached value st).2.
Proof.
  intros Ht. unfold parseColorCached. destruct (parseCache st !! value); [exact Ht|].
  destruct (parseColor value (rgbaParseCache st)). destruct Ht. constructor; assumption.
Qed.

Lemma transformCSSColor_tidy value role theme mode st :
  caches_tidy st -> caches_tidy (transformCSSColor value role theme mode st).2.
Proof.
  intros Ht. unfold transformCSSColor.
  pose proof (parseColorCached_tidy value st Ht) as H.
  destruct (parseColorCached value st) as [[rgb|] st1]; cbn [snd] in H; [|exact H].
  pose proof (transformColor_tidy rgb role theme mode None st1 H) as H1.
  destruct (transformColor rgb role theme mode None st1). exact H1.
Qed.

Lemma clearColorCache_tidy st : caches_tidy (clearColorCache st).
Proof.
  constructor; cbn [clearColorCache colorModificationCache colorPalettes closures].
  - intros f fc key value H. rewrite lookup_empty in H. discriminate.
  - intros role pal key value H. unfold clearColorPalette in H. rewrite lookup_fmap in H.
    destruct (colorPalettes st !! role); [|discriminate].
    simpl in H. injection H as <-. intros H. rewrite lookup_empty in H. discriminate.
  - intros n _. apply lookup_empty.
Qed.

Lemma caches_reachable_tidy st : caches_reachable st -> caches_tidy st.
Proof.
  induction 1.
  - constructor; cbn [initial_caches colorModificationCache colorPalettes closures].
    + intros f fc key value H. rewrite lookup_empty in H. discriminate.
    + intros role pal key value H. rewrite lookup_empty in H. discriminate.
    + intros n _. apply lookup_empty.
  - apply transformColor_tidy; assumption.
  - apply transformCSSColor_tidy; assumption.
  - apply clearColorCache_tidy.
Qed.









(** X20. A border colour that is not served from the palette never hits the
    function cache: the closure [transformColor] builds is new at every
    call, so the colour is computed afresh and [colorModificationCache]
    gains one more function each time. *)
Theorem transformColor_border_closure_never_cached
    (st : Caches) (rgb : RGBA.t) (theme : ThemeProfile) (mode : option ThemeMode)
    (shouldRegister : option bool) :
  caches_reachable st ->
  getRegisteredColor border_t rgb (colorPalettes st) = None ->
  let r := transformColor rgb border_t theme mode shouldRegister st in
  r.1 = modifyColor rgb theme (borderModifier theme mode)
          (getColorPoles theme (rgbaParseCache st)).1
          (getCachedFilterMatrix theme false (matrixCache st)).1 /\
  size (colorModificationCache r.2) = S (size (colorModificationCache st)) /\
  closures r.2 = S (closures st).
Proof.
  intros Hr%caches_reachable_tidy Hreg r. subst r.
  unfold transformColor. rewrite Hreg.
  replace (if default true shouldRegister then None else None) with (@None string)
    by (destruct (default true shouldRegister); reflexivity).
  set (modifier := selectModifier border_t _ (closures st)).
  pose proof (modifyColorWithCache_tidy rgb theme modifier st Hr) as H. cbv zeta in H.
  destruct (modifyColorWithCache rgb theme modifier st) as [result st1].
  cbn [fst snd colorModificationCache closures] in *.
  destruct H as (_ & _ & Hcl & _ & _ & Hfresh).
  destruct Hfresh as [Hval Hsize].
  { subst modifier. cbn [selectModifier fn_id]. apply (tidy_closures _ Hr). lia. }
  split; [exact Hval|]. split; [exact Hsize|]. rewrite Hcl. simpl. lia.
Qed.

Lemma transformColor_border_closure_never_cached_witness :
  let r := transformColor steel border_t darkProfile None None initial_caches in
  r.1 = modifyColor steel darkProfile (borderModifier darkProfile None)
          (getColorPoles darkProfile (rgbaParseCache initial_caches)).1
          (getCachedFilterMatrix darkProfile false (matrixCache initial_caches)).1 /\
  size (colorModificationCache r.2) = S (size (colorModificationCache initial_caches)) /\
  closures r.2 = S (closures initial_caches).
Proof.
  apply (transformColor_border_closure_never_cached initial_caches steel darkProfile None None).
  - apply reach_initial.
  - reflexivity.
Defined.

End PaletteAndFunctionCache.

(** ** [transformColorWithRegistry] *)

Section RegistryLookup.

Lemma transformColor_not_empty rgb role theme mode shouldRegister st :
  caches_tidy st -> (transformColor rgb role theme mode shouldRegister st).1 <> "".
Proof.
  intros Ht. unfold transformColor.
  destruct (default true shouldRegister).
  - destruct (getRegisteredColor role rgb (colorPalettes st)) as [value|] eqn:Hreg.
    + destruct (String.eqb value "") eqn:Hv.
      * exfalso. apply String.eqb_eq in Hv. subst value. unfold getRegisteredColor in Hreg.
        destruct (colorPalettes st !! role) as [pal|] eqn:Hpal; [|discriminate].
        exact (tidy_palette _ Ht _ _ _ _ Hpal Hreg eq_refl).
      * cbn [fst]. apply String.eqb_neq, Hv.
    + match goal with |- context [modifyColorWithCache rgb theme ?m st] =>
        pose proof (modifyColorWithCache_tidy rgb theme m st Ht) as H; cbv zeta in H;
        destruct (modifyColorWithCache rgb theme m st) end.
      cbn [fst] in *. apply H.
  - match goal with |- context [modifyColorWithCache rgb theme ?m st] =>
      pose proof (modifyColorWithCache_tidy rgb theme m st Ht) as H; cbv zeta in H;
      destruct (modifyColorWithCache rgb theme m st) end.
    cbn [fst] in *. apply H.
Qed.

Lemma getTransformed_again rgb role theme now now' reg out :
  (getTransformed rgb role theme now reg).1 = Some out ->
  (getTransformed rgb role theme now' (getTransformed rgb role theme now reg).2).1 = Some out.
Proof.
  unfold getTransformed.
  destruct (omap_get (getKey rgb) (registry reg)) as [e|]; [|discriminate].
  destruct (negb (bool_decide (colorType e = role)) || negb (String.eqb (themeId e) theme))
    eqn:Hcheck; [discriminate|].
  cbn [fst snd registry]. intros [= <-].
  rewrite omap_get_set_eq. cbn [colorType themeId transformedHex]. rewrite Hcheck. reflexivity.
Qed.

Lemma getTransformed_counts_hit rgb role theme now reg out :
  (getTransformed rgb role theme now reg).1 = Some out ->
  hits (stats (getTransformed rgb role theme now reg).2) = (hits (stats reg) + 1)%Z.
Proof.
  unfold getTransformed.
  destruct (omap_get (getKey rgb) (registry reg)) as [e|]; [|discriminate].
  destruct (negb (bool_decide (colorType e = role)) || negb (String.eqb (themeId e) theme));
    [discriminate|].
  reflexivity.
Qed.

Lemma with_parse_cache_tidy (st : Caches) (cache : gmap string RGBA.t) :
  caches_tidy st ->
  caches_tidy {| rgbaParseCache := cache;
                 matrixCache := matrixCache st;
                 colorModificationCache := colorModificationCache st;
                 parseCache := parseCache st;
                 transformCache := transformCache st;
                 colorPalettes := colorPalettes st;
                 closures := closures st |}.
Proof. intros [H1 H2 H3]. constructor; assumption. Qed.

(** What a call that answers leaves behind. *)
Lemma transformColorWithRegistry_answer value role th now w out :
  world_tidy w ->
  (transformColorWithRegistry value role (Some th) now w).1 = Some out ->
  exists rgb st1 reg1,
    parseColor_normalized (JS.toLowerCase (JS.trim value)) = Some rgb /\
    (transformColorWithRegistry value role (Some th) now w).2 =
      {| caches := st1; colorRegistry := reg1 |} /\
    caches_tidy st1 /\ parse_cache_sound (rgbaParseCache st1) /\
    out <> "" /\
    forall now', (getTransformed rgb role (ThemeId_string (id th)) now' reg1).1 = Some out.
Proof.
  intros [Ht Hs]. unfold transformColorWithRegistry.
  destruct (parseColor_sound_pair value (rgbaParseCache (caches w)) Hs) as (pc & Hp & Hpc).
  rewrite Hp.
  destruct (parseColor_normalized (JS.toLowerCase (JS.trim value))) as [rgb|] eqn:Hparse;
    [|discriminate].
  pose proof (with_parse_cache_tidy (caches w) pc Ht) as Ht0.
  match type of Ht0 with caches_tidy ?s => set (st0 := s) in * end.
  destruct (getTransformed rgb role (ThemeId_string (id th)) now (colorRegistry w))
    as [registered reg] eqn:Hget.
  destruct (match registered with Some v => negb (String.eqb v "") | None => false end) eqn:Hhit.
  - cbn [fst snd]. intros ->. apply negb_true_iff, String.eqb_neq in Hhit.
    exists rgb, st0, reg.
    split; [reflexivity|]. split; [reflexivity|]. split; [exact Ht0|].
    split; [exact Hpc|]. split; [exact Hhit|].
    intros now'.
    pose proof (getTransformed_again rgb role (ThemeId_string (id th)) now now'
                  (colorRegistry w) out) as Hagain.
    rewrite Hget in Hagain. apply Hagain. reflexivity.
  - pose proof (transformColor_not_empty rgb role th None None st0 Ht0) as Hne.
    pose proof (transformColor_tidy rgb role th None None st0 Ht0) as Ht1.
    pose proof (transformColor_parse_sound rgb role th None None st0 Hpc) as Hs1.
    destruct (transformColor rgb role th None None st0) as [transformed st1].
    cbn [fst snd] in *. intros [= ->].
    exists rgb, st1, (register rgb value out role (ThemeId_string (id th)) now reg).
    split; [reflexivity|]. split; [reflexivity|]. split; [exact Ht1|].
    split; [exact Hs1|]. split; [exact Hne|].
    intros now'. rewrite getTransformed_after_register.
    rewrite bool_decide_true, String.eqb_refl by reflexivity. reflexivity.
Qed.

(** A call for a value whose colour the registry holds. *)
Lemma transformColorWithRegistry_served value role th now st reg rgb out :
  parse_cache_sound (rgbaParseCache st) ->
  parseColor_normalized (JS.toLowerCase (JS.trim value)) = Some rgb ->
  (getTransformed rgb role (ThemeId_string (id th)) now reg).1 = Some out ->
  out <> "" ->
  let r := transformColorWithRegistry value role (Some th) now
             {| caches := st; colorRegistry := reg |} in
  r.1 = Some out /\
  hits (stats (colorRegistry r.2)) = (hits (stats reg) + 1)%Z /\
  colorPalettes (caches r.2) = colorPalettes st /\
  colorModificationCache (caches r.2) = colorModificationCache st /\
  closures (caches r.2) = closures st.
Proof.
  intros Hs Hparse Hget Hne r. subst r. unfold transformColorWithRegistry.
  cbn [caches colorRegistry].
  destruct (parseColor_sound_pair value (rgbaParseCache st) Hs) as (pc & Hp & Hpc).
  rewrite Hp, Hparse.
  pose proof (getTransformed_counts_hit rgb role (ThemeId_string (id th)) now reg out Hget)
    as Hcount.
  destruct (getTransformed rgb role (ThemeId_string (id th)) now reg) as [registered reg'].
  cbn [fst snd] in Hget, Hcount. subst registered.
  apply String.eqb_neq in Hne. rewrite Hne.
  cbn [negb fst snd caches colorRegistry colorPalettes colorModificationCache closures].
  auto.
Qed.

(** X21. A colour value the engine has resolved for a role under its theme
    is served from the registry when it is asked for again: the same text
    comes back, the registry counts a hit, and the transform engine is not
    entered (palette, function cache and closures stay as they were). *)
Theorem transformColorWithRegistry_repeat_is_served_from_registry
    (value : string) (role : ColorType) (th : ThemeProfile) (now now' : Z) (w : World)
    (out : string) :
  world_tidy w ->
  let first := transformColorWithRegistry value role (Some th) now w in
  first.1 = Some out ->
  let second := transformColorWithRegistry value role (Some th) now' first.2 in
  world_tidy first.2 /\
  second.1 = Some out /\
  hits (stats (colorRegistry second.2)) = (hits (stats (colorRegistry first.2)) + 1)%Z /\
  colorPalettes (caches second.2) = colorPalettes (caches first.2) /\
  colorModificationCache (caches second.2) = colorModificationCache (caches first.2) /\
  closures (caches second.2) = closures (caches first.2).
Proof.
  intros Hw first Hout second. subst second first.
  destruct (transformColorWithRegistry_answer value role th now w out Hw Hout)
    as (rgb & st1 & reg1 & Hparse & -> & Ht1 & Hs1 & Hne & Hget).
  split; [split; assumption|].
  apply (transformColorWithRegistry_served value role th now' st1 reg1 rgb out Hs1 Hparse
           (Hget now') Hne).
Qed.

End RegistryLookup.

Lemma transformColorWithRegistry_repeat_is_served_from_registry_witness :
  let first :=
    transformColorWithRegistry "#ffffff" background_t (Some darkProfile) 0 initial_world in
  let second := transformColorWithRegistry "#ffffff" background_t (Some darkProfile) 5 first.2 in
  world_tidy first.2 /\
  second.1 = Some "#101212" /\
  hits (stats (colorRegistry second.2)) = (hits (stats (colorRegistry first.2)) + 1)%Z /\
  colorPalettes (caches second.2) = colorPalettes (caches first.2) /\
  colorModificationCache (caches second.2) = colorModificationCache (caches first.2) /\
  closures (caches second.2) = closures (caches first.2).
Proof.
  apply (transformColorWithRegistry_repeat_is_served_from_registry
           "#ffffff" background_t darkProfile 0 5 initial_world "#101212").
  - split; [apply caches_reachable_tidy, reach_initial | apply parse_cache_sound_empty].
  - vm_compute. reflexivity.
Defined.

(** ** Short hex notation; greys *)

Section ShortHex.
Import JS.






End ShortHex.



Lemma grey_table : List.Forall grey_ok (down 256).
Proof.
  let l := eval vm_compute in (down 256) in change (down 256) with l.
  repeat (apply List.Forall_cons; [intros a; vm_compute; repeat split; reflexivity|]).
  apply List.Forall_nil.
Qed.

(** X23. A grey with integer channels in 0..255 has hue 0 and saturation 0,
    and the way back through [hslToRGB] returns it exactly, alpha
    included. *)
Theorem grey_round_trip_is_exact (z : Z) (a : JS.number) :
  (0 <= z <= 255)%Z ->
  let hsl := rgbToHSL (grey z a) in
  HSLA.h hsl = 0%float /\ HSLA.s hsl = 0%float /\ HSLA.a hsl = a /\
  hslToRGB hsl = grey z a.
Proof.
  intros Hz. pose proof grey_table as H. rewrite List.Forall_forall in H.
  apply (H z). apply down_In. lia.
Qed.

Lemma grey_round_trip_is_exact_witness :
  let hsl := rgbToHSL (grey 128 0.5) in
  HSLA.h hsl = 0%float /\ HSLA.s hsl = 0%float /\ HSLA.a hsl = 0.5%float /\
  hslToRGB hsl = grey 128 0.5.
Proof. apply (grey_round_trip_is_exact 128 0.5). lia. Defined.

(** ** Alpha through the transformation pipeline *)

Section Alpha.
Local Open Scope float_scope.
Import JS.

Lemma rgbToHSL_alpha (rgb : RGBA.t) : HSLA.a (rgbToHSL rgb) = RGBA.a rgb.
Proof.
  destruct rgb as [r g b a]. unfold rgbToHSL. cbv zeta.
  match goal with |- HSLA.a (if ?c then _ else _) = _ => destruct c end; reflexivity.
Qed.

Lemma hslToRGB_alpha (hsl : HSLA.t) : RGBA.a (hslToRGB hsl) = HSLA.a hsl.
Proof.
  destruct hsl as [h s l a]. unfold hslToRGB.
  destruct (s =? 0); [reflexivity|].
  cbv zeta.
  match goal with |- context [let '(_, _) := ?t in _] => destruct t as [[? ?] ?] end.
  reflexivity.
Qed.

Lemma applyColorMatrix_alpha (rgb : RGBA.t) (matrix : ColorMatrix) :
  RGBA.a (applyColorMatrix rgb matrix) = RGBA.a rgb.
Proof. destruct rgb. reflexivity. Qed.

Lemma applyThemeFilters_alpha (hsl : HSLA.t) (fs : option ThemeFilters) :
  HSLA.a (applyThemeFilters hsl fs) = HSLA.a hsl.
Proof.
  destruct hsl as [h s l a]. destruct fs as [fs|]; [|reflexivity].
  unfold applyThemeFilters. cbv zeta.
  destruct (sepia fs) as [sp|]; [destruct (truthy_number sp && (0 <? sp))|]; reflexivity.
Qed.

Lemma transformBackgroundDarkMode_alpha hsl poles theme :
  HSLA.a (transformBackgroundDarkMode hsl poles theme) = HSLA.a hsl.
Proof.
  destruct hsl as [h s l a]. unfold transformBackgroundDarkMode. cbv zeta.
  destruct (l <? 0.5).
  - destruct (isNeutralColor h s l true); [reflexivity|].
    destruct (isBlueHue h true); reflexivity.
  - destruct (isNeutralColor h s l false); [reflexivity|].
    destruct (isYellowHue h).
    + destruct (adjustYellowHue _ _). reflexivity.
    + destruct (isBlueHue h true); reflexivity.
Qed.

Lemma transformBackgroundLightMode_alpha hsl poles theme :
  HSLA.a (transformBackgroundLightMode hsl poles theme) = HSLA.a hsl.
Proof.
  destruct hsl as [h s l a]. unfold transformBackgroundLightMode. cbv zeta.
  destruct (l <? 0.5); destruct (isNeutralColor h s l _); reflexivity.
Qed.

Lemma transformForegroundDarkMode_alpha hsl poles theme :
  HSLA.a (transformForegroundDarkMode hsl poles theme) = HSLA.a hsl.
Proof.
  destruct hsl as [h s l a]. unfold transformForegroundDarkMode. cbv zeta.
  destruct (0.5 <? l); cbn [negb]; destruct (isNeutralColor h s l _); try reflexivity;
    destruct (isBlueHue h false); reflexivity.
Qed.

Lemma transformForegroundLightMode_alpha hsl poles theme :
  HSLA.a (transformForegroundLightMode hsl poles theme) = HSLA.a hsl.
Proof.
  destruct hsl as [h s l a]. unfold transformForegroundLightMode. cbv zeta.
  destruct (0.5 <? l); cbn [negb]; destruct (isNeutralColor h s l _); reflexivity.
Qed.

Lemma transformBorderColor_alpha hsl poles isDarkMode :
  HSLA.a (transformBorderColor hsl poles isDarkMode) = HSLA.a hsl.
Proof.
  destruct hsl as [h s l a]. unfold transformBorderColor. cbv zeta.
  destruct (isNeutralColor h s l _); destruct isDarkMode; reflexivity.
Qed.

Lemma selectModifier_alpha role isDarkMode n hsl poles theme :
  HSLA.a (fn_body (selectModifier role isDarkMode n) hsl poles theme) = HSLA.a hsl.
Proof.
  destruct role; cbn [selectModifier].
  - destruct isDarkMode; cbn [fn_body];
      [apply transformBackgroundDarkMode_alpha | apply transformBackgroundLightMode_alpha].
  - destruct isDarkMode; cbn [fn_body];
      [apply transformForegroundDarkMode_alpha | apply transformForegroundLightMode_alpha].
  - cbn [fn_body]. apply transformBorderColor_alpha.
Qed.

End Alpha.

(** X24. Alpha goes through the transformation untouched: for every role,
    mode, theme, poles and matrix, the text [modifyColorWithCache] computes
    on a cache miss is the hex text of a colour whose alpha is that of the
    input colour. *)
Theorem transformation_keeps_alpha
    (rgb : RGBA.t) (theme : ThemeProfile) (role : ColorType) (isDarkMode : bool) (n : nat)
    (poles : ColorPoles) (matrix : ColorMatrix) :
  let body := fn_body (selectModifier role isDarkMode n) in
  modifyColor rgb theme body poles matrix = rgbToHex (pipeline rgb theme body poles matrix) /\
  RGBA.a (pipeline rgb theme body poles matrix) = RGBA.a rgb.
Proof.
  intros body. split; [reflexivity|]. unfold pipeline.
  rewrite applyColorMatrix_alpha, hslToRGB_alpha, applyThemeFilters_alpha.
  subst body. rewrite selectModifier_alpha. apply rgbToHSL_alpha.
Qed.

(** ** Named colours *)

Lemma knownColors_table : List.Forall named_ok knownColors.
Proof.
  unfold knownColors.
  repeat (apply List.Forall_cons; [split; [vm_compute; reflexivity | split; [discriminate | reflexivity]]|]).
  apply List.Forall_nil.
Qed.

(** X25. Every name of the colour table is read as the colour of its table
    value 0xRRGGBB, opaque, in any spelling that lower-cases and trims to
    the name, and in every state of the parse cache. *)
Theorem parseColor_named (name : string) (v : Z) (s : string) (cache : gmap string RGBA.t) :
  In (name, v) knownColors ->
  parse_cache_reachable cache ->
  JS.toLowerCase (JS.trim s) = name ->
  (parseColor s cache).1 = Some (colour_of_value v) /\ (0 <= v < 16777216)%Z.
Proof.
  intros Hin Hs%parse_cache_reachable_sound Hname.
  pose proof knownColors_table as H. rewrite List.Forall_forall in H.
  destruct (H _ Hin) as [Hp Hv]. cbn [fst snd] in Hp, Hv.
  rewrite (proj1 (parseColor_sound s cache Hs)), Hname. auto.
Qed.

Lemma parseColor_named_witness :
  (parseColor "  DarkBlue " ∅).1 = Some (colour_of_value 0x00008b) /\
  (0 <= 0x00008b < 16777216)%Z.
Proof.
  apply (parseColor_named "darkblue" 0x00008b "  DarkBlue " ∅).
  - unfold knownColors. repeat first [left; reflexivity | right].
  - apply parse_cache_empty.
  - reflexivity.
Defined.

(** ** The functional notation [rgb(r, g, b)] *)

Section FunctionalNotation.
Import JS.

Lemma channel_text_table : List.Forall channel_text_ok (down 256).
Proof.
  let l := eval vm_compute in (down 256) in change (down 256) with l.
  repeat (apply List.Forall_cons;
          [vm_compute; repeat split; try reflexivity; discriminate|]).
  apply List.Forall_nil.
Qed.

Lemma channel_text (z : Z) : (0 <= z <= 255)%Z -> channel_text_ok z.
Proof.
  intros Hz. pose proof channel_text_table as H. rewrite List.Forall_forall in H.
  apply (H z). apply down_In. lia.
Qed.

Lemma plain_char_spec (c : ascii) :
  plain_char c = true ->
  is_space c = false /\ (code c =? 44)%Z = false /\ (code c =? 41)%Z = false /\
  lower_char c = c.
Proof.
  unfold plain_char. rewrite !andb_true_iff, !negb_true_iff.
  intros [[[H1 H2] H3] H4]. apply Ascii.eqb_eq in H4. auto.
Qed.

Lemma plain_toLowerCase (s : string) : plain s = true -> toLowerCase s = s.
Proof.
  induction s as [|c s IH]; [reflexivity|]. cbn [plain toLowerCase].
  intros [Hc Hs]%andb_true_iff. apply plain_char_spec in Hc as (_ & _ & _ & ->).
  rewrite (IH Hs). reflexivity.
Qed.

Lemma plain_trimStart (s : string) : plain s = true -> trimStart s = s.
Proof.
  destruct s as [|c s]; [reflexivity|]. cbn [plain trimStart].
  intros [Hc _]%andb_true_iff. apply plain_char_spec in Hc as (-> & _). reflexivity.
Qed.

Lemma plain_trimEnd (s : string) : plain s = true -> trimEnd s = s.
Proof.
  induction s as [|c s IH]; [reflexivity|]. cbn [plain trimEnd].
  intros [Hc Hs]%andb_true_iff. rewrite (IH Hs).
  apply plain_char_spec in Hc as (-> & _). destruct s; reflexivity.
Qed.

Lemma plain_trim (s : string) : plain s = true -> trim s = s.
Proof. intros H. unfold trim. rewrite (plain_trimStart s H). apply plain_trimEnd, H. Qed.

(** A plain character starts no separator. *)
Lemma separator_here_plain (c : ascii) (x : string) :
  plain_char c = true -> separator_here (String c x) = None.
Proof.
  intros (Hs & Hc & _)%plain_char_spec. unfold separator_here.
  cbn [trimStart]. rewrite Hs.
  destruct (Ascii.eqb_spec c ",") as [->|Hne]; [discriminate|].
  destruct c as [[] [] [] [] [] [] [] []]; try reflexivity. contradiction.
Qed.

Lemma string_of_rev_word (w : string) (cur : list ascii) :
  string_of_rev (List.rev (list_ascii_of_string w) ++ cur) =
  string_of_rev cur +:+ w.
Proof.
  unfold string_of_rev. revert cur. induction w as [|c w IH]; intros cur.
  - cbn [list_ascii_of_string List.rev app].
    induction (List.rev cur) as [|a l IHl]; [reflexivity|].
    cbn [string_of_list_ascii]. rewrite string_app_cons, <- IHl. reflexivity.
  - cbn [list_ascii_of_string List.rev]. rewrite <- app_assoc. cbn [app].
    rewrite (IH (c :: cur)). cbn [List.rev].
    induction (List.rev cur) as [|a l IHl]; [reflexivity|].
    cbn [app string_of_list_ascii]. rewrite !string_app_cons, IHl. reflexivity.
Qed.

(** [split] walks over a plain word without cutting it. *)
Lemma split_loop_word (w : string) :
  plain w = true ->
  forall fuel rest cur,
    split_loop (String.length w + fuel) (w +:+ rest) cur =
    split_loop fuel rest (List.rev (list_ascii_of_string w) ++ cur).
Proof.
  induction w as [|c w IH]; intros Hw fuel rest cur; [reflexivity|].
  cbn [plain] in Hw. apply andb_true_iff in Hw as [Hc Hw].
  rewrite string_app_cons. cbn [String.length Nat.add split_loop].
  rewrite (separator_here_plain c _ Hc), (IH Hw).
  cbn [list_ascii_of_string List.rev]. rewrite <- app_assoc. reflexivity.
Qed.

(** A comma and a blank before a plain word are one separator. *)
Lemma split_loop_separator (w rest : string) (fuel : nat) (cur : list ascii) :
  plain w = true -> w <> "" ->
  split_loop (S fuel) (", " +:+ w +:+ rest) cur =
  string_of_rev cur :: split_loop fuel (w +:+ rest) nil.
Proof.
  intros Hw Hne. destruct w as [|c w]; [contradiction|].
  cbn [plain] in Hw. apply andb_true_iff in Hw as [Hc _].
  apply plain_char_spec in Hc as (Hs & _).
  change (", " +:+ String c w +:+ rest) with (String "," (String " " (String c (w +:+ rest)))).
  cbn [split_loop]. unfold separator_here. cbn [trimStart].
  replace (is_space ",") with false by reflexivity. cbv iota. cbn [trimStart].
  replace (is_space " ") with true by reflexivity. rewrite Hs. reflexivity.
Qed.

Lemma split_loop_end (fuel : nat) (cur : list ascii) :
  split_loop fuel "" cur = [string_of_rev cur].
Proof. destruct fuel; reflexivity. Qed.

Lemma string_app_nil_r (s : string) : s +:+ "" = s.
Proof. induction s as [|c s IH]; [reflexivity|]. rewrite string_app_cons, IH. reflexivity. Qed.

Lemma split_separators_three (s1 s2 s3 : string) :
  plain s1 = true -> plain s2 = true -> plain s3 = true -> s2 <> "" -> s3 <> "" ->
  split_separators (s1 +:+ ", " +:+ s2 +:+ ", " +:+ s3) = [s1; s2; s3].
Proof.
  intros H1 H2 H3 N2 N3. unfold split_separators.
  rewrite !string_app_length. cbn [String.length].
  replace (S (String.length s1 + (2 + (String.length s2 + (2 + String.length s3)))))
    with (String.length s1 + S (String.length s2 + S (String.length s3 + 3))) by lia.
  rewrite (split_loop_word s1 H1).
  rewrite (split_loop_separator s2 _ _ _ H2 N2).
  rewrite (split_loop_word s2 H2).
  replace (", " +:+ s3) with (", " +:+ s3 +:+ "") by (rewrite string_app_nil_r; reflexivity).
  rewrite (split_loop_separator s3 "" _ _ H3 N3).
  rewrite (split_loop_word s3 H3), split_loop_end.
  rewrite !string_of_rev_word. reflexivity.
Qed.

Lemma plain_open_text (s : string) : plain s = true -> open_text s = true.
Proof.
  induction s as [|c s IH]; [reflexivity|]. cbn [plain open_text].
  intros [Hc Hs]%andb_true_iff. apply plain_char_spec in Hc as (_ & _ & -> & _).
  apply IH, Hs.
Qed.

Lemma open_text_app (s t : string) : open_text (s +:+ t) = open_text s && open_text t.
Proof.
  induction s as [|c s IH]; [reflexivity|].
  rewrite string_app_cons. cbn [open_text]. rewrite IH, andb_assoc. reflexivity.
Qed.

Lemma until_close_open (body rest : string) (acc : list ascii) :
  open_text body = true ->
  until_close (body +:+ String ")" rest) acc = Some (string_of_rev acc +:+ body).
Proof.
  revert acc. induction body as [|c body IH]; intros acc H.
  - rewrite string_app_nil_r. reflexivity.
  - cbn [open_text] in H. apply andb_true_iff in H as [Hc H]. apply negb_true_iff in Hc.
    rewrite string_app_cons. cbn [until_close]. rewrite Hc, (IH _ H).
    pose proof (string_of_rev_word (String c "") acc) as E.
    cbn [list_ascii_of_string List.rev app] in E. rewrite E, string_app_assoc. reflexivity.
Qed.

Lemma substring_all (x : string) : String.substring 0 (String.length x) x = x.
Proof. induction x as [|c x IH]; [reflexivity|]. cbn [String.length String.substring]. rewrite IH. reflexivity. Qed.

Lemma rest_after_rgb (y : string) :
  String.substring (String.length "rgb")
    (String.length (String "r" (String "g" (String "b" y))) - String.length "rgb")
    (String "r" (String "g" (String "b" y))) = y.
Proof.
  cbn [String.length Nat.sub String.substring]. rewrite Nat.sub_0_r. apply substring_all.
Qed.

Lemma match_call_rgb (c : ascii) (body : string) :
  is_space c = false -> open_text (String c body) = true ->
  match_call "rgb" ("rgb(" +:+ String c body +:+ ")") = Some (String c body).
Proof.
  intros Hs Ho.
  change ("rgb(" +:+ String c body +:+ ")")
    with (String "r" (String "g" (String "b" (String "(" (String c body +:+ ")"))))).
  cbn [match_call]. unfold match_call_here.
  rewrite rest_after_rgb.
  replace (String.prefix "rgb" _) with true by reflexivity.
  cbv iota. cbn [trimStart]. replace (is_space "(") with false by reflexivity. cbv iota.
  rewrite (until_close_open (String c body) "" nil Ho).
  change (string_of_rev [] +:+ String c body) with (String c body).
  cbn [trimStart]. rewrite Hs. reflexivity.
Qed.

(** The channels of [rgb(r, g, b)] as [parseRGB] reads them. *)
Lemma parseRGB_three (s1 s2 s3 : string) (v1 v2 v3 : number) :
  plain s1 = true -> plain s2 = true -> plain s3 = true ->
  s1 <> "" -> s2 <> "" -> s3 <> "" ->
  parseFloat s1 = v1 -> parseFloat s2 = v2 -> parseFloat s3 = v3 ->
  endsWith s1 "%" = false -> endsWith s2 "%" = false -> endsWith s3 "%" = false ->
  isNaN v1 = false -> isNaN v2 = false -> isNaN v3 = false ->
  parseRGB ("rgb(" +:+ s1 +:+ ", " +:+ s2 +:+ ", " +:+ s3 +:+ ")") =
  Some (RGBA.mk v1 v2 v3 1).
Proof.
  intros P1 P2 P3 N1 N2 N3 F1 F2 F3 E1 E2 E3 V1 V2 V3.
  assert (Hbody : exists c b, s1 +:+ ", " +:+ s2 +:+ ", " +:+ s3 = String c b /\
                              is_space c = false).
  { destruct s1 as [|c s1]; [contradiction|]. exists c. eexists. split; [reflexivity|].
    cbn [plain] in P1. apply andb_true_iff in P1 as [Hc _].
    apply plain_char_spec in Hc. apply Hc. }
  destruct Hbody as (c & b & Eb & Hc).
  assert (Ho : open_text (s1 +:+ ", " +:+ s2 +:+ ", " +:+ s3) = true).
  { rewrite !open_text_app, (plain_open_text s1 P1), (plain_open_text s2 P2),
      (plain_open_text s3 P3). reflexivity. }
  unfold parseRGB.
  replace ("rgb(" +:+ s1 +:+ ", " +:+ s2 +:+ ", " +:+ s3 +:+ ")")
    with ("rgb(" +:+ (s1 +:+ ", " +:+ s2 +:+ ", " +:+ s3) +:+ ")")
    by (rewrite !string_app_assoc; reflexivity).
  rewrite Eb in Ho |- *. rewrite (match_call_rgb c b Hc Ho). rewrite <- Eb.
  rewrite (split_separators_three s1 s2 s3 P1 P2 P3 N2 N3).
  cbn [List.map List.length Nat.ltb Nat.leb part List.nth].
  rewrite !plain_trim by assumption.
  rewrite E1, E2, E3, F1, F2, F3, V1, V2, V3.
  replace (isNaN 1) with false by reflexivity. reflexivity.
Qed.

Lemma parseColor_normalized_rgb (x : string) :
  parseColor_normalized ("rgb(" +:+ x) = parseRGB ("rgb(" +:+ x).
Proof. reflexivity. Qed.

Lemma normalize_rgb (s1 s2 s3 : string) :
  plain s1 = true -> plain s2 = true -> plain s3 = true ->
  toLowerCase (trim ("rgb(" +:+ s1 +:+ ", " +:+ s2 +:+ ", " +:+ s3 +:+ ")")) =
  "rgb(" +:+ s1 +:+ ", " +:+ s2 +:+ ", " +:+ s3 +:+ ")".
Proof.
  intros P1 P2 P3. unfold trim.
  replace (trimStart ("rgb(" +:+ s1 +:+ ", " +:+ s2 +:+ ", " +:+ s3 +:+ ")"))
    with (("rgb(" +:+ s1 +:+ ", " +:+ s2 +:+ ", " +:+ s3) +:+ ")")
    by (rewrite !string_app_assoc; reflexivity).
  rewrite (trimEnd_app _ ")") by (discriminate || reflexivity).
  rewrite !toLowerCase_app, (plain_toLowerCase s1 P1), (plain_toLowerCase s2 P2),
    (plain_toLowerCase s3 P3).
  rewrite !string_app_assoc. reflexivity.
Qed.

End FunctionalNotation.

(** X26. [parseColor] reads the functional notation: for integer channels
    in 0..255, the text "rgb(r, g, b)" as a template literal writes it is
    read as the opaque colour with those channels, in every state of the
    parse cache. *)
Theorem parseColor_rgb_notation (r g b : Z) (cache : gmap string RGBA.t) :
  (0 <= r <= 255)%Z -> (0 <= g <= 255)%Z -> (0 <= b <= 255)%Z ->
  parse_cache_reachable cache ->
  (parseColor (rgb_text r g b) cache).1 =
  Some (RGBA.mk (JS.number_of_Z r) (JS.number_of_Z g) (JS.number_of_Z b) 1).
Proof.
  intros Hr Hg Hb Hs%parse_cache_reachable_sound.
  destruct (channel_text r Hr) as (P1 & N1 & F1 & E1 & V1).
  destruct (channel_text g Hg) as (P2 & N2 & F2 & E2 & V2).
  destruct (channel_text b Hb) as (P3 & N3 & F3 & E3 & V3).
  rewrite (proj1 (parseColor_sound _ cache Hs)). unfold rgb_text.
  rewrite (normalize_rgb _ _ _ P1 P2 P3), parseColor_normalized_rgb.
  apply parseRGB_three; assumption.
Qed.

Lemma parseColor_rgb_notation_witness :
  (parseColor (rgb_text 255 128 0) ∅).1 =
  Some (RGBA.mk (JS.number_of_Z 255) (JS.number_of_Z 128) (JS.number_of_Z 0) 1).
Proof.
  apply (parseColor_rgb_notation 255 128 0 ∅); first [lia | apply parse_cache_empty].
Defined.
